(** * sftp-gui: session registry, transfer engine and archive builder

    A shallow embedding of the Go services of the SFTP web client
    ([internal/services] session and file services, [internal/models],
    [pkg/utils]) together with the legacy single-file handler that still
    ships in the repository.

    Conventions.
    - Go strings are byte strings: [string] (a list of 8-bit [ascii]).
    - Go [(T, error)] results are [result T]; a bare [error] is
      [option error] ([None] is [nil]).
    - [time.Time] is an instant in nanoseconds ([Z]); [time.Duration] is an
      int64 number of nanoseconds, and [Time.Sub] saturates as Go's does.
    - The registry map is a [gmap string Session]; the mutex-protected
      critical sections are the atomic steps of the model.
    - Everything outside the repository (the SSH/SFTP peers, the random
      source, the clock, the ZIP writer's sink) is an explicit answer passed
      to the function that asks for it. *)

From Stdlib Require Import ZArith Lia Strings.Ascii Strings.String Strings.Byte.
From stdpp Require Import gmap strings list fin_maps.

Set Warnings "-register-all".

Local Open Scope string_scope.
Local Open Scope list_scope.

(* ===================================================================== *)
(** * Part I: definitions                                                 *)
(* ===================================================================== *)

(** ** Errors and results *)

(** [models.ValidationError], [models.SessionError], [models.AuthError] and
    the errors built by [fmt.Errorf]; [Foreign] is an error value produced
    by a library or by the remote peer. *)
Inductive error : Type :=
| ValidationError (Message : string)
| SessionError (Message : string)
| AuthError (Message : string)
| Errorf (msg : string)
| Wrapf (msg : string) (cause : error)
| Foreign (msg : string).

Inductive result (A : Type) : Type :=
| Ok (a : A)
| Err (e : error).
Arguments Ok {A} a.
Arguments Err {A} e.

Definition ErrInvalidHost : error := ValidationError "host is required".
Definition ErrInvalidPort : error := ValidationError "port must be between 1 and 65535".
Definition ErrInvalidUsername : error := ValidationError "username is required".
Definition ErrInvalidPassword : error := ValidationError "password is required".
Definition ErrSessionExpired : error := SessionError "session has expired".
Definition ErrSessionNotFound : error := SessionError "session not found".
Definition ErrUnauthorized : error := AuthError "unauthorized access".

(** ** Time *)

Definition Time : Type := Z.
Definition Duration : Type := Z.

Definition minDuration : Duration := (- 2 ^ 63)%Z.
Definition maxDuration : Duration := (2 ^ 63 - 1)%Z.
Definition Nanosecond : Duration := 1%Z.
Definition Second : Duration := 1000000000%Z.
Definition Minute : Duration := (60 * Second)%Z.
Definition Hour : Duration := (60 * Minute)%Z.

(** [t.Sub(u)]: the difference, saturated to the int64 range. *)
Definition Sub (t u : Time) : Duration :=
  let d := (t - u)%Z in
  if (d <? minDuration)%Z then minDuration
  else if (maxDuration <? d)%Z then maxDuration
  else d.

(** [time.Since(t)] is [time.Now().Sub(t)]; [now] is the clock reading. *)
Definition Since (now t : Time) : Duration := Sub now t.

(** ** Connections *)

(** Handles of the two clients a session owns. *)
Inductive Handle : Type :=
| SSH (n : nat)
| SFTP (n : nat).

#[global] Instance Handle_eq_dec : EqDecision Handle.
Proof. solve_decision. Defined.

(** ** models.Session *)

Record Session : Type := mkSession {
  ID : string;
  SSHClient : option nat;
  SFTPClient : option nat;
  CreatedAt : Time;
  LastAccess : Time;
  HomeDir : string;
  Username : string;
  Host : string;
  Port : Z;
  IsActive : bool
}.

Record LoginRequest : Type := mkLoginRequest {
  req_Host : string;
  req_Port : Z;
  req_Username : string;
  req_Password : string
}.

(** [config.SessionConfig], the fields the services read. *)
Record SessionConfig : Type := mkSessionConfig {
  Timeout : Duration;
  CleanupInterval : Duration;
  MaxSessions : Z
}.

(** [Session.IsExpired]: [time.Since(s.LastAccess) > timeout]. *)
Definition IsExpired (now : Time) (s : Session) (timeout : Duration) : bool :=
  (timeout <? Since now (LastAccess s))%Z.

(** [Session.UpdateAccess]: [s.LastAccess = time.Now()]. *)
Definition UpdateAccess (now : Time) (s : Session) : Session :=
  mkSession (ID s) (SSHClient s) (SFTPClient s) (CreatedAt s) now
            (HomeDir s) (Username s) (Host s) (Port s) (IsActive s).

(** The second of two errors wins when it is not nil ([err = closeErr]). *)
Definition later_error (first second : option error) : option error :=
  match second with
  | Some e => Some e
  | None => first
  end.

(** [Session.Close]: clears the active flag, closes the SFTP client and then
    the SSH client when they are not nil, and sets both to nil.  [closeErr]
    is what [Close] of a handle answers; [log] records the [Close] calls
    issued, oldest first. *)
Definition Session_Close (closeErr : Handle -> option error)
    (s : Session) (log : list Handle) : Session * list Handle * option error :=
  let '(log1, err1) :=
    match SFTPClient s with
    | Some c => (log ++ [SFTP c], closeErr (SFTP c))
    | None => (log, None)
    end in
  let '(log2, err2) :=
    match SSHClient s with
    | Some c => (log1 ++ [SSH c], later_error err1 (closeErr (SSH c)))
    | None => (log1, err1)
    end in
  (mkSession (ID s) None None (CreatedAt s) (LastAccess s)
             (HomeDir s) (Username s) (Host s) (Port s) false,
   log2, err2).

(** The connection handles a session still owns. *)
Definition session_handles (s : Session) : list Handle :=
  match SFTPClient s with Some c => [SFTP c] | None => [] end
  ++ match SSHClient s with Some c => [SSH c] | None => [] end.

(** [LoginRequest.Validate]. *)
Definition LoginRequest_Validate (r : LoginRequest) : option error :=
  if decide (req_Host r = "") then Some ErrInvalidHost
  else if ((req_Port r <=? 0) || (65535 <? req_Port r))%Z then Some ErrInvalidPort
  else if decide (req_Username r = "") then Some ErrInvalidUsername
  else if decide (req_Password r = "") then Some ErrInvalidPassword
  else None.

(** ** The remote side

    What an SFTP server answers.  [Stat] of a path answers with a node; the
    node of a regular file carries the answer to [Open] (the bytes the file
    delivers and the read error, if any, that ends them), the node of a
    directory the answer to [ReadDir], whose entries are nodes again.
    Remote trees are finite. *)

Record FileStat : Type := mkFileStat {
  st_Name : string;
  st_Size : Z;
  st_Mode : Z;
  st_ModTime : Time
}.

Inductive Remote : Type :=
| RFile (info : FileStat) (body : result (list byte * option error))
| RDir (info : FileStat) (listing : result (list Remote)).

Definition info_of (n : Remote) : FileStat :=
  match n with
  | RFile info _ => info
  | RDir info _ => info
  end.

(** [os.FileInfo] accessors. *)
Definition Name (n : Remote) : string := st_Name (info_of n).
Definition Size (n : Remote) : Z := st_Size (info_of n).
Definition IsDir (n : Remote) : bool :=
  match n with
  | RFile _ _ => false
  | RDir _ _ => true
  end.

(** A server: the node found at each path, or the error [Stat] reports. *)
Definition Server : Type := string -> result Remote.

(** [client.ReadDir(p)]. *)
Definition ReadDir (srv : Server) (p : string) : result (list Remote) :=
  match srv p with
  | Err e => Err e
  | Ok (RDir _ listing) => listing
  | Ok (RFile _ _) => Err (Foreign "not a directory")
  end.

(** [client.Open(p)]. *)
Definition Open (srv : Server) (p : string) : result (list byte * option error) :=
  match srv p with
  | Err e => Err e
  | Ok (RFile _ body) => body
  | Ok (RDir _ _) => Err (Foreign "is a directory")
  end.

(** ** services.SessionService *)

(** The service with the part of the outside world it acts on: the registry
    map, the configuration, the server behind each SFTP client, the answers
    of [Close], and the log of [Close] calls issued on connection handles. *)
Record World : Type := mkWorld {
  sessions : gmap string Session;
  config : SessionConfig;
  remote : nat -> Server;
  closeErr : Handle -> option error;
  closed : list Handle
}.

Definition with_sessions (m : gmap string Session) (w : World) : World :=
  mkWorld m (config w) (remote w) (closeErr w) (closed w).

Definition with_closed (log : list Handle) (w : World) : World :=
  mkWorld (sessions w) (config w) (remote w) (closeErr w) log.

(** [len(s.sessions)] as a Go [int]. *)
Definition session_count (w : World) : Z := Z.of_nat (size (sessions w)).

(** [encoding/hex.EncodeToString]. *)
Definition hextable : string := "0123456789abcdef".

Definition hexdigit (n : N) : ascii :=
  match String.get (N.to_nat n) hextable with
  | Some c => c
  | None => "0"%char
  end.

Fixpoint EncodeToString (src : list byte) : string :=
  match src with
  | [] => ""
  | b :: rest =>
      let v := Byte.to_N b in
      String (hexdigit (N.shiftr v 4)) (String (hexdigit (N.land v 15)) (EncodeToString rest))
  end.

(** [generateSessionID]: sixteen bytes of [crypto/rand], hex encoded;
    [random] is what [rand.Read] delivers. *)
Definition generateSessionID (random : result (list byte)) : result string :=
  match random with
  | Err e => Err e
  | Ok bytes => Ok (EncodeToString bytes)
  end.

(** What the outside world answers during one [CreateSession] call. *)
Record CreateEnv : Type := mkCreateEnv {
  dial : result nat;                 (* ssh.Dial("tcp", addr, sshConfig) *)
  newClient : result nat;            (* sftp.NewClient(sshClient) *)
  getwd : result string;             (* sftpClient.Getwd() *)
  random : result (list byte);       (* rand.Read(bytes) *)
  now_created : Time;                (* time.Now() for CreatedAt *)
  now_access : Time                  (* time.Now() for LastAccess *)
}.

(** First critical section of [CreateSession]: request validation, then the
    limit check under the read lock.  [None] means the call goes on. *)
Definition create_check (req : LoginRequest) (w : World) : option error :=
  match LoginRequest_Validate req with
  | Some e => Some e
  | None =>
      if (MaxSessions (config w) <=? session_count w)%Z
      then Some (Errorf "maximum number of sessions reached")
      else None
  end.

(** The rest of [CreateSession]: connect, resolve the home directory,
    generate the id, and store the session under the write lock. *)
Definition create_store (req : LoginRequest) (env : CreateEnv) (w : World)
    : result Session * World :=
  match dial env with
  | Err e => (Err (Wrapf "failed to connect to SSH server" e), w)
  | Ok sshClient =>
      match newClient env with
      | Err e =>
          (Err (Wrapf "failed to create SFTP client" e),
           with_closed (closed w ++ [SSH sshClient]) w)
      | Ok sftpClient =>
          let homeDir := match getwd env with
                         | Ok d => d
                         | Err _ => "/"
                         end in
          match generateSessionID (random env) with
          | Err e =>
              (Err (Wrapf "failed to generate session ID" e),
               with_closed (closed w ++ [SFTP sftpClient; SSH sshClient]) w)
          | Ok sessionID =>
              let session :=
                mkSession sessionID (Some sshClient) (Some sftpClient)
                          (now_created env) (now_access env) homeDir
                          (req_Username req) (req_Host req) (req_Port req) true in
              (Ok session, with_sessions (<[sessionID := session]> (sessions w)) w)
          end
      end
  end.

(** [SessionService.CreateSession], run without interruption. *)
Definition CreateSession (req : LoginRequest) (env : CreateEnv) (w : World)
    : result Session * World :=
  match create_check req w with
  | Some e => (Err e, w)
  | None => create_store req env w
  end.

(** [SessionService.GetSession].  [now] is the clock read by [IsExpired],
    [now'] the one read by [UpdateAccess]; the record is updated in place,
    so the registry sees the new access time. *)
Definition GetSession (now now' : Time) (sessionID : string) (w : World)
    : result Session * World :=
  match sessions w !! sessionID with
  | None => (Err ErrSessionNotFound, w)
  | Some session =>
      if IsExpired now session (Timeout (config w))
      then (Err ErrSessionExpired, w)
      else
        let session' := UpdateAccess now' session in
        (Ok session', with_sessions (<[sessionID := session']> (sessions w)) w)
  end.

(** [SessionService.DeleteSession].  A close error is only printed. *)
Definition DeleteSession (sessionID : string) (w : World) : option error * World :=
  match sessions w !! sessionID with
  | None => (Some ErrSessionNotFound, w)
  | Some session =>
      let '(_, log, _) := Session_Close (closeErr w) session (closed w) in
      (None, with_sessions (delete sessionID (sessions w)) (with_closed log w))
  end.

(** *** Interleaved [CreateSession] calls

    The read lock is released after the limit check and the write lock is
    taken only for the final map store, so a call is two atomic steps with
    arbitrary steps of other calls in between. *)
Inductive CreateThread : Type :=
| Entered (req : LoginRequest) (env : CreateEnv)
| Checked (req : LoginRequest) (env : CreateEnv)
| Returned (r : result Session).

Definition thread_step (t : CreateThread) (w : World) : option (CreateThread * World) :=
  match t with
  | Entered req env =>
      match create_check req w with
      | Some e => Some (Returned (Err e), w)
      | None => Some (Checked req env, w)
      end
  | Checked req env =>
      let '(r, w') := create_store req env w in Some (Returned r, w')
  | Returned _ => None
  end.

(** One step of the pool: thread [i] runs its next critical section. *)
Definition pool_step (i : nat) (st : World * list CreateThread)
    : World * list CreateThread :=
  match snd st !! i with
  | None => st
  | Some t =>
      match thread_step t (fst st) with
      | None => st
      | Some (t', w') => (w', <[i := t']> (snd st))
      end
  end.

(** Run the pool under a schedule (the order in which threads get a turn). *)
Definition run_schedule (schedule : list nat) (st : World * list CreateThread)
    : World * list CreateThread :=
  fold_left (fun s i => pool_step i s) schedule st.

(** *** The legacy handler's home directory detection ([connectHandler]) *)

(** [stat] is what [sftpClient.Stat] answers ([true]: no error). *)
Definition connectHandler_homeDir (getwd : result string) (stat : string -> bool)
    (username : string) : string :=
  let probe :=
    if stat ("/home/" +:+ username) then "/home/" +:+ username
    else if stat ("/Users/" +:+ username) then "/Users/" +:+ username
    else "/" in
  match getwd with
  | Ok wd => if bool_decide (wd = "") then probe else wd
  | Err _ => probe
  end.

(** ** Go library functions on strings and slash-separated paths

    [strings], [path] and [path/filepath] (on a Unix host, where
    [filepath] and [path] agree) are not part of the repository; they are
    modelled after their documented behaviour.  [ToLower] is the ASCII case
    of [strings.ToLower]: bytes outside [A-Z] are left as they are. *)

Definition slash : ascii := "/"%char.
Definition dot : ascii := "."%char.

Definition lower_ascii (c : ascii) : ascii :=
  let n := nat_of_ascii c in
  if ((65 <=? n) && (n <=? 90))%nat then ascii_of_nat (n + 32) else c.

Fixpoint ToLower (s : string) : string :=
  match s with
  | EmptyString => EmptyString
  | String c rest => String (lower_ascii c) (ToLower rest)
  end.

(** [strings.HasPrefix]. *)
Definition HasPrefix (s prefix : string) : bool := String.prefix prefix s.

(** [strings.Contains]. *)
Fixpoint Contains (s substr : string) : bool :=
  String.prefix substr s ||
  match s with
  | EmptyString => false
  | String _ rest => Contains rest substr
  end.

(** [strings.Split(s, "/")]: never empty. *)
Fixpoint split_slash (s : string) : list string :=
  match s with
  | EmptyString => [EmptyString]
  | String c rest =>
      if Ascii.eqb c slash then EmptyString :: split_slash rest
      else match split_slash rest with
           | x :: xs => String c x :: xs
           | [] => [String c EmptyString]
           end
  end.

(** [strings.Join(elems, "/")]. *)
Fixpoint join_slash (elems : list string) : string :=
  match elems with
  | [] => EmptyString
  | [x] => x
  | x :: rest => x +:+ "/" +:+ join_slash rest
  end.

(** One path element processed by [Clean], the elements kept so far in
    [out]: empty and [.] elements are dropped; [..] removes the last real
    element, is dropped at the root, and is kept in front of a relative
    path; any other element is appended. *)
Definition clean_elem (rooted : bool) (out : list string) (e : string) : list string :=
  if bool_decide (e = "") || bool_decide (e = ".") then out
  else if bool_decide (e = "..") then
    match last out with
    | Some top =>
        if bool_decide (top = "..") then (if rooted then out else out ++ [".."])
        else removelast out
    | None => if rooted then out else [".."]
    end
  else out ++ [e].

(** [path.Clean] (and [filepath.Clean] on Unix). *)
Definition Clean (p : string) : string :=
  match p with
  | EmptyString => "."
  | String c _ =>
      let rooted := Ascii.eqb c slash in
      let out := fold_left (clean_elem rooted) (split_slash p) [] in
      if rooted then "/" +:+ join_slash out
      else match out with
           | [] => "."
           | _ => join_slash out
           end
  end.

(** [path.Join] of two elements: empty elements are ignored, the rest is
    joined with a slash and cleaned; the join of nothing is empty. *)
Definition Join (a b : string) : string :=
  if bool_decide (a = "") then
    if bool_decide (b = "") then "" else Clean b
  else if bool_decide (b = "") then Clean a
  else Clean (a +:+ "/" +:+ b).

(** [filepath.Base]: the last element of the path, trailing slashes
    removed first; [.] for the empty path and [/] for a path of slashes. *)
Definition Base (p : string) : string :=
  if bool_decide (p = "") then "."
  else match last (filter (fun e => e <> "") (split_slash p)) with
       | Some e => e
       | None => "/"
       end.

(** The suffix of [s] that starts at its last dot. *)
Fixpoint last_dot_suffix (s : string) : option string :=
  match s with
  | EmptyString => None
  | String c rest =>
      match last_dot_suffix rest with
      | Some x => Some x
      | None => if Ascii.eqb c dot then Some s else None
      end
  end.

(** [filepath.Ext]: the suffix beginning at the final dot in the final
    element of the path; empty if there is no dot. *)
Definition Ext (p : string) : string :=
  match last (split_slash p) with
  | Some e => default "" (last_dot_suffix e)
  | None => ""
  end.

(** ** pkg/utils *)

Definition languageMap : gmap string string :=
  list_to_map
    [ (".js", "javascript"); (".jsx", "jsx"); (".ts", "typescript"); (".tsx", "tsx");
      (".py", "python"); (".go", "go"); (".java", "java"); (".c", "c");
      (".cpp", "cpp"); (".cc", "cpp"); (".cxx", "cpp"); (".h", "c");
      (".hpp", "cpp"); (".cs", "csharp"); (".php", "php"); (".rb", "ruby");
      (".rs", "rust"); (".swift", "swift"); (".kt", "kotlin"); (".scala", "scala");
      (".sh", "bash"); (".bash", "bash"); (".zsh", "bash"); (".fish", "bash");
      (".ps1", "powershell"); (".sql", "sql"); (".html", "html"); (".htm", "html");
      (".xml", "xml"); (".css", "css"); (".scss", "scss"); (".sass", "sass");
      (".less", "less"); (".json", "json"); (".yaml", "yaml"); (".yml", "yaml");
      (".toml", "toml"); (".ini", "ini"); (".conf", "ini"); (".cfg", "ini");
      (".md", "markdown"); (".markdown", "markdown"); (".tex", "latex"); (".r", "r");
      (".R", "r"); (".m", "matlab"); (".pl", "perl"); (".lua", "lua");
      (".vim", "vim"); (".dockerfile", "dockerfile"); (".docker", "dockerfile");
      (".makefile", "makefile"); (".mk", "makefile"); (".cmake", "cmake");
      (".gradle", "gradle"); (".groovy", "groovy"); (".clj", "clojure"); (".elm", "elm");
      (".ex", "elixir"); (".exs", "elixir"); (".erl", "erlang"); (".hrl", "erlang");
      (".fs", "fsharp"); (".fsx", "fsharp"); (".ml", "ocaml"); (".mli", "ocaml");
      (".hs", "haskell"); (".lhs", "haskell"); (".dart", "dart"); (".v", "verilog");
      (".sv", "systemverilog"); (".vhd", "vhdl"); (".vhdl", "vhdl") ].

(** [utils.GetLanguageFromExtension]. *)
Definition GetLanguageFromExtension (ext : string) : string :=
  let ext := ToLower ext in
  match languageMap !! ext with
  | Some lang => lang
  | None => "text"
  end.

(** The loop [for _, x := range exts { if ext == x { return true } }]. *)
Definition ext_in (exts : list string) (ext : string) : bool :=
  existsb (fun x => bool_decide (ext = x)) exts.

Definition IsImageFile (ext : string) : bool :=
  ext_in [".jpg"; ".jpeg"; ".png"; ".gif"; ".bmp"; ".svg"; ".webp"; ".ico"; ".tiff"; ".tif"]
         (ToLower ext).

Definition IsDocumentFile (ext : string) : bool :=
  ext_in [".pdf"; ".doc"; ".docx"; ".xls"; ".xlsx"; ".ppt"; ".pptx"; ".txt"; ".rtf";
          ".odt"; ".ods"; ".odp"]
         (ToLower ext).

Definition IsArchiveFile (ext : string) : bool :=
  ext_in [".zip"; ".tar"; ".gz"; ".bz2"; ".xz"; ".7z"; ".rar"; ".tar.gz"; ".tar.bz2"; ".tar.xz"]
         (ToLower ext).

Definition IsCodeFile (ext : string) : bool :=
  ext_in [".js"; ".jsx"; ".ts"; ".tsx"; ".py"; ".go"; ".java"; ".c"; ".cpp"; ".cc"; ".cxx";
          ".h"; ".hpp"; ".cs"; ".php"; ".rb"; ".rs"; ".swift"; ".kt"; ".scala"; ".sh";
          ".bash"; ".zsh"; ".fish"; ".ps1"; ".sql"; ".html"; ".htm"; ".xml"; ".css";
          ".scss"; ".sass"; ".less"; ".json"; ".yaml"; ".yml"; ".toml"; ".ini"; ".conf";
          ".cfg"; ".md"; ".markdown"; ".tex"; ".r"; ".R"; ".m"; ".pl"; ".lua"; ".vim";
          ".dockerfile"; ".docker"; ".makefile"; ".mk"; ".cmake"; ".gradle"; ".groovy";
          ".clj"; ".elm"; ".ex"; ".exs"; ".erl"; ".hrl"; ".fs"; ".fsx"; ".ml"; ".mli";
          ".hs"; ".lhs"; ".dart"; ".v"; ".sv"; ".vhd"; ".vhdl"]
         (ToLower ext).

(** ** services.FileService *)

(** A call on a nil client does not return an error: it panics. *)
Inductive outcome (A : Type) : Type :=
| Returns (a : A)
| Panics.
Arguments Returns {A} a.
Arguments Panics {A}.

(** What a file operation does to the outside: the calls issued on the
    SFTP client and the operations on the ZIP writer, in order. *)
Inductive Event : Type :=
| RemoteStat (p : string)
| RemoteReadDir (p : string)
| RemoteOpen (p : string)
| RemoteRead (p : string)
| RemoteClose (p : string)
| ZipCreate (name : string) (ok : bool)
| ZipWrite (name : string) (data : list byte) (ok : bool)
| ZipClose (ok : bool).

#[global] Instance byte_eq_dec : EqDecision byte := Byte.byte_eq_dec.

#[global] Instance Event_eq_dec : EqDecision Event.
Proof. solve_decision. Defined.

(** [models.FileInfo]. *)
Record FileInfo : Type := mkFileInfo {
  fi_Name : string;
  fi_Size : Z;
  fi_Mode : Z;
  fi_ModTime : Time;
  fi_IsDir : bool;
  fi_Path : string
}.

(** [FileService.matchesFilter]. *)
Definition matchesFilter (filename filter : string) : bool :=
  let filename := ToLower filename in
  let filter := ToLower filter in
  if bool_decide (filter = "images") then IsImageFile (Ext filename)
  else if bool_decide (filter = "documents") then IsDocumentFile (Ext filename)
  else if bool_decide (filter = "archives") then IsArchiveFile (Ext filename)
  else if bool_decide (filter = "code") then IsCodeFile (Ext filename)
  else Contains filename filter.

(** [strings.ToLower(a) < strings.ToLower(b)] on byte strings. *)
Definition string_ltb (a b : string) : bool :=
  match String.compare a b with
  | Lt => true
  | _ => false
  end.

(** The [less] function handed to [sort.Slice]: directories first, then by
    lower-cased name. *)
Definition files_less (a b : FileInfo) : bool :=
  if negb (Bool.eqb (fi_IsDir a) (fi_IsDir b)) then fi_IsDir a
  else string_ltb (ToLower (fi_Name a)) (ToLower (fi_Name b)).

(** The loop of [ListFiles] that selects and converts the entries. *)
Fixpoint list_entries (showHidden : bool) (filter dirPath : string)
    (fileInfos : list Remote) : list FileInfo :=
  match fileInfos with
  | [] => []
  | info :: rest =>
      if negb showHidden && HasPrefix (Name info) "." then
        list_entries showHidden filter dirPath rest
      else if negb (bool_decide (filter = "")) && negb (matchesFilter (Name info) filter) then
        list_entries showHidden filter dirPath rest
      else
        mkFileInfo (Name info) (Size info) (st_Mode (info_of info))
                   (st_ModTime (info_of info)) (IsDir info) (Join dirPath (Name info))
        :: list_entries showHidden filter dirPath rest
  end.

(** [FileService.ListFiles].  [sortSlice] is [sort.Slice] (not a stable
    sort: nothing is assumed of it here). *)
Definition ListFiles
    (sortSlice : (FileInfo -> FileInfo -> bool) -> list FileInfo -> list FileInfo)
    (now now' : Time) (sessionID dirPath : string) (showHidden : bool)
    (filter : string) (w : World)
    : outcome (result (list FileInfo)) * World * list Event :=
  match GetSession now now' sessionID w with
  | (Err e, w') => (Returns (Err e), w', [])
  | (Ok session, w') =>
      let dirPath := if bool_decide (dirPath = "") then HomeDir session else dirPath in
      let dirPath := Clean dirPath in
      match SFTPClient session with
      | None => (Panics, w', [])
      | Some c =>
          match ReadDir (remote w' c) dirPath with
          | Err e =>
              (Returns (Err (Wrapf "failed to read directory" e)), w',
               [RemoteReadDir dirPath])
          | Ok fileInfos =>
              (Returns (Ok (sortSlice files_less
                                      (list_entries showHidden filter dirPath fileInfos))),
               w', [RemoteReadDir dirPath])
          end
      end
  end.

(** [io.ReadAll] of an opened remote file. *)
Definition ReadAll (body : list byte * option error) : result (list byte) :=
  match snd body with
  | Some e => Err e
  | None => Ok (fst body)
  end.

(** [FileService.PreviewFile]. *)
Definition PreviewFile (now now' : Time) (sessionID filePath : string)
    (maxSize : Z) (w : World)
    : outcome (result (string * string)) * World * list Event :=
  match GetSession now now' sessionID w with
  | (Err e, w') => (Returns (Err e), w', [])
  | (Ok session, w') =>
      match SFTPClient session with
      | None => (Panics, w', [])
      | Some c =>
          match remote w' c filePath with
          | Err e =>
              (Returns (Err (Wrapf "failed to stat file" e)), w', [RemoteStat filePath])
          | Ok stat =>
              if IsDir stat then
                (Returns (Err (Errorf "cannot preview directory")), w',
                 [RemoteStat filePath])
              else if (maxSize <? Size stat)%Z then
                (Returns (Err (Errorf "file too large for preview")), w',
                 [RemoteStat filePath])
              else
                match Open (remote w' c) filePath with
                | Err e =>
                    (Returns (Err (Wrapf "failed to open file" e)), w',
                     [RemoteStat filePath; RemoteOpen filePath])
                | Ok file =>
                    match ReadAll file with
                    | Err e =>
                        (Returns (Err (Wrapf "failed to read file" e)), w',
                         [RemoteStat filePath; RemoteOpen filePath;
                          RemoteRead filePath; RemoteClose filePath])
                    | Ok content =>
                        let language := GetLanguageFromExtension (Ext filePath) in
                        (Returns (Ok (string_of_list_byte content, language)), w',
                         [RemoteStat filePath; RemoteOpen filePath;
                          RemoteRead filePath; RemoteClose filePath])
                    end
                end
          end
      end
  end.

(** *** The archive builder *)

(** The [zip.Writer] over the output sink.  [sink k] tells whether the
    [k]-th operation that writes through it succeeds; [ops] counts the
    operations so far and [events] is the log of the run (remote calls are
    logged there too, in program order). *)
Record ZipWriter : Type := mkZipWriter {
  sink : nat -> bool;
  ops : nat;
  events : list Event
}.

(** [zip.NewWriter(w)]. *)
Definition NewWriter (w : nat -> bool) : ZipWriter := mkZipWriter w 0 [].

Definition emit (e : Event) (z : ZipWriter) : ZipWriter :=
  mkZipWriter (sink z) (ops z) (events z ++ [e]).

(** [zipWriter.Create(name)]. *)
Definition zip_Create (name : string) (z : ZipWriter) : bool * ZipWriter :=
  let ok := sink z (ops z) in
  (ok, mkZipWriter (sink z) (S (ops z)) (events z ++ [ZipCreate name ok])).

(** [zipWriter.Close()]. *)
Definition zip_Close (z : ZipWriter) : ZipWriter :=
  let ok := sink z (ops z) in
  mkZipWriter (sink z) (S (ops z)) (events z ++ [ZipClose ok]).

(** [io.Copy(zipFile, file)]: the bytes the file delivers are written to the
    entry [name]; nothing is written when there are none.  A failed write
    ends the copy; otherwise the read error, if any, is returned. *)
Definition io_Copy (name filePath : string) (body : list byte * option error)
    (z : ZipWriter) : option error * ZipWriter :=
  let z := emit (RemoteRead filePath) z in
  match fst body with
  | [] => (snd body, z)
  | data =>
      let ok := sink z (ops z) in
      (if ok then snd body else Some (Foreign "write failed"),
       mkZipWriter (sink z) (S (ops z)) (events z ++ [ZipWrite name data ok]))
  end.

(** [FileService.addFileToZip]; [body] is what [Open(filePath)] answers. *)
Definition addFileToZip (body : result (list byte * option error))
    (filePath zipPath : string) (z : ZipWriter) : option error * ZipWriter :=
  let z := emit (RemoteOpen filePath) z in
  match body with
  | Err e => (Some (Wrapf ("failed to open file " +:+ filePath) e), z)
  | Ok file =>
      let '(created, z) := zip_Create zipPath z in
      if negb created then
        (Some (Wrapf ("failed to create zip entry for " +:+ zipPath) (Foreign "write failed")),
         emit (RemoteClose filePath) z)
      else
        let '(err, z) := io_Copy zipPath filePath file z in
        match err with
        | Some e =>
            (Some (Wrapf ("failed to copy file " +:+ filePath +:+ " to zip") e),
             emit (RemoteClose filePath) z)
        | None => (None, emit (RemoteClose filePath) z)
        end
  end.

(** The loop [for _, file := range files] of [addDirectoryToZip]; [add] is
    what is done with one entry, whose error is dropped. *)
Definition each_file
    (add : Remote -> string -> string -> ZipWriter -> option error * ZipWriter)
    (dirPath zipPath : string) : list Remote -> ZipWriter -> ZipWriter :=
  fix each (files : list Remote) (z : ZipWriter) : ZipWriter :=
    match files with
    | [] => z
    | file :: rest =>
        let remotePath := Join dirPath (Name file) in
        let localZipPath := zipPath +:+ "/" +:+ Name file in
        each rest (snd (add file remotePath localZipPath z))
    end.

(** [FileService.addDirectoryToZip]; [dir] is the node at [dirPath], whose
    listing is what [ReadDir(dirPath)] answers. *)
Fixpoint addDirectoryToZip (dir : Remote) (dirPath zipPath : string)
    (z : ZipWriter) {struct dir} : option error * ZipWriter :=
  let z := emit (RemoteReadDir dirPath) z in
  match dir with
  | RFile _ _ =>
      (Some (Wrapf ("failed to read directory " +:+ dirPath) (Foreign "not a directory")), z)
  | RDir _ (Err e) =>
      (Some (Wrapf ("failed to read directory " +:+ dirPath) e), z)
  | RDir _ (Ok files) =>
      let '(created, z) :=
        if bool_decide (zipPath = "") then (true, z)
        else zip_Create (zipPath +:+ "/") z in
      if negb created then
        (Some (Wrapf ("failed to create zip directory entry for " +:+ zipPath)
                     (Foreign "write failed")), z)
      else
        (None,
         each_file (fun file =>
                      match file with
                      | RDir _ _ => addDirectoryToZip file
                      | RFile _ body => addFileToZip body
                      end)
                   dirPath zipPath files z)
  end.

(** One turn of the loop of [DownloadMultiple]. *)
Definition download_one (srv : Server) (filePath : string) (z : ZipWriter) : ZipWriter :=
  let cleanPath := Clean filePath in
  let z := emit (RemoteStat cleanPath) z in
  match srv cleanPath with
  | Err _ => z
  | Ok fileInfo =>
      match fileInfo with
      | RDir _ _ => snd (addDirectoryToZip fileInfo cleanPath (Base cleanPath) z)
      | RFile _ body => snd (addFileToZip body cleanPath (Base cleanPath) z)
      end
  end.

Definition download_loop (srv : Server) (filePaths : list string) (z : ZipWriter)
    : ZipWriter :=
  fold_left (fun z filePath => download_one srv filePath z) filePaths z.

(** [FileService.DownloadMultiple].  The deferred [zipWriter.Close()] runs
    when the function returns, also when a call on a nil client panics. *)
Definition DownloadMultiple (now now' : Time) (sessionID : string)
    (filePaths : list string) (w : nat -> bool) (world : World)
    : outcome (option error) * World * list Event :=
  match GetSession now now' sessionID world with
  | (Err e, world') => (Returns (Some (Wrapf "session not found" e)), world', [])
  | (Ok session, world') =>
      let zipWriter := NewWriter w in
      match SFTPClient session, filePaths with
      | None, [] => (Returns None, world', events (zip_Close zipWriter))
      | None, _ :: _ => (Panics, world', events (zip_Close zipWriter))
      | Some c, _ =>
          (Returns None, world',
           events (zip_Close (download_loop (remote world' c) filePaths zipWriter)))
      end
  end.

(** The names of the entries that were created in the archive. *)
Definition entry_names (log : list Event) : list string :=
  omap (fun e => match e with
                 | ZipCreate name true => Some name
                 | _ => None
                 end) log.

(** The paths given to [Stat], in order. *)
Definition stat_calls (log : list Event) : list string :=
  omap (fun e => match e with
                 | RemoteStat p => Some p
                 | _ => None
                 end) log.

(** The [Close] operations on the writer. *)
Definition zip_closes (log : list Event) : list bool :=
  omap (fun e => match e with
                 | ZipClose ok => Some ok
                 | _ => None
                 end) log.

(** The dispatch on [IsDir] made by [DownloadMultiple] and by the loop of
    [addDirectoryToZip]. *)
Definition add_node (n : Remote)
    : string -> string -> ZipWriter -> option error * ZipWriter :=
  match n with
  | RDir _ _ => addDirectoryToZip n
  | RFile _ body => addFileToZip body
  end.

(** The remote call that starts the processing of a node. *)
Definition first_call (n : Remote) (p : string) : Event :=
  match n with
  | RDir _ _ => RemoteReadDir p
  | RFile _ _ => RemoteOpen p
  end.

(** *** The archive the walk is meant to produce

    Stated from the design rather than from the loop: a path that cannot be
    statted, a file that cannot be opened and a directory that cannot be
    listed contribute nothing; a file that opens contributes one entry under
    its ZIP path; a directory contributes its own entry, [zipPath/], and
    then what each of its children contributes under
    [zipPath/name]. *)
Fixpoint node_entries (n : Remote) (zipPath : string) : list string :=
  match n with
  | RFile _ (Err _) => []
  | RFile _ (Ok _) => [zipPath]
  | RDir _ (Err _) => []
  | RDir _ (Ok files) =>
      (if bool_decide (zipPath = "") then [] else [zipPath +:+ "/"])
      ++ flat_map (fun file => node_entries file (zipPath +:+ "/" +:+ Name file)) files
  end.

Definition path_entries (srv : Server) (filePath : string) : list string :=
  match srv (Clean filePath) with
  | Err _ => []
  | Ok n => node_entries n (Base (Clean filePath))
  end.

(** Each entry of [node_entries] with the remote path it is made from. *)
Fixpoint node_sources (n : Remote) (remotePath zipPath : string)
    : list (string * string) :=
  match n with
  | RFile _ (Err _) => []
  | RFile _ (Ok _) => [(remotePath, zipPath)]
  | RDir _ (Err _) => []
  | RDir _ (Ok files) =>
      (if bool_decide (zipPath = "") then [] else [(remotePath, zipPath +:+ "/")])
      ++ flat_map (fun file => node_sources file (Join remotePath (Name file))
                                            (zipPath +:+ "/" +:+ Name file)) files
  end.

Fixpoint has_slash (s : string) : bool :=
  match s with
  | EmptyString => false
  | String c rest => Ascii.eqb c slash || has_slash rest
  end.

(** A name as a directory listing gives it: not empty, without a slash,
    and neither [.] nor [..]. *)
Definition plain_name (e : string) : bool :=
  negb (bool_decide (e = "")) && negb (bool_decide (e = "."))
  && negb (bool_decide (e = "..")) && negb (has_slash e).

(** All names in the listings below [n] are plain. *)
Fixpoint plain_tree (n : Remote) : bool :=
  match n with
  | RFile _ _ => true
  | RDir _ (Err _) => true
  | RDir _ (Ok files) => forallb (fun file => plain_name (Name file) && plain_tree file) files
  end.

(** [z'] continues [z]: same sink, and the log grew by [first] and then by
    events among which there is no [Stat] call and no writer [Close]; over a
    sink that never fails the entries created after [first] are [names]. *)
Definition grows (z z' : ZipWriter) (first : list Event) (names : list string) : Prop :=
  sink z' = sink z
  /\ exists d, events z' = events z ++ first ++ d
       /\ stat_calls d = []
       /\ zip_closes d = []
       /\ ((forall k, sink z k = true) -> entry_names d = names).

(** ** Sample data *)

Definition sample_config (maxSessions : Z) : SessionConfig :=
  mkSessionConfig (30 * Minute)%Z (5 * Minute)%Z maxSessions.

Definition no_server : Server := fun _ => Err (Foreign "file does not exist").

Definition empty_world (maxSessions : Z) (srv : Server) : World :=
  mkWorld ∅ (sample_config maxSessions) (fun _ => srv) (fun _ => None) [].

Definition alice : LoginRequest := mkLoginRequest "files.example.org" 22 "alice" "secret".
Definition bob : LoginRequest := mkLoginRequest "files.example.org" 22 "bob" "hunter2".

Definition env_alice : CreateEnv :=
  mkCreateEnv (Ok 1%nat) (Ok 1%nat) (Ok "/home/alice") (Ok (repeat x0a 16)) 0%Z 0%Z.
Definition env_bob : CreateEnv :=
  mkCreateEnv (Ok 2%nat) (Ok 2%nat) (Ok "/home/bob") (Ok (repeat x0b 16)) 5%Z 5%Z.

(** A server whose [Getwd] fails although the user's home exists. *)
Definition env_nowd : CreateEnv :=
  mkCreateEnv (Ok 1%nat) (Ok 1%nat) (Err (Foreign "getwd: connection lost"))
              (Ok (repeat x0a 16)) 0%Z 0%Z.
Definition stat_home_alice (p : string) : bool := bool_decide (p = "/home/alice").

Definition id_alice : string := EncodeToString (repeat x0a 16).
Definition id_bob : string := EncodeToString (repeat x0b 16).

(** The world after [alice] logged in at time 0. *)
Definition world_alice (maxSessions : Z) (srv : Server) : World :=
  snd (CreateSession alice env_alice (empty_world maxSessions srv)).

Definition session_alice : Session :=
  mkSession id_alice (Some 1%nat) (Some 1%nat) 0%Z 0%Z "/home/alice"
            "alice" "files.example.org" 22 true.

(** A server given by the nodes found at some paths. *)
Fixpoint server_of (nodes : list (string * Remote)) : Server :=
  fun p =>
    match nodes with
    | [] => Err (Foreign "file does not exist")
    | (q, n) :: rest => if bool_decide (p = q) then Ok n else server_of rest p
    end.

Definition regular (name : string) (body : result (list byte * option error)) : Remote :=
  RFile (mkFileStat name
                    (match body with
                     | Ok (data, _) => Z.of_nat (length data)
                     | Err _ => 0%Z
                     end) 420%Z 0%Z) body.

Definition directory (name : string) (listing : result (list Remote)) : Remote :=
  RDir (mkFileStat name 4096%Z 2147484141%Z 0%Z) listing.

Definition readable (data : list byte) : result (list byte * option error) :=
  Ok (data, None).
Definition unopenable : result (list byte * option error) :=
  Err (Foreign "permission denied").
(** Opens, delivers [data], and then fails to read on. *)
Definition breaks_after (data : list byte) : result (list byte * option error) :=
  Ok (data, Some (Foreign "connection lost")).

(** [dirB] holds [c.txt] and [d.txt]; [d] is what opening [d.txt] gives. *)
Definition dirB (d : result (list byte * option error)) : Remote :=
  directory "dirB" (Ok [regular "c.txt" (readable [x63; x63]); regular "d.txt" d]).

Definition fileA : Remote := regular "fileA.txt" (readable [x61; x61; x61]).
Definition script_py : Remote := regular "script.py" (readable (repeat x70 50)).
Definition big_unknown : Remote := regular "big.unknown" (readable (repeat x62 200)).

Definition home_server (d : result (list byte * option error)) : Server :=
  server_of
    [ ("/home/alice", directory "alice" (Ok [fileA; dirB d; script_py; big_unknown]));
      ("/home/alice/fileA.txt", fileA);
      ("/home/alice/dirB", dirB d);
      ("/home/alice/script.py", script_py);
      ("/home/alice/big.unknown", big_unknown) ].

(** A server seen from its root, which holds the single file [x]. *)
Definition root_server : Server :=
  server_of [ ("/", directory "/" (Ok [regular "x" (readable [x78])]));
              ("/x", regular "x" (readable [x78])) ].


Definition always_ok : nat -> bool := fun _ => true.

(** [sort.Slice] stand-in for examples: insertion sort with [less]. *)
Fixpoint insert_by {A : Type} (less : A -> A -> bool) (x : A) (l : list A) : list A :=
  match l with
  | [] => [x]
  | y :: rest => if less y x then y :: insert_by less x rest else x :: l
  end.
Definition insertion_sort {A : Type} (less : A -> A -> bool) (l : list A) : list A :=
  fold_right (insert_by less) [] l.

(** ** Further code of the session service *)

(** [for id, session := range s.sessions]: the runtime visits every key of
    the map once, in an order of its choosing; [order] is that order. *)
Definition visits (order : list string) (w : World) : Prop :=
  order ≡ₚ (map_to_list (sessions w)).*1.

(** [session.IsExpired(s.config.Session.Timeout)] for the session stored
    under [id]; [clock id] is the clock read when [id] is looked at. *)
Definition is_expired_at (clock : string -> Time) (w : World) (id : string) : bool :=
  match sessions w !! id with
  | Some session => IsExpired (clock id) session (Timeout (config w))
  | None => false
  end.

(** The body of the second loop of [CleanupExpiredSessions]: close the
    session stored under [id] and delete the key.  The ids come from the
    map itself, so the lookup finds a session. *)
Definition close_and_delete (w : World) (id : string) : World :=
  match sessions w !! id with
  | Some session =>
      let '(_, log, _) := Session_Close (closeErr w) session (closed w) in
      with_sessions (delete id (sessions w)) (with_closed log w)
  | None => w
  end.

(** [SessionService.CleanupExpiredSessions]. *)
Definition CleanupExpiredSessions (clock : string -> Time) (order : list string)
    (w : World) : Z * World :=
  let expiredSessions := List.filter (is_expired_at clock w) order in
  (Z.of_nat (length expiredSessions), fold_left close_and_delete expiredSessions w).


(** [models.SessionStats], the fields [GetStats] sets. *)
Record SessionStats : Type := mkSessionStats {
  ActiveSessions : Z;
  TotalSessions : Z
}.

(** [SessionService.GetStats]. *)
Definition GetStats (clock : string -> Time) (order : list string) (w : World)
    : SessionStats :=
  let activeSessions :=
    List.filter (fun id =>
                   match sessions w !! id with
                   | Some session =>
                       negb (IsExpired (clock id) session (Timeout (config w)))
                       && IsActive session
                   | None => false
                   end) order in
  mkSessionStats (Z.of_nat (length activeSessions)) (session_count w).

(** What a stored session looks like: it sits under its own id, is active
    and owns both clients. *)
Definition registry_ok (w : World) : Prop :=
  forall id s,
    sessions w !! id = Some s ->
    ID s = id /\ IsActive s = true
    /\ is_Some (SSHClient s) /\ is_Some (SFTPClient s).

(** The connections one [CreateSession] call obtains, in the order it
    obtains them: none when the call stops at the validation or the limit
    check, else the SSH client when the dial succeeds and then the SFTP
    client when it can be created. *)
Definition connections_made (req : LoginRequest) (env : CreateEnv) (w : World)
    : list Handle :=
  match create_check req w with
  | Some _ => []
  | None =>
      match dial env with
      | Err _ => []
      | Ok sshClient =>
          match newClient env with
          | Err _ => [SSH sshClient]
          | Ok sftpClient => [SSH sshClient; SFTP sftpClient]
          end
      end
  end.

(** Lowercase hexadecimal digits, and the value of a pair of them. *)
Definition is_hex (c : ascii) : bool :=
  existsb (Ascii.eqb c) (list_ascii_of_string hextable).

Definition unhex (c : ascii) : N :=
  let n := N_of_ascii c in
  if (97 <=? n)%N then (n - 87)%N else (n - 48)%N.

Definition byte_of_hex (hi lo : ascii) : option byte :=
  Byte.of_N (16 * unhex hi + unhex lo).

Fixpoint all_chars (p : ascii -> bool) (s : string) : bool :=
  match s with
  | EmptyString => true
  | String c rest => p c && all_chars p rest
  end.

(** ** models: request validation *)

Record FileListRequest : Type := mkFileListRequest {
  flr_Path : string;
  flr_View : string;
  flr_ShowHidden : bool;
  flr_Filter : string;
  flr_Page : Z;
  flr_Limit : Z
}.

(** [FileListRequest.Validate]: fills in the defaults in place and returns
    nil. *)
Definition FileListRequest_Validate (r : FileListRequest)
    : FileListRequest * option error :=
  let path := if bool_decide (flr_Path r = "") then "/" else flr_Path r in
  let view := if bool_decide (flr_View r = "") then "list" else flr_View r in
  let page := if (flr_Page r <? 1)%Z then 1%Z else flr_Page r in
  let limit := if (flr_Limit r <? 1)%Z then 100%Z else flr_Limit r in
  (mkFileListRequest path view (flr_ShowHidden r) (flr_Filter r) page limit, None).

(** *** More sample data *)

Definition carol : LoginRequest := mkLoginRequest "files.example.org" 22 "carol" "s3cret".
Definition env_carol : CreateEnv :=
  mkCreateEnv (Ok 3%nat) (Ok 3%nat) (Ok "/home/carol") (Ok (repeat x0c 16))
              (20 * Minute)%Z (20 * Minute)%Z.
Definition id_carol : string := EncodeToString (repeat x0c 16).
Definition session_carol : Session :=
  mkSession id_carol (Some 3%nat) (Some 3%nat) (20 * Minute)%Z (20 * Minute)%Z
            "/home/carol" "carol" "files.example.org" 22 true.

(** [alice] logged in at time 0, [carol] twenty minutes later. *)
Definition world_two : World :=
  snd (CreateSession carol env_carol (world_alice 5 no_server)).

(** A sweep forty minutes after [alice] logged in. *)
Definition clock_40 : string -> Time := fun _ => (40 * Minute)%Z.

(** ** Further code of the file service *)

(** [FileService.GetFile].  The reader handed out is the opened file. *)
Definition GetFile (now now' : Time) (sessionID filePath : string) (w : World)
    : outcome (result ((list byte * option error) * FileInfo)) * World * list Event :=
  match GetSession now now' sessionID w with
  | (Err e, w') => (Returns (Err e), w', [])
  | (Ok session, w') =>
      match SFTPClient session with
      | None => (Panics, w', [])
      | Some c =>
          match remote w' c filePath with
          | Err e =>
              (Returns (Err (Wrapf "failed to stat file" e)), w', [RemoteStat filePath])
          | Ok stat =>
              if IsDir stat then
                (Returns (Err (Errorf "path is a directory")), w', [RemoteStat filePath])
              else
                match Open (remote w' c) filePath with
                | Err e =>
                    (Returns (Err (Wrapf "failed to open file" e)), w',
                     [RemoteStat filePath; RemoteOpen filePath])
                | Ok file =>
                    (Returns (Ok (file,
                                  mkFileInfo (Name stat) (Size stat) (st_Mode (info_of stat))
                                             (st_ModTime (info_of stat)) false filePath)),
                     w', [RemoteStat filePath; RemoteOpen filePath])
                end
          end
      end
  end.

(** One turn of the loop of [GetMultipleFiles]. *)
Definition get_one (srv : Server) (filePath : string) (z : ZipWriter) : ZipWriter :=
  let z := emit (RemoteStat filePath) z in
  match srv filePath with
  | Err _ => z
  | Ok stat =>
      if IsDir stat then z
      else
        let z := emit (RemoteOpen filePath) z in
        match Open srv filePath with
        | Err _ => z
        | Ok srcFile =>
            let fileName := Base filePath in
            let '(created, z) := zip_Create fileName z in
            if negb created then emit (RemoteClose filePath) z
            else
              let '(_, z) := io_Copy fileName filePath srcFile z in
              emit (RemoteClose filePath) z
        end
  end.

(** [FileService.GetMultipleFiles].  The archive is written to a
    [bytes.Buffer], which accepts every write; the reader returned is that
    buffer, filled by the operations in the log.  The writer is closed by a
    plain call after the loop, not by a deferred one. *)
Definition GetMultipleFiles (now now' : Time) (sessionID : string)
    (filePaths : list string) (world : World)
    : outcome (option error) * World * list Event :=
  match GetSession now now' sessionID world with
  | (Err e, world') => (Returns (Some e), world', [])
  | (Ok session, world') =>
      let zipWriter := NewWriter (fun _ => true) in
      match SFTPClient session, filePaths with
      | None, [] => (Returns None, world', events (zip_Close zipWriter))
      | None, _ :: _ => (Panics, world', [])
      | Some c, _ =>
          (Returns None, world',
           events (zip_Close (fold_left (fun z filePath => get_one (remote world' c) filePath z)
                                        filePaths zipWriter)))
      end
  end.

(** The paths given to [ReadDir], in order. *)
Definition listing_calls (log : list Event) : list string :=
  omap (fun e => match e with
                 | RemoteReadDir p => Some p
                 | _ => None
                 end) log.

(** [strings.Trim(s, cutset)] for a cutset of ASCII characters: the
    leading and the trailing characters that are in the cutset are
    removed. *)
Definition in_cutset (cutset : string) (c : ascii) : bool :=
  existsb (Ascii.eqb c) (list_ascii_of_string cutset).

Fixpoint TrimLeft (cut : ascii -> bool) (s : string) : string :=
  match s with
  | EmptyString => EmptyString
  | String c rest => if cut c then TrimLeft cut rest else s
  end.

Fixpoint TrimRight (cut : ascii -> bool) (s : string) : string :=
  match s with
  | EmptyString => EmptyString
  | String c rest =>
      match TrimRight cut rest with
      | EmptyString => if cut c then EmptyString else String c EmptyString
      | kept => String c kept
      end
  end.

Definition Trim (s cutset : string) : string :=
  TrimRight (in_cutset cutset) (TrimLeft (in_cutset cutset) s).

(** [models.Breadcrumb]. *)
Record Breadcrumb : Type := mkBreadcrumb {
  bc_Name : string;
  bc_Path : string
}.

(** The loop of [GetBreadcrumbs] over the parts of the path. *)
Fixpoint breadcrumb_parts (parts : list string) (currentFullPath : string)
    : list Breadcrumb :=
  match parts with
  | [] => []
  | part :: rest =>
      if bool_decide (part = "") then breadcrumb_parts rest currentFullPath
      else
        let currentFullPath := Join currentFullPath part in
        mkBreadcrumb part ("/" +:+ currentFullPath)
        :: breadcrumb_parts rest currentFullPath
  end.

(** [FileService.GetBreadcrumbs]. *)
Definition GetBreadcrumbs (currentPath : string) : list Breadcrumb :=
  if bool_decide (currentPath = "") || bool_decide (currentPath = "/") then
    [mkBreadcrumb "Home" "/"]
  else
    mkBreadcrumb "Home" "/"
    :: breadcrumb_parts (split_slash (Trim currentPath "/")) "".



(** ** File operations that change the remote side

    For the calls that change files the server is a state machine: [R] is
    its state, and every call on the SFTP client [c] gives an answer and a
    next state.  Nothing is assumed of the answers. *)
Record RemoteOps (R : Type) : Type := mkRemoteOps {
  rs_Stat : nat -> string -> R -> result Remote * R;
  rs_Remove : nat -> string -> R -> option error * R;
  rs_RemoveDirectory : nat -> string -> R -> option error * R;
  rs_Mkdir : nat -> string -> R -> option error * R;
  rs_Create : nat -> string -> R -> option error * R;
  rs_Write : nat -> string -> list byte -> R -> option error * R;
  rs_Close : nat -> string -> R -> option error * R
}.
Arguments rs_Stat {R} _ _ _ _.
Arguments rs_Remove {R} _ _ _ _.
Arguments rs_RemoveDirectory {R} _ _ _ _.
Arguments rs_Mkdir {R} _ _ _ _.
Arguments rs_Create {R} _ _ _ _.
Arguments rs_Write {R} _ _ _ _ _.
Arguments rs_Close {R} _ _ _ _.

(** The calls issued on the SFTP client, in order. *)
Inductive Call : Type :=
| CallStat (p : string)
| CallRemove (p : string)
| CallRemoveDirectory (p : string)
| CallMkdir (p : string)
| CallCreate (p : string)
| CallWrite (p : string) (data : list byte)
| CallClose (p : string).

#[global] Instance Call_eq_dec : EqDecision Call.
Proof. solve_decision. Defined.

(** [FileService.DeleteFile]. *)
Definition DeleteFile {R : Type} (ops : RemoteOps R) (now now' : Time)
    (sessionID filePath : string) (w : World) (r : R)
    : outcome (option error) * World * R * list Call :=
  match GetSession now now' sessionID w with
  | (Err e, w') => (Returns (Some e), w', r, [])
  | (Ok session, w') =>
      match SFTPClient session with
      | None => (Panics, w', r, [])
      | Some c =>
          match rs_Stat ops c filePath r with
          | (Err e, r1) =>
              (Returns (Some (Wrapf "failed to stat file" e)), w', r1, [CallStat filePath])
          | (Ok stat, r1) =>
              if IsDir stat then
                let '(err, r2) := rs_RemoveDirectory ops c filePath r1 in
                (Returns err, w', r2, [CallStat filePath; CallRemoveDirectory filePath])
              else
                let '(err, r2) := rs_Remove ops c filePath r1 in
                (Returns err, w', r2, [CallStat filePath; CallRemove filePath])
          end
      end
  end.

(** The loop of [DeleteMultipleFiles]; [clock i] holds the two clock
    readings of the [i]-th [DeleteFile] call. *)
Fixpoint delete_loop {R : Type} (ops : RemoteOps R) (clock : nat -> Time * Time)
    (i : nat) (sessionID : string) (filePaths deleted failed : list string)
    (w : World) (r : R) (log : list Call)
    : outcome (list string * list string) * World * R * list Call :=
  match filePaths with
  | [] => (Returns (deleted, failed), w, r, log)
  | filePath :: rest =>
      match DeleteFile ops (fst (clock i)) (snd (clock i)) sessionID filePath w r with
      | (Panics, w', r', calls) => (Panics, w', r', log ++ calls)
      | (Returns (Some _), w', r', calls) =>
          delete_loop ops clock (S i) sessionID rest deleted (failed ++ [filePath])
                      w' r' (log ++ calls)
      | (Returns None, w', r', calls) =>
          delete_loop ops clock (S i) sessionID rest (deleted ++ [filePath]) failed
                      w' r' (log ++ calls)
      end
  end.

(** [FileService.DeleteMultipleFiles]. *)
Definition DeleteMultipleFiles {R : Type} (ops : RemoteOps R) (clock : nat -> Time * Time)
    (sessionID : string) (filePaths : list string) (w : World) (r : R)
    : outcome (list string * list string) * World * R * list Call :=
  delete_loop ops clock 0 sessionID filePaths [] [] w r [].

(** [io.Copy(dstFile, src)] of an upload: the bytes [src] delivers are
    written to the remote file; nothing is written when there are none.  A
    failed write ends the copy; otherwise the read error, if any, is
    returned. *)
Definition upload_Copy {R : Type} (ops : RemoteOps R) (c : nat) (destPath : string)
    (src : list byte * option error) (r : R) : option error * R * list Call :=
  match fst src with
  | [] => (snd src, r, [])
  | data =>
      match rs_Write ops c destPath data r with
      | (Some e, r') => (Some e, r', [CallWrite destPath data])
      | (None, r') => (snd src, r', [CallWrite destPath data])
      end
  end.

(** [FileService.UploadFile].  The deferred [dstFile.Close()] runs once the
    file has been created; its error is dropped. *)
Definition UploadFile {R : Type} (ops : RemoteOps R) (now now' : Time)
    (sessionID destPath : string) (src : list byte * option error) (overwrite : bool)
    (w : World) (r : R)
    : outcome (option error) * World * R * list Call :=
  match GetSession now now' sessionID w with
  | (Err e, w') => (Returns (Some e), w', r, [])
  | (Ok session, w') =>
      match SFTPClient session with
      | None => (Panics, w', r, [])
      | Some c =>
          let '(found, r1, log1) :=
            if overwrite then (false, r, [])
            else match rs_Stat ops c destPath r with
                 | (Ok _, r1) => (true, r1, [CallStat destPath])
                 | (Err _, r1) => (false, r1, [CallStat destPath])
                 end in
          if found then (Returns (Some (Errorf "file already exists")), w', r1, log1)
          else
            match rs_Create ops c destPath r1 with
            | (Some e, r2) =>
                (Returns (Some (Wrapf "failed to create file" e)), w', r2,
                 log1 ++ [CallCreate destPath])
            | (None, r2) =>
                let '(err, r3, writes) := upload_Copy ops c destPath src r2 in
                let '(_, r4) := rs_Close ops c destPath r3 in
                (Returns match err with
                         | Some e => Some (Wrapf "failed to upload file" e)
                         | None => None
                         end,
                 w', r4, log1 ++ [CallCreate destPath] ++ writes ++ [CallClose destPath])
            end
      end
  end.

(** [FileService.CreateDirectory]. *)
Definition CreateDirectory {R : Type} (ops : RemoteOps R) (now now' : Time)
    (sessionID dirPath : string) (w : World) (r : R)
    : outcome (option error) * World * R * list Call :=
  match GetSession now now' sessionID w with
  | (Err e, w') => (Returns (Some e), w', r, [])
  | (Ok session, w') =>
      match SFTPClient session with
      | None => (Panics, w', r, [])
      | Some c =>
          let '(err, r1) := rs_Mkdir ops c dirPath r in
          (Returns err, w', r1, [CallMkdir dirPath])
      end
  end.

(** The paths given to [Remove] and [RemoveDirectory], in order. *)
Definition removal_calls (log : list Call) : list string :=
  omap (fun call => match call with
                    | CallRemove p => Some p
                    | CallRemoveDirectory p => Some p
                    | _ => None
                    end) log.

(** *** A server for examples: the files it holds, by path *)
Definition memory_server : RemoteOps (gmap string Remote) :=
  mkRemoteOps (gmap string Remote)
    (fun _ p r => (match r !! p with
                   | Some n => Ok n
                   | None => Err (Foreign "file does not exist")
                   end, r))
    (fun _ p r => match r !! p with
                  | Some (RFile _ _) => (None, delete p r)
                  | Some (RDir _ _) => (Some (Foreign "is a directory"), r)
                  | None => (Some (Foreign "file does not exist"), r)
                  end)
    (fun _ p r => match r !! p with
                  | Some (RDir _ (Ok [])) => (None, delete p r)
                  | Some (RDir _ _) => (Some (Foreign "directory not empty"), r)
                  | Some (RFile _ _) => (Some (Foreign "not a directory"), r)
                  | None => (Some (Foreign "file does not exist"), r)
                  end)
    (fun _ p r => match r !! p with
                  | Some _ => (Some (Foreign "file exists"), r)
                  | None => (None, <[p := directory (Base p) (Ok [])]> r)
                  end)
    (fun _ p r => match r !! p with
                  | Some (RDir _ _) => (Some (Foreign "is a directory"), r)
                  | _ => (None, <[p := regular (Base p) (readable [])]> r)
                  end)
    (fun _ p data r => (None, <[p := regular (Base p) (readable data)]> r))
    (fun _ p r => (None, r)).

Definition memory_files : gmap string Remote :=
  list_to_map [ ("/home/alice/fileA.txt", fileA);
                ("/home/alice/empty", directory "empty" (Ok []));
                ("/home/alice/dirB", dirB unopenable) ].

(** ** Further code of pkg/utils *)

(** [strings.ReplaceAll(s, old, new)] for [old] and [new] of one byte. *)
Fixpoint replace_char (old new : ascii) (s : string) : string :=
  match s with
  | EmptyString => EmptyString
  | String ch rest =>
      String (if Ascii.eqb ch old then new else ch) (replace_char old new rest)
  end.

(** The characters [SanitizeFilename] replaces: [<], [>], [:], the double
    quote, [|], [?], [*], [/] and the backslash. *)
Definition invalid_chars : list ascii :=
  ["<"; ">"; ":"; "034"; "|"; "?"; "*"; "/"; "\"]%char.

(** [utils.SanitizeFilename]. *)
Definition SanitizeFilename (filename : string) : string :=
  let filename :=
    fold_left (fun name char => replace_char char "_" name) invalid_chars filename in
  let filename := Trim filename " ." in
  if bool_decide (filename = "") then "unnamed_file" else filename.

(** [utils.CleanPath]. *)
Definition CleanPath (basePath relativePath : string) : string :=
  if bool_decide (relativePath = "") then basePath
  else
    let cleaned := Join basePath relativePath in
    let cleaned := Clean cleaned in
    if negb (HasPrefix cleaned (Clean basePath)) then basePath else cleaned.

(** A character [SanitizeFilename] leaves as it is. *)
Definition valid_char (ch : ascii) : bool :=
  negb (existsb (Ascii.eqb ch) invalid_chars).

Fixpoint last_char (s : string) : option ascii :=
  match s with
  | EmptyString => None
  | String ch EmptyString => Some ch
  | String _ rest => last_char rest
  end.

Definition first_char (s : string) : option ascii :=
  match s with
  | EmptyString => None
  | String ch _ => Some ch
  end.

(** ** The legacy handlers' file filter and login history *)



(** [s] neither begins nor ends with a character of [cutset]. *)
Definition trimmed (cutset s : string) : bool :=
  match first_char s with
  | Some ch => negb (in_cutset cutset ch)
  | None => true
  end
  && match last_char s with
     | Some ch => negb (in_cutset cutset ch)
     | None => true
     end.

(** ** Login history *)

(** [models.LoginHistory]. *)
Record LoginHistory : Type := mkLoginHistory {
  lh_Host : string;
  lh_Port : Z;
  lh_Username : string;
  lh_LastUsed : Time;
  lh_Success : bool
}.

(** [config.SessionConfig], the fields the history service reads. *)
Record HistoryConfig : Type := mkHistoryConfig {
  SaveHistory : bool;
  HistoryFile : string;
  MaxHistory : Z
}.

(** [services.LoginHistoryService] with the history file: [written] holds
    the contents handed to [os.WriteFile], oldest first. *)
Record LoginHistoryService : Type := mkLoginHistoryService {
  history : list LoginHistory;
  history_config : HistoryConfig;
  written : list (list LoginHistory)
}.

Definition with_history (h : list LoginHistory) (l : LoginHistoryService)
    : LoginHistoryService :=
  mkLoginHistoryService h (history_config l) (written l).

(** [saveHistory]; [writeErr] is what [os.WriteFile] answers. *)
Definition saveHistory (writeErr : option error) (l : LoginHistoryService)
    : option error * LoginHistoryService :=
  if bool_decide (HistoryFile (history_config l) = "") then (None, l)
  else
    (match writeErr with
     | Some e => Some (Wrapf "failed to write history file" e)
     | None => None
     end,
     mkLoginHistoryService (history l) (history_config l) (written l ++ [history l])).

(** The loop [for i, entry := range entries] that stops at the first entry
    for which [p] holds: the entries before it, the entry, and the entries
    after it. *)
Fixpoint find_first {A : Type} (p : A -> bool) (entries : list A)
    : option (list A * A * list A) :=
  match entries with
  | [] => None
  | entry :: rest =>
      if p entry then Some ([], entry, rest)
      else match find_first p rest with
           | Some (before, found, after) => Some (entry :: before, found, after)
           | None => None
           end
  end.

(** [entry.Host == host && entry.Port == port && entry.Username == username]. *)
Definition same_login (host : string) (port : Z) (username : string)
    (entry : LoginHistory) : bool :=
  bool_decide (lh_Host entry = host) && (lh_Port entry =? port)%Z
  && bool_decide (lh_Username entry = username).

(** [LoginHistoryService.AddLogin].  The slice expression
    [l.history[:MaxHistory]] panics for a negative [MaxHistory]. *)
Definition AddLogin (now : Time) (writeErr : option error) (host : string) (port : Z)
    (username : string) (success : bool) (l : LoginHistoryService)
    : outcome LoginHistoryService :=
  if negb (SaveHistory (history_config l)) then Returns l
  else
    match find_first (same_login host port username) (history l) with
    | Some (before, entry, after) =>
        let entry := mkLoginHistory (lh_Host entry) (lh_Port entry) (lh_Username entry)
                                    now success in
        Returns (snd (saveHistory writeErr (with_history (entry :: before ++ after) l)))
    | None =>
        let newEntry := mkLoginHistory host port username now success in
        let h := newEntry :: history l in
        let maxHistory := MaxHistory (history_config l) in
        if (maxHistory <? Z.of_nat (length h))%Z then
          if (maxHistory <? 0)%Z then Panics
          else Returns (snd (saveHistory writeErr
                               (with_history (take (Z.to_nat maxHistory) h) l)))
        else Returns (snd (saveHistory writeErr (with_history h l)))
    end.

(** [LoginHistoryService.RemoveEntry]. *)
Definition RemoveEntry (writeErr : option error) (host : string) (port : Z)
    (username : string) (l : LoginHistoryService) : LoginHistoryService :=
  match find_first (same_login host port username) (history l) with
  | Some (before, _, after) => snd (saveHistory writeErr (with_history (before ++ after) l))
  | None => l
  end.

(** What identifies an entry of the history. *)
Definition login_key (entry : LoginHistory) : string * Z * string :=
  (lh_Host entry, lh_Port entry, lh_Username entry).

(** The legacy handlers' [LoginHistory] and [addLoginHistory]; the file is
    saved by a goroutine of its own. *)
Record LegacyLogin : Type := mkLegacyLogin {
  ll_Host : string;
  ll_Port : Z;
  ll_Username : string;
  ll_LastUsed : Time
}.

Definition same_legacy_login (host : string) (port : Z) (username : string)
    (login : LegacyLogin) : bool :=
  bool_decide (ll_Host login = host) && (ll_Port login =? port)%Z
  && bool_decide (ll_Username login = username).

Definition addLoginHistory (now : Time) (host : string) (port : Z) (username : string)
    (lastLogins : list LegacyLogin) : list LegacyLogin :=
  let lastLogins :=
    match find_first (same_legacy_login host port username) lastLogins with
    | Some (before, _, after) => before ++ after
    | None => lastLogins
    end in
  let lastLogins := mkLegacyLogin host port username now :: lastLogins in
  if (5 <? length lastLogins)%nat then take 5 lastLogins else lastLogins.

Definition legacy_key (login : LegacyLogin) : string * Z * string :=
  (ll_Host login, ll_Port login, ll_Username login).

(** *** Sample history *)
Definition history_config_3 : HistoryConfig := mkHistoryConfig true "login_history.json" 3.
Definition sample_history : LoginHistoryService :=
  mkLoginHistoryService
    [ mkLoginHistory "files.example.org" 22 "alice" 10%Z true;
      mkLoginHistory "files.example.org" 22 "bob" 5%Z false;
      mkLoginHistory "backup.example.org" 2222 "alice" 1%Z true ]
    history_config_3 [].

(** ** A session over several calls *)

(** Successive [GetSession] calls for one id; each pair holds the two clock
    readings of one call. *)
Fixpoint GetSession_each (calls : list (Time * Time)) (sessionID : string) (w : World)
    : list (result Session) * World :=
  match calls with
  | [] => ([], w)
  | (now, now') :: rest =>
      let '(r, w1) := GetSession now now' sessionID w in
      let '(rs, w2) := GetSession_each rest sessionID w1 in
      (r :: rs, w2)
  end.

(** Every call comes at most [timeout] after the access before it; [last]
    is the time of that access. *)
Fixpoint within_timeout (timeout : Duration) (last : Time) (calls : list (Time * Time))
    : Prop :=
  match calls with
  | [] => True
  | (now, now') :: rest => (now - last <= timeout)%Z /\ within_timeout timeout now' rest
  end.

(** ** middleware.RateLimit *)

Definition windowSize : Duration := Minute.

(** [now.Sub(reqTime) < windowSize]. *)
Definition in_window (now reqTime : Time) : bool := (Sub now reqTime <? windowSize)%Z.






(* ===================================================================== *)
(** * Part II: theorems                                                   *)
(* ===================================================================== *)

(** ** Session registry *)

Lemma world_alice_lookup maxSessions srv :
  (1 <= maxSessions)%Z ->
  sessions (world_alice maxSessions srv) !! id_alice = Some session_alice.
Proof.
  intros Hmax. unfold world_alice, CreateSession, create_check, session_count.
  cbn [empty_world sessions config sample_config MaxSessions].
  rewrite map_size_empty.
  replace (LoginRequest_Validate alice) with (@None error) by reflexivity.
  destruct (Z.leb_spec maxSessions (Z.of_nat 0)); [lia|].
  cbn. apply lookup_insert_eq.
Qed.

Lemma Session_Close_log ce s log :
  snd (fst (Session_Close ce s log)) =
  log ++ match SFTPClient s with Some c => [SFTP c] | None => [] end
      ++ match SSHClient s with Some c => [SSH c] | None => [] end.
Proof.
  unfold Session_Close.
  destruct (SFTPClient s), (SSHClient s); cbn; rewrite <- ?app_assoc, ?app_nil_r; reflexivity.
Qed.

Lemma GetSession_remote now now' sessionID w r w' :
  GetSession now now' sessionID w = (r, w') -> remote w' = remote w.
Proof.
  unfold GetSession. destruct (sessions w !! sessionID) as [s|].
  - destruct (IsExpired now s (Timeout (config w))); intros [= _ <-]; reflexivity.
  - intros [= _ <-]. reflexivity.
Qed.

(** C2, as the code has it: for a stored session, [GetSession] returns the
    session with [LastAccess] refreshed to the current time (and stores the
    refreshed record) whenever the idle time is less than or equal to the
    timeout, and returns the expired error, leaving the registry untouched,
    exactly when the idle time is strictly greater than the timeout. *)
Theorem GetSession_expiry (now now' : Time) (sessionID : string) (w : World) (s : Session) :
  sessions w !! sessionID = Some s ->
  ((Since now (LastAccess s) <= Timeout (config w))%Z ->
     GetSession now now' sessionID w =
       (Ok (UpdateAccess now' s),
        with_sessions (<[sessionID := UpdateAccess now' s]> (sessions w)) w)
     /\ LastAccess (UpdateAccess now' s) = now')
  /\ ((Timeout (config w) < Since now (LastAccess s))%Z ->
     GetSession now now' sessionID w = (Err ErrSessionExpired, w)).
Proof.
  intros Hs. unfold GetSession, IsExpired. rewrite Hs.
  destruct (Z.ltb_spec (Timeout (config w)) (Since now (LastAccess s))) as [Hlt|Hge].
  - split; [lia | reflexivity].
  - split; [intros _; split; reflexivity | lia].
Qed.

Lemma GetSession_expiry_witness :
  ((Since (10 * Minute)%Z (LastAccess session_alice) <= Timeout (config (world_alice 5 no_server)))%Z ->
     GetSession (10 * Minute)%Z (10 * Minute + 1)%Z id_alice (world_alice 5 no_server) =
       (Ok (UpdateAccess (10 * Minute + 1)%Z session_alice),
        with_sessions (<[id_alice := UpdateAccess (10 * Minute + 1)%Z session_alice]>
                         (sessions (world_alice 5 no_server)))
                      (world_alice 5 no_server))
     /\ LastAccess (UpdateAccess (10 * Minute + 1)%Z session_alice) = (10 * Minute + 1)%Z)
  /\ ((Timeout (config (world_alice 5 no_server)) < Since (10 * Minute)%Z (LastAccess session_alice))%Z ->
     GetSession (10 * Minute)%Z (10 * Minute + 1)%Z id_alice (world_alice 5 no_server) =
       (Err ErrSessionExpired, world_alice 5 no_server)).
Proof.
  apply (GetSession_expiry (10 * Minute)%Z (10 * Minute + 1)%Z id_alice
           (world_alice 5 no_server) session_alice).
  vm_compute. reflexivity.
Defined.

(** C2, the claim at the boundary: a session idle for exactly the timeout
    (thirty minutes) is not reported expired; it is returned and
    refreshed. *)
Lemma GetSession_idle_equal_timeout :
  sessions (world_alice 5 no_server) !! id_alice = Some session_alice
  /\ (Since (30 * Minute)%Z (LastAccess session_alice)
      >= Timeout (config (world_alice 5 no_server)))%Z
  /\ fst (GetSession (30 * Minute)%Z (30 * Minute)%Z id_alice (world_alice 5 no_server))
     = Ok (UpdateAccess (30 * Minute)%Z session_alice)
  /\ fst (GetSession (30 * Minute)%Z (30 * Minute)%Z id_alice (world_alice 5 no_server))
     <> Err ErrSessionExpired.
Proof.
  assert (Hs := world_alice_lookup 5 no_server ltac:(lia)).
  split; [exact Hs|].
  split; [vm_compute; discriminate|].
  unfold GetSession. rewrite Hs.
  replace (IsExpired (30 * Minute)%Z session_alice (Timeout (config (world_alice 5 no_server))))
    with false by reflexivity.
  split; [reflexivity | discriminate].
Qed.

(** C3: [DeleteSession] on a stored id returns no error, issues exactly one
    [Close] on each connection handle of the session, and removes the
    record; a second call on the same id returns the not-found error and
    changes nothing: no handle is closed again. *)
Theorem DeleteSession_idempotent (sessionID : string) (w : World) (s : Session) :
  sessions w !! sessionID = Some s ->
  let w1 := snd (DeleteSession sessionID w) in
  fst (DeleteSession sessionID w) = None
  /\ closed w1 = closed w ++ session_handles s
  /\ sessions w1 = delete sessionID (sessions w)
  /\ sessions w1 !! sessionID = None
  /\ DeleteSession sessionID w1 = (Some ErrSessionNotFound, w1).
Proof.
  intros Hs. unfold DeleteSession at 1 2. rewrite Hs.
  pose proof (Session_Close_log (closeErr w) s (closed w)) as Hlog.
  destruct (Session_Close (closeErr w) s (closed w)) as [[s' log] err].
  cbn in Hlog. subst log. cbn.
  assert (Hnone : delete sessionID (sessions w) !! sessionID = None)
    by apply lookup_delete_eq.
  split; [reflexivity|]. split; [reflexivity|]. split; [reflexivity|].
  split; [exact Hnone|].
  unfold DeleteSession. cbn [with_sessions sessions]. rewrite Hnone. reflexivity.
Qed.

Lemma DeleteSession_idempotent_witness :
  let w := world_alice 5 no_server in
  let w1 := snd (DeleteSession id_alice w) in
  fst (DeleteSession id_alice w) = None
  /\ closed w1 = closed w ++ session_handles session_alice
  /\ sessions w1 = delete id_alice (sessions w)
  /\ sessions w1 !! id_alice = None
  /\ DeleteSession id_alice w1 = (Some ErrSessionNotFound, w1).
Proof.
  apply (DeleteSession_idempotent id_alice (world_alice 5 no_server) session_alice).
  vm_compute. reflexivity.
Defined.

(** A full registry rejects a valid request and stores nothing. *)
Lemma CreateSession_at_capacity (req : LoginRequest) (env : CreateEnv) (w : World) :
  LoginRequest_Validate req = None ->
  (MaxSessions (config w) <= session_count w)%Z ->
  CreateSession req env w = (Err (Errorf "maximum number of sessions reached"), w).
Proof.
  intros Hv Hfull. unfold CreateSession, create_check. rewrite Hv.
  destruct (Z.leb_spec (MaxSessions (config w)) (session_count w)); [reflexivity | lia].
Qed.

Lemma create_store_count (req : LoginRequest) (env : CreateEnv) (w : World) :
  (session_count (snd (create_store req env w)) <= session_count w + 1)%Z.
Proof.
  unfold create_store, session_count.
  destruct (dial env); cbn [snd]; [|lia].
  destruct (newClient env); cbn [snd with_closed sessions]; [|lia].
  destruct (generateSessionID (random env)) as [sid|];
    cbn [snd with_closed with_sessions sessions]; [|lia].
  rewrite map_size_insert. destruct (sessions w !! sid); unfold id; lia.
Qed.

(** Calls that do not overlap keep the registry within the limit. *)
Lemma CreateSession_sequential_bound (req : LoginRequest) (env : CreateEnv) (w : World) :
  (session_count w <= MaxSessions (config w))%Z ->
  (session_count (snd (CreateSession req env w))
   <= MaxSessions (config (snd (CreateSession req env w))))%Z.
Proof.
  intros Hle. unfold CreateSession, create_check.
  destruct (LoginRequest_Validate req); [exact Hle|].
  destruct (Z.leb_spec (MaxSessions (config w)) (session_count w)); [exact Hle|].
  pose proof (create_store_count req env w) as Hc.
  assert (Hcfg : config (snd (create_store req env w)) = config w).
  { unfold create_store. destruct (dial env); [|reflexivity].
    destruct (newClient env); [|reflexivity].
    destruct (generateSessionID (random env)); reflexivity. }
  rewrite Hcfg. lia.
Qed.

Lemma pool_step_runs (i : nat) (w w' : World) (ts : list CreateThread)
    (t t' : CreateThread) :
  ts !! i = Some t ->
  thread_step t w = Some (t', w') ->
  pool_step i (w, ts) = (w', <[i := t']> ts).
Proof.
  intros Hi Hstep. unfold pool_step. cbn [fst snd]. rewrite Hi, Hstep. reflexivity.
Qed.

Lemma create_check_room (req : LoginRequest) (w : World) :
  LoginRequest_Validate req = None ->
  (session_count w < MaxSessions (config w))%Z ->
  create_check req w = None.
Proof.
  intros Hv Hroom. unfold create_check. rewrite Hv.
  destruct (Z.leb_spec (MaxSessions (config w)) (session_count w)); [lia | reflexivity].
Qed.

Lemma create_store_connected (req : LoginRequest) (env : CreateEnv) (w : World)
    (ssh sftp : nat) (bytes : list byte) :
  dial env = Ok ssh -> newClient env = Ok sftp -> random env = Ok bytes ->
  exists session,
    ID session = EncodeToString bytes
    /\ create_store req env w
       = (Ok session, with_sessions (<[EncodeToString bytes := session]> (sessions w)) w).
Proof.
  intros Hd Hn Hr. unfold create_store. rewrite Hd, Hn, Hr. cbn [generateSessionID].
  eexists. split; [|reflexivity]. reflexivity.
Qed.

(** Two overlapping calls that both pass the check both store: whenever a
    slot is left, the registry grows by two, and so past the limit when it
    was the last slot. *)
Lemma CreateSession_overlap_stores_both (w : World) (reqA reqB : LoginRequest)
    (envA envB : CreateEnv) (sshA sftpA sshB sftpB : nat) (bytesA bytesB : list byte) :
  LoginRequest_Validate reqA = None ->
  LoginRequest_Validate reqB = None ->
  (session_count w < MaxSessions (config w))%Z ->
  dial envA = Ok sshA -> newClient envA = Ok sftpA -> random envA = Ok bytesA ->
  dial envB = Ok sshB -> newClient envB = Ok sftpB -> random envB = Ok bytesB ->
  sessions w !! EncodeToString bytesA = None ->
  sessions w !! EncodeToString bytesB = None ->
  EncodeToString bytesA <> EncodeToString bytesB ->
  session_count (fst (run_schedule [0; 1; 0; 1]%nat
                        (w, [Entered reqA envA; Entered reqB envB])))
  = (session_count w + 2)%Z.
Proof.
  intros HvA HvB Hroom HdA HnA HrA HdB HnB HrB HfreshA HfreshB Hdiff.
  destruct (create_store_connected reqA envA w sshA sftpA bytesA HdA HnA HrA)
    as (sa & _ & HstoreA).
  set (wA := with_sessions (<[EncodeToString bytesA := sa]> (sessions w)) w) in *.
  destruct (create_store_connected reqB envB wA sshB sftpB bytesB HdB HnB HrB)
    as (sb & _ & HstoreB).
  unfold run_schedule. cbn [fold_left].
  rewrite (pool_step_runs 0 w w [Entered reqA envA; Entered reqB envB]
             (Entered reqA envA) (Checked reqA envA) eq_refl)
    by (cbn [thread_step]; rewrite (create_check_room reqA w HvA Hroom); reflexivity).
  cbn [list_insert insert].
  rewrite (pool_step_runs 1 w w [Checked reqA envA; Entered reqB envB]
             (Entered reqB envB) (Checked reqB envB) eq_refl)
    by (cbn [thread_step]; rewrite (create_check_room reqB w HvB Hroom); reflexivity).
  cbn [list_insert insert].
  rewrite (pool_step_runs 0 w wA [Checked reqA envA; Checked reqB envB]
             (Checked reqA envA) (Returned (Ok sa)) eq_refl)
    by (cbn [thread_step]; rewrite HstoreA; reflexivity).
  cbn [list_insert insert].
  rewrite (pool_step_runs 1 wA _ [Returned (Ok sa); Checked reqB envB]
             (Checked reqB envB) (Returned (Ok sb)) eq_refl)
    by (cbn [thread_step]; rewrite HstoreB; reflexivity).
  unfold session_count, wA. cbn [fst with_sessions sessions].
  rewrite !map_size_insert_None; [lia | exact HfreshA |].
  rewrite lookup_insert_ne by exact Hdiff. exact HfreshB.
Qed.

(** C1, the code at two overlapping calls with [MaxSessions = 1]: both
    calls pass the limit check under the read lock before either stores, the
    store under the write lock does not look at the count again, and the
    registry ends up holding two sessions. *)
Theorem CreateSession_race_exceeds_limit :
  let start := (empty_world 1 no_server, [Entered alice env_alice; Entered bob env_bob]) in
  let final := run_schedule [0; 1; 0; 1]%nat start in
  MaxSessions (config (fst final)) = 1%Z
  /\ session_count (fst final) = 2%Z
  /\ is_Some (sessions (fst final) !! id_alice)
  /\ is_Some (sessions (fst final) !! id_bob)
  /\ (exists sa sb, snd final = [Returned (Ok sa); Returned (Ok sb)]).
Proof.
  cbv zeta. split; [reflexivity|]. split; [vm_compute; reflexivity|].
  split; [vm_compute; eauto|]. split; [vm_compute; eauto|].
  vm_compute. eauto.
Qed.

(** The same two calls one after the other: the second is rejected. *)
Lemma CreateSession_in_turn_respects_limit :
  let start := (empty_world 1 no_server, [Entered alice env_alice; Entered bob env_bob]) in
  let final := run_schedule [0; 0; 1; 1]%nat start in
  session_count (fst final) = 1%Z
  /\ snd final !! 1%nat = Some (Returned (Err (Errorf "maximum number of sessions reached"))).
Proof.
  cbv zeta. split; vm_compute; reflexivity.
Qed.

(** C7, the code when [Getwd] fails although [/home/alice] exists:
    [CreateSession] falls back to the root at once and issues no probe,
    whereas the legacy [connectHandler] finds the conventional home. *)
Theorem CreateSession_home_skips_probe :
  (exists s w', CreateSession alice env_nowd (empty_world 5 no_server) = (Ok s, w')
                /\ HomeDir s = "/")
  /\ connectHandler_homeDir (getwd env_nowd) stat_home_alice (req_Username alice)
     = "/home/alice".
Proof.
  split; [|reflexivity].
  eexists _, _. split; [reflexivity|reflexivity].
Qed.

(** Whatever else the server would answer, a failing [Getwd] makes the home
    directory of the created session the root. *)
Lemma CreateSession_home_fallback (req : LoginRequest) (env : CreateEnv) (w w' : World)
    (s : Session) (e : error) :
  getwd env = Err e ->
  CreateSession req env w = (Ok s, w') ->
  HomeDir s = "/".
Proof.
  intros Hwd. unfold CreateSession, create_store. rewrite Hwd.
  destruct (create_check req w); [discriminate|].
  destruct (dial env); [|discriminate].
  destruct (newClient env); [|discriminate].
  destruct (generateSessionID (random env)); [|discriminate].
  intros [= <- _]. reflexivity.
Qed.

Lemma CreateSession_home_reported (req : LoginRequest) (env : CreateEnv) (w w' : World)
    (s : Session) (wd : string) :
  getwd env = Ok wd ->
  CreateSession req env w = (Ok s, w') ->
  HomeDir s = wd.
Proof.
  intros Hwd. unfold CreateSession, create_store. rewrite Hwd.
  destruct (create_check req w); [discriminate|].
  destruct (dial env); [|discriminate].
  destruct (newClient env); [|discriminate].
  destruct (generateSessionID (random env)); [|discriminate].
  intros [= <- _]. reflexivity.
Qed.

(** ** Strings and slash-separated paths *)

Lemma append_assoc (a b c : string) : (a +:+ b) +:+ c = a +:+ (b +:+ c).
Proof.
  induction a as [|x a IH]; [reflexivity|].
  change (String x ((a +:+ b) +:+ c) = String x (a +:+ (b +:+ c))).
  rewrite IH. reflexivity.
Qed.

Lemma length_append (a b : string) :
  String.length (a +:+ b) = (String.length a + String.length b)%nat.
Proof. induction a as [|c a IH]; simpl; [reflexivity | rewrite IH; reflexivity]. Qed.

Lemma append_nonempty (a b : string) : a <> "" -> a +:+ b <> "".
Proof. destruct a; [contradiction | discriminate]. Qed.

Lemma prefix_empty (s : string) : String.prefix "" s = true.
Proof. destruct s; reflexivity. Qed.

Lemma prefix_refl (a : string) : String.prefix a a = true.
Proof.
  induction a as [|ch a IH]; simpl; [reflexivity|].
  destruct (ascii_dec ch ch) as [_|Hne]; [exact IH | contradiction].
Qed.

(** Every entry the walk of a node creates lies under the node's ZIP
    path. *)
Lemma prefix_append (a b : string) : String.prefix a (a +:+ b) = true.
Proof.
  induction a as [|ch a IH]; simpl.
  - destruct b; reflexivity.
  - destruct (ascii_dec ch ch) as [_|Hne]; [exact IH | contradiction].
Qed.

Lemma prefix_trans (a b c : string) :
  String.prefix a b = true -> String.prefix b c = true -> String.prefix a c = true.
Proof.
  revert b c. induction a as [|x a IH]; intros b c Hab Hbc.
  - destruct c; reflexivity.
  - destruct b as [|y b]; [discriminate|]. destruct c as [|z c]; [discriminate|].
    simpl in *.
    destruct (ascii_dec x y) as [->|]; [|discriminate].
    destruct (ascii_dec y z) as [->|]; [|discriminate].
    apply (IH b c Hab Hbc).
Qed.

Lemma prefix_length (a b : string) :
  String.prefix a b = true -> (String.length a <= String.length b)%nat.
Proof.
  revert b. induction a as [|x a IH]; intros b H; simpl; [lia|].
  destruct b as [|y b]; [discriminate|]. simpl in *.
  destruct (ascii_dec x y); [|discriminate]. apply IH in H. lia.
Qed.

Lemma prefix_same_length (a b : string) :
  String.prefix a b = true -> String.length a = String.length b -> a = b.
Proof.
  revert b. induction a as [|x a IH]; intros b H Hlen.
  - destruct b; [reflexivity | discriminate].
  - destruct b as [|y b]; [discriminate|]. simpl in *.
    destruct (ascii_dec x y) as [->|]; [|discriminate].
    f_equal. apply IH; [exact H | lia].
Qed.

Lemma Contains_length (s sub : string) :
  Contains s sub = true -> (String.length sub <= String.length s)%nat.
Proof.
  induction s as [|c s IH]; intros H.
  - change (String.prefix sub "" || false = true) in H.
    rewrite orb_false_r in H. apply prefix_length in H. exact H.
  - change (String.prefix sub (String c s) || Contains s sub = true) in H.
    apply orb_true_iff in H. destruct H as [H|H].
    + apply prefix_length in H. exact H.
    + apply IH in H. simpl. lia.
Qed.

Lemma Contains_same_length (s sub : string) :
  Contains s sub = true -> String.length sub = String.length s -> sub = s.
Proof.
  destruct s as [|c s]; intros H Hlen.
  - change (String.prefix sub "" || false = true) in H.
    rewrite orb_false_r in H. apply prefix_same_length; assumption.
  - change (String.prefix sub (String c s) || Contains s sub = true) in H.
    apply orb_true_iff in H. destruct H as [H|H].
    + apply prefix_same_length; assumption.
    + apply Contains_length in H. simpl in Hlen. lia.
Qed.

Lemma HasPrefix_slash (p : string) :
  HasPrefix p "/" = true -> exists s, p = String slash s.
Proof.
  unfold HasPrefix. destruct p as [|c p]; intros H; [discriminate|].
  change (match ascii_dec "/"%char c with
          | left _ => String.prefix "" p
          | right _ => false
          end = true) in H.
  destruct (ascii_dec "/"%char c) as [<-|]; [|discriminate]. eauto.
Qed.

Lemma HasPrefix_cons (c : ascii) (z : string) :
  HasPrefix (String c z) "/" = bool_decide (c = slash).
Proof.
  unfold HasPrefix.
  change (match ascii_dec "/"%char c with
          | left _ => String.prefix "" z
          | right _ => false
          end = bool_decide (c = slash)).
  destruct (ascii_dec "/"%char c) as [<-|Hne].
  - rewrite prefix_empty, bool_decide_eq_true_2; reflexivity.
  - rewrite bool_decide_eq_false_2; [reflexivity|]. intros ->. apply Hne. reflexivity.
Qed.

Lemma HasPrefix_append (zp x : string) :
  zp <> "" -> HasPrefix (zp +:+ x) "/" = HasPrefix zp "/".
Proof.
  destruct zp as [|c z]; intros H; [contradiction|].
  change (String c z +:+ x) with (String c (z +:+ x)).
  rewrite !HasPrefix_cons. reflexivity.
Qed.

Lemma split_slash_rooted (s : string) :
  split_slash (String slash s) = "" :: split_slash s.
Proof. reflexivity. Qed.

Lemma split_slash_no_slash (s : string) : Forall (fun e => has_slash e = false) (split_slash s).
Proof.
  induction s as [|c s IH]; simpl.
  - repeat constructor.
  - destruct (Ascii.eqb c slash) eqn:Hc.
    + constructor; [reflexivity | exact IH].
    + destruct (split_slash s) as [|x xs]; [repeat constructor; simpl; rewrite Hc; reflexivity|].
      inversion IH as [|? ? Hx Hxs]; subst.
      constructor; [simpl; rewrite Hc, Hx; reflexivity | exact Hxs].
Qed.

Lemma split_slash_nonempty (s : string) : split_slash s <> [].
Proof.
  destruct s as [|c s]; simpl; [discriminate|].
  destruct (Ascii.eqb c slash); [discriminate|].
  destruct (split_slash s); discriminate.
Qed.

(** Splitting an element without slash followed by more of the path. *)
Lemma split_slash_element (e rest : string) :
  has_slash e = false ->
  split_slash (e +:+ String slash rest) = e :: split_slash rest.
Proof.
  induction e as [|c e IH]; intros H.
  - reflexivity.
  - simpl in H. apply orb_false_iff in H. destruct H as [Hc He].
    simpl. rewrite Hc, (IH He). reflexivity.
Qed.

Lemma split_slash_single (e : string) : has_slash e = false -> split_slash e = [e].
Proof.
  induction e as [|c e IH]; intros H; [reflexivity|].
  simpl in H. apply orb_false_iff in H. destruct H as [Hc He].
  simpl. rewrite Hc, (IH He). reflexivity.
Qed.

Lemma split_join (cs : list string) :
  cs <> [] -> Forall (fun e => has_slash e = false) cs ->
  split_slash (join_slash cs) = cs.
Proof.
  induction cs as [|c cs IH]; intros Hne Hall; [contradiction|].
  inversion Hall as [|? ? Hc Hcs]; subst.
  destruct cs as [|c' cs].
  - simpl. apply split_slash_single. exact Hc.
  - change (join_slash (c :: c' :: cs)) with (c +:+ String slash (join_slash (c' :: cs))).
    rewrite (split_slash_element _ _ Hc), IH; [reflexivity | discriminate | exact Hcs].
Qed.

Lemma join_snoc (cs : list string) (e : string) :
  cs <> [] -> join_slash (cs ++ [e]) = join_slash cs +:+ "/" +:+ e.
Proof.
  induction cs as [|c cs IH]; intros Hne; [contradiction|].
  destruct cs as [|c' cs]; [reflexivity|].
  change (join_slash ((c :: c' :: cs) ++ [e]))
    with (c +:+ "/" +:+ join_slash ((c' :: cs) ++ [e])).
  rewrite IH by discriminate.
  change (join_slash (c :: c' :: cs)) with (c +:+ "/" +:+ join_slash (c' :: cs)).
  rewrite !append_assoc. reflexivity.
Qed.

Lemma join_length_last (cs : list string) (b : string) :
  (String.length b <= String.length (join_slash (cs ++ [b])))%nat.
Proof.
  destruct cs as [|c cs]; [simpl; lia|].
  rewrite join_snoc by discriminate. rewrite !length_append. lia.
Qed.

Lemma plain_name_spec (e : string) :
  plain_name e = true <->
  e <> "" /\ e <> "." /\ e <> ".." /\ has_slash e = false.
Proof.
  unfold plain_name. rewrite !andb_true_iff, !negb_true_iff, !bool_decide_eq_false.
  tauto.
Qed.

Lemma plain_no_slash (cs : list string) :
  Forall (fun x => plain_name x = true) cs -> Forall (fun e => has_slash e = false) cs.
Proof.
  intros H. eapply Forall_impl; [exact H|].
  intros e He. apply plain_name_spec in He. tauto.
Qed.

Lemma plain_relative (b : string) :
  plain_name b = true -> b <> "" /\ HasPrefix b "/" = false.
Proof.
  intros H. apply plain_name_spec in H. destruct H as (Hne & _ & _ & Hs).
  split; [exact Hne|]. destruct b as [|c z]; [contradiction|].
  rewrite HasPrefix_cons. simpl in Hs. apply orb_false_iff in Hs. destruct Hs as [Hc _].
  apply bool_decide_eq_false_2. intros ->. discriminate.
Qed.

Lemma clean_elem_plain (rooted : bool) (out : list string) (e : string) :
  plain_name e = true -> clean_elem rooted out e = out ++ [e].
Proof.
  intros H. apply plain_name_spec in H. destruct H as (H1 & H2 & H3 & _).
  unfold clean_elem.
  rewrite (bool_decide_eq_false_2 _ H1), (bool_decide_eq_false_2 _ H2),
          (bool_decide_eq_false_2 _ H3).
  reflexivity.
Qed.

Lemma fold_clean_plain (rooted : bool) (cs : list string) :
  Forall (fun e => plain_name e = true) cs ->
  forall out, fold_left (clean_elem rooted) cs out = out ++ cs.
Proof.
  induction 1 as [|c cs Hc _ IH]; intros out; simpl.
  - rewrite app_nil_r. reflexivity.
  - rewrite (clean_elem_plain _ _ _ Hc), IH, <- app_assoc. reflexivity.
Qed.

Lemma Forall_removelast {A : Type} (P : A -> Prop) (l : list A) :
  Forall P l -> Forall P (removelast l).
Proof.
  induction 1 as [|x l Hx Hl IH]; simpl; [constructor|].
  destruct l; [constructor | constructor; assumption].
Qed.

Lemma clean_elem_keeps_plain (out : list string) (e : string) :
  has_slash e = false ->
  Forall (fun x => plain_name x = true) out ->
  Forall (fun x => plain_name x = true) (clean_elem true out e).
Proof.
  intros He Hout. unfold clean_elem.
  destruct (bool_decide (e = "")) eqn:H1; [exact Hout|].
  destruct (bool_decide (e = ".")) eqn:H2; [exact Hout|].
  destruct (bool_decide (e = "..")) eqn:H3; cbn [orb].
  - destruct (last out) as [top|]; [|exact Hout].
    destruct (bool_decide (top = "..")); [exact Hout|].
    apply Forall_removelast. exact Hout.
  - apply Forall_app. split; [exact Hout|].
    constructor; [|constructor].
    apply plain_name_spec. apply bool_decide_eq_false in H1, H2, H3. tauto.
Qed.

Lemma fold_clean_keeps_plain (es : list string) :
  Forall (fun e => has_slash e = false) es ->
  forall out,
    Forall (fun x => plain_name x = true) out ->
    Forall (fun x => plain_name x = true) (fold_left (clean_elem true) es out).
Proof.
  induction 1 as [|e es He _ IH]; intros out Hout; simpl; [exact Hout|].
  apply IH. apply clean_elem_keeps_plain; assumption.
Qed.

Lemma Clean_rooted (s : string) :
  Clean (String slash s)
  = "/" +:+ join_slash (fold_left (clean_elem true) (split_slash s) []).
Proof. reflexivity. Qed.

(** The clean form of an absolute path: the root followed by plain
    elements. *)
Lemma Clean_absolute_shape (filePath : string) :
  HasPrefix filePath "/" = true ->
  exists cs, Forall (fun x => plain_name x = true) cs
             /\ Clean filePath = "/" +:+ join_slash cs.
Proof.
  intros H. apply HasPrefix_slash in H. destruct H as [s ->].
  exists (fold_left (clean_elem true) (split_slash s) []).
  split; [|apply Clean_rooted].
  apply fold_clean_keeps_plain; [apply split_slash_no_slash | constructor].
Qed.

(** Joining a plain name to a clean absolute path appends it. *)
Lemma Join_plain (cs : list string) (name : string) :
  cs <> [] ->
  Forall (fun x => plain_name x = true) cs ->
  plain_name name = true ->
  Join ("/" +:+ join_slash cs) name = "/" +:+ join_slash (cs ++ [name]).
Proof.
  intros Hne Hcs Hname.
  assert (Hn : name <> "") by (apply plain_name_spec in Hname; tauto).
  unfold Join.
  rewrite bool_decide_eq_false_2 by discriminate.
  rewrite (bool_decide_eq_false_2 _ Hn).
  change (("/" +:+ join_slash cs) +:+ "/" +:+ name)
    with (String slash (join_slash cs +:+ "/" +:+ name)).
  rewrite <- (join_snoc cs name Hne), Clean_rooted.
  assert (Hall : Forall (fun x => plain_name x = true) (cs ++ [name])).
  { apply Forall_app. split; [exact Hcs | constructor; [exact Hname | constructor]]. }
  rewrite split_join; [| destruct cs; discriminate | apply plain_no_slash; exact Hall].
  rewrite (fold_clean_plain true _ Hall). reflexivity.
Qed.

Lemma filter_nonempty_plain (cs : list string) :
  Forall (fun x => plain_name x = true) cs ->
  filter (fun e : string => e <> "") cs = cs.
Proof.
  induction 1 as [|c cs Hc _ IH]; [reflexivity|].
  rewrite filter_cons_True; [rewrite IH; reflexivity|].
  apply plain_name_spec in Hc. tauto.
Qed.

(** The base name of a clean absolute path is its last element. *)
Lemma Base_absolute (cs : list string) (b : string) :
  Forall (fun x => plain_name x = true) (cs ++ [b]) ->
  Base ("/" +:+ join_slash (cs ++ [b])) = b.
Proof.
  intros Hall. unfold Base.
  rewrite bool_decide_eq_false_2 by discriminate.
  change ("/" +:+ join_slash (cs ++ [b])) with (String slash (join_slash (cs ++ [b]))).
  rewrite split_slash_rooted,
          split_join by (try apply plain_no_slash; try exact Hall; destruct cs; discriminate).
  rewrite filter_cons_False by (intros H; apply H; reflexivity).
  rewrite (filter_nonempty_plain _ Hall), last_snoc. reflexivity.
Qed.

(** ** The language table *)


Lemma GetLanguageFromExtension_listed (ext lang : string) :
  languageMap !! ToLower ext = Some lang -> GetLanguageFromExtension ext = lang.
Proof. intros H. unfold GetLanguageFromExtension. rewrite H. reflexivity. Qed.

(** ** The archive walk *)

(** Induction over remote trees, with the hypothesis for every entry of a
    listing. *)
Lemma Remote_tree_ind (P : Remote -> Prop) :
  (forall info body, P (RFile info body)) ->
  (forall info e, P (RDir info (Err e))) ->
  (forall info files, Forall P files -> P (RDir info (Ok files))) ->
  forall n, P n.
Proof.
  intros Hfile Herr Hdir.
  fix IH 1. intros [info body | info [files | e]].
  - apply Hfile.
  - apply Hdir. induction files as [|f rest IHrest]; constructor; [apply IH | exact IHrest].
  - apply Herr.
Qed.

Lemma stat_calls_app (l1 l2 : list Event) :
  stat_calls (l1 ++ l2) = stat_calls l1 ++ stat_calls l2.
Proof. apply omap_app. Qed.

Lemma zip_closes_app (l1 l2 : list Event) :
  zip_closes (l1 ++ l2) = zip_closes l1 ++ zip_closes l2.
Proof. apply omap_app. Qed.

Lemma entry_names_app (l1 l2 : list Event) :
  entry_names (l1 ++ l2) = entry_names l1 ++ entry_names l2.
Proof. apply omap_app. Qed.

Lemma grows_refl (z : ZipWriter) : grows z z [] [].
Proof.
  split; [reflexivity|]. exists []. rewrite !app_nil_r.
  repeat split; reflexivity.
Qed.

(** Two consecutive stretches of a run: the second starts with [first2],
    which is neither a [Stat] call nor a [Close] and creates [n2]. *)
Lemma grows_trans (z1 z2 z3 : ZipWriter) (first first2 : list Event)
    (names1 names2 : list string) :
  grows z1 z2 first names1 ->
  grows z2 z3 first2 names2 ->
  stat_calls first2 = [] -> zip_closes first2 = [] ->
  grows z1 z3 first (names1 ++ entry_names first2 ++ names2).
Proof.
  intros (Hs1 & d1 & He1 & Hst1 & Hcl1 & Hn1) (Hs2 & d2 & He2 & Hst2 & Hcl2 & Hn2) Hf Hc.
  split; [congruence|].
  exists (d1 ++ first2 ++ d2). split; [|split; [|split]].
  - rewrite He2, He1, <- !app_assoc. reflexivity.
  - rewrite !stat_calls_app, Hst1, Hf, Hst2. reflexivity.
  - rewrite !zip_closes_app, Hcl1, Hc, Hcl2. reflexivity.
  - intros Hok. rewrite !entry_names_app, Hn1 by exact Hok.
    rewrite Hn2 by (intros k; rewrite Hs1; apply Hok). reflexivity.
Qed.

Lemma grows_absorb (z z' : ZipWriter) (first : list Event) (names : list string) :
  grows z z' first names ->
  stat_calls first = [] -> zip_closes first = [] ->
  grows z z' [] (entry_names first ++ names).
Proof.
  intros (Hs & d & He & Hst & Hcl & Hn) Hf Hc.
  split; [exact Hs|]. exists (first ++ d). cbn [app].
  split; [exact He|]. split; [|split].
  - rewrite stat_calls_app, Hf, Hst. reflexivity.
  - rewrite zip_closes_app, Hc, Hcl. reflexivity.
  - intros Hok. rewrite entry_names_app, Hn by exact Hok. reflexivity.
Qed.

Lemma grows_prepend (z z' : ZipWriter) (e : Event) (names : list string) :
  grows (emit e z) z' [] names ->
  grows z z' [e] names.
Proof.
  intros (Hs & d & He & Hst & Hcl & Hn).
  split; [exact Hs|]. exists d. cbn [emit sink events] in *.
  split; [rewrite He, <- !app_assoc; reflexivity|].
  repeat split; assumption.
Qed.

Lemma first_call_quiet (n : Remote) (p : string) :
  stat_calls [first_call n p] = []
  /\ zip_closes [first_call n p] = []
  /\ entry_names [first_call n p] = [].
Proof. destruct n; repeat split; reflexivity. Qed.

Lemma addFileToZip_grows (body : result (list byte * option error))
    (filePath zipPath : string) (z : ZipWriter) :
  grows z (snd (addFileToZip body filePath zipPath z)) [RemoteOpen filePath]
        (match body with Ok _ => [zipPath] | Err _ => [] end).
Proof.
  unfold addFileToZip, zip_Create, io_Copy, emit. cbn [sink ops events].
  destruct body as [[data rerr] | e]; cbn [fst snd].
  - destruct (sink z (ops z)) eqn:Hcreate; cbn [negb].
    + destruct data as [|b data]; cbn [sink ops events].
      * destruct rerr; cbn [snd sink events]; (split; [reflexivity|]);
          eexists; (split; [rewrite <- !app_assoc; reflexivity|]);
          repeat split; reflexivity.
      * destruct (sink z (S (ops z))) eqn:Hwrite; destruct rerr; cbn [snd sink events];
          (split; [reflexivity|]);
          eexists; (split; [rewrite <- !app_assoc; reflexivity|]);
          repeat split; reflexivity.
    + cbn [snd sink events]. split; [reflexivity|].
      eexists. split; [rewrite <- !app_assoc; reflexivity|].
      repeat split; try reflexivity.
      intros Hok. rewrite Hok in Hcreate. discriminate.
  - cbn [snd sink events]. split; [reflexivity|].
    exists []. rewrite app_nil_r. repeat split; reflexivity.
Qed.

Lemma add_node_grows (n : Remote) :
  forall (remotePath zipPath : string) (z : ZipWriter),
    grows z (snd (add_node n remotePath zipPath z)) [first_call n remotePath]
          (node_entries n zipPath).
Proof.
  induction n as [info body | info e | info files IH] using Remote_tree_ind;
    intros remotePath zipPath z.
  - cbn [add_node first_call node_entries]. apply addFileToZip_grows.
  - cbn [add_node first_call node_entries addDirectoryToZip snd].
    split; [reflexivity|]. exists []. rewrite app_nil_r. repeat split; reflexivity.
  - cbn [add_node first_call node_entries addDirectoryToZip].
    assert (Hloop : forall z0,
      grows z0 (each_file add_node remotePath zipPath files z0) []
        (flat_map (fun file => node_entries file (zipPath +:+ "/" +:+ Name file)) files)).
    { induction IH as [|file rest Hfile _ IHrest]; intros z0.
      - apply grows_refl.
      - cbn [flat_map each_file].
        pose proof (Hfile (Join remotePath (Name file)) (zipPath +:+ "/" +:+ Name file) z0)
          as Hone.
        destruct (first_call_quiet file (Join remotePath (Name file))) as (Hq1 & Hq2 & Hq3).
        apply grows_absorb in Hone; [|exact Hq1|exact Hq2].
        rewrite Hq3 in Hone. cbn [app] in Hone.
        exact (grows_trans _ _ _ [] [] _ _ Hone (IHrest _) eq_refl eq_refl). }
    change (fun file : Remote =>
              match file with
              | RFile _ body => addFileToZip body
              | RDir _ _ => addDirectoryToZip file
              end) with add_node.
    apply grows_prepend.
    unfold zip_Create. cbn [emit sink ops events].
    destruct (bool_decide (zipPath = "")) eqn:Hempty.
    + cbn [negb snd app]. apply Hloop.
    + destruct (sink z (ops z)) eqn:Hcreate; cbn [negb snd].
      * destruct (Hloop (mkZipWriter (sink z) (S (ops z))
                           ((events z ++ [RemoteReadDir remotePath])
                              ++ [ZipCreate (zipPath +:+ "/") true])))
          as (Hs & d & He & Hst & Hcl & Hn).
        split; [exact Hs|].
        exists (ZipCreate (zipPath +:+ "/") true :: d). cbn [emit sink events app] in *.
        split; [rewrite He, <- !app_assoc; reflexivity|].
        split; [exact Hst|]. split; [exact Hcl|].
        intros Hok. change (ZipCreate (zipPath +:+ "/") true :: d)
          with ([ZipCreate (zipPath +:+ "/") true] ++ d).
        rewrite entry_names_app, Hn by exact Hok. reflexivity.
      * split; [reflexivity|].
        exists [ZipCreate (zipPath +:+ "/") false]. cbn [emit sink events app].
        split; [reflexivity|].
        split; [reflexivity|]. split; [reflexivity|].
        intros Hok. rewrite Hok in Hcreate. discriminate.
Qed.

(** One requested path: the [Stat] call, then the node's own events. *)
Lemma download_one_log (srv : Server) (filePath : string) (z : ZipWriter) :
  sink (download_one srv filePath z) = sink z
  /\ exists d,
       events (download_one srv filePath z) = events z ++ RemoteStat (Clean filePath) :: d
       /\ stat_calls d = []
       /\ zip_closes d = []
       /\ ((forall k, sink z k = true) -> entry_names d = path_entries srv filePath)
       /\ (forall n, srv (Clean filePath) = Ok n ->
                     In (first_call n (Clean filePath)) d).
Proof.
  unfold download_one, path_entries.
  destruct (srv (Clean filePath)) as [n|e] eqn:Hstat.
  - assert (Hn : (match n with
                  | RFile _ body =>
                      snd (addFileToZip body (Clean filePath) (Base (Clean filePath))
                             (emit (RemoteStat (Clean filePath)) z))
                  | RDir _ _ =>
                      snd (addDirectoryToZip n (Clean filePath) (Base (Clean filePath))
                             (emit (RemoteStat (Clean filePath)) z))
                  end)
                 = snd (add_node n (Clean filePath) (Base (Clean filePath))
                          (emit (RemoteStat (Clean filePath)) z)))
      by (destruct n; reflexivity).
    rewrite Hn.
    destruct (add_node_grows n (Clean filePath) (Base (Clean filePath))
                (emit (RemoteStat (Clean filePath)) z))
      as (Hs & d & He & Hst & Hcl & Hnames).
    destruct (first_call_quiet n (Clean filePath)) as (Hq1 & Hq2 & Hq3).
    cbn [emit sink events] in *.
    split; [exact Hs|].
    exists (first_call n (Clean filePath) :: d).
    split; [rewrite He, <- !app_assoc; reflexivity|].
    change (first_call n (Clean filePath) :: d) with ([first_call n (Clean filePath)] ++ d).
    split; [rewrite stat_calls_app, Hq1, Hst; reflexivity|].
    split; [rewrite zip_closes_app, Hq2, Hcl; reflexivity|].
    split.
    + intros Hok. rewrite entry_names_app, Hq3, Hnames by exact Hok. reflexivity.
    + intros n' [= <-]. left. reflexivity.
  - cbn [emit sink events]. split; [reflexivity|].
    exists []. repeat split; try reflexivity. intros n' [=].
Qed.

Lemma download_loop_log (srv : Server) (filePaths : list string) :
  forall z : ZipWriter,
    sink (download_loop srv filePaths z) = sink z
    /\ exists d,
         events (download_loop srv filePaths z) = events z ++ d
         /\ stat_calls d = map Clean filePaths
         /\ zip_closes d = []
         /\ ((forall k, sink z k = true) ->
             entry_names d = flat_map (path_entries srv) filePaths)
         /\ (forall p n, In p filePaths -> srv (Clean p) = Ok n ->
                         In (first_call n (Clean p)) d).
Proof.
  unfold download_loop.
  induction filePaths as [|p rest IH]; intros z; cbn [fold_left map flat_map].
  - split; [reflexivity|]. exists []. rewrite app_nil_r.
    repeat split; try reflexivity. intros p n [].
  - destruct (download_one_log srv p z) as (Hs1 & d1 & He1 & Hst1 & Hcl1 & Hn1 & Hin1).
    destruct (IH (download_one srv p z)) as (Hs2 & d2 & He2 & Hst2 & Hcl2 & Hn2 & Hin2).
    split; [congruence|].
    exists ([RemoteStat (Clean p)] ++ d1 ++ d2).
    split; [rewrite He2, He1, <- !app_assoc; reflexivity|].
    split; [rewrite !stat_calls_app, Hst1, Hst2; reflexivity|].
    split; [rewrite !zip_closes_app, Hcl1, Hcl2; reflexivity|].
    split.
    + intros Hok. rewrite !entry_names_app, Hn1 by exact Hok.
      rewrite Hn2 by (intros k; rewrite Hs1; apply Hok). reflexivity.
    + intros q n [<- | Hq] Hstat; apply in_or_app; right; apply in_or_app.
      * left. apply Hin1. exact Hstat.
      * right. apply (Hin2 q n Hq Hstat).
Qed.

(** When every requested path fails at [Stat], nothing else happens. *)
Lemma download_loop_all_fail (srv : Server) (filePaths : list string) :
  Forall (fun p => exists e, srv (Clean p) = Err e) filePaths ->
  forall z : ZipWriter,
    download_loop srv filePaths z =
      mkZipWriter (sink z) (ops z)
                  (events z ++ map (fun p => RemoteStat (Clean p)) filePaths).
Proof.
  unfold download_loop.
  induction 1 as [|p rest [e He] _ IH]; intros z; cbn [fold_left map].
  - rewrite app_nil_r. destruct z; reflexivity.
  - rewrite IH. unfold download_one. rewrite He. cbn [emit sink ops events].
    rewrite <- app_assoc. reflexivity.
Qed.

(** ** The entries of the archive *)

(** What a failing path or entry contributes to the archive. *)
Lemma path_entries_stat_fails (srv : Server) (filePath : string) (e : error) :
  srv (Clean filePath) = Err e -> path_entries srv filePath = [].
Proof. intros H. unfold path_entries. rewrite H. reflexivity. Qed.

Lemma node_entries_open_fails (info : FileStat) (e : error) (zipPath : string) :
  node_entries (RFile info (Err e)) zipPath = [].
Proof. reflexivity. Qed.

Lemma node_entries_listing_fails (info : FileStat) (e : error) (zipPath : string) :
  node_entries (RDir info (Err e)) zipPath = [].
Proof. reflexivity. Qed.

(** A file that opens has its entry, whether or not its copy succeeds. *)
Lemma node_entries_opened (info : FileStat) (data : list byte) (rerr : option error)
    (zipPath : string) :
  node_entries (RFile info (Ok (data, rerr))) zipPath = [zipPath].
Proof. reflexivity. Qed.

Lemma node_entries_under (n : Remote) :
  forall zipPath name,
    In name (node_entries n zipPath) -> String.prefix zipPath name = true.
Proof.
  induction n as [info body | info e | info files IH] using Remote_tree_ind;
    intros zipPath name Hin.
  - destruct body; cbn in Hin; [|contradiction].
    destruct Hin as [<-|[]]. apply prefix_refl.
  - contradiction.
  - cbn [node_entries] in Hin. apply in_app_or in Hin. destruct Hin as [Hin|Hin].
    + destruct (bool_decide (zipPath = "")); [contradiction|].
      destruct Hin as [<-|[]]. apply prefix_append.
    + apply in_flat_map in Hin. destruct Hin as (file & Hfile & Hname).
      rewrite Forall_forall in IH.
      apply (prefix_trans _ (zipPath +:+ "/" +:+ Name file)).
      * apply prefix_append.
      * apply (IH file); [apply list_elem_of_In; exact Hfile | exact Hname].
Qed.

(** The entries of a requested path are named under its base name. *)
Lemma path_entries_under_base (srv : Server) (filePath name : string) :
  In name (path_entries srv filePath) ->
  String.prefix (Base (Clean filePath)) name = true.
Proof.
  unfold path_entries. destruct (srv (Clean filePath)); [|contradiction].
  apply node_entries_under.
Qed.

Lemma node_sources_names (n : Remote) :
  forall remotePath zipPath,
    map snd (node_sources n remotePath zipPath) = node_entries n zipPath.
Proof.
  induction n as [info body | info e | info files IH] using Remote_tree_ind;
    intros remotePath zipPath.
  - destruct body; reflexivity.
  - reflexivity.
  - cbn [node_sources node_entries]. rewrite map_app. f_equal.
    + destruct (bool_decide (zipPath = "")); reflexivity.
    + clear -IH. induction IH as [|file rest Hfile _ IHrest]; [reflexivity|].
      cbn [flat_map]. rewrite map_app, Hfile, IHrest. reflexivity.
Qed.

(** Under a clean absolute path other than the root, with plain names in
    the listings, a ZIP path that is relative and shorter than the remote
    path stays so down the walk, and no entry name contains the remote path
    it is made from. *)
Lemma node_sources_hidden (n : Remote) :
  forall (cs : list string) (zipPath : string),
    cs <> [] ->
    Forall (fun x => plain_name x = true) cs ->
    plain_tree n = true ->
    zipPath <> "" ->
    HasPrefix zipPath "/" = false ->
    (String.length zipPath < String.length ("/" +:+ join_slash cs))%nat ->
    Forall (fun src => Contains (snd src) (fst src) = false)
           (node_sources n ("/" +:+ join_slash cs) zipPath).
Proof.
  induction n as [info body | info e | info files IH] using Remote_tree_ind;
    intros cs zipPath Hne Hcs Hplain Hzp Hrel Hlen.
  - destruct body as [file|e]; cbn [node_sources]; [|constructor].
    constructor; [|constructor]. cbn [fst snd].
    destruct (Contains zipPath ("/" +:+ join_slash cs)) eqn:Hc; [|reflexivity].
    apply Contains_length in Hc. lia.
  - constructor.
  - cbn [node_sources]. rewrite (bool_decide_eq_false_2 _ Hzp).
    apply Forall_app. split.
    + constructor; [|constructor]. cbn [fst snd].
      destruct (Contains (zipPath +:+ "/") ("/" +:+ join_slash cs)) eqn:Hc; [|reflexivity].
      exfalso. pose proof (Contains_length _ _ Hc) as Hle.
      assert (Heq : "/" +:+ join_slash cs = zipPath +:+ "/").
      { apply (Contains_same_length _ _ Hc).
        rewrite !length_append in *. cbn [String.length] in *. lia. }
      destruct zipPath as [|c z]; [contradiction|].
      rewrite HasPrefix_cons in Hrel. apply bool_decide_eq_false in Hrel.
      change (String slash (join_slash cs) = String c (z +:+ "/")) in Heq.
      injection Heq as Hc' _. apply Hrel. symmetry. exact Hc'.
    + apply Forall_flat_map.
      cbn [plain_tree] in Hplain. rewrite forallb_forall in Hplain.
      rewrite Forall_forall in IH. apply Forall_forall. intros file Hfile.
      pose proof (Hplain file ltac:(apply list_elem_of_In; exact Hfile)) as Hf.
      apply andb_true_iff in Hf. destruct Hf as [Hname Htree].
      rewrite (Join_plain cs (Name file) Hne Hcs Hname).
      apply (IH file Hfile).
      * destruct cs; discriminate.
      * apply Forall_app. split; [exact Hcs | constructor; [exact Hname|constructor]].
      * exact Htree.
      * apply append_nonempty. exact Hzp.
      * rewrite HasPrefix_append by exact Hzp. exact Hrel.
      * rewrite (join_snoc cs _ Hne).
        change ("/" +:+ join_slash cs +:+ "/" +:+ Name file)
          with (("/" +:+ join_slash cs) +:+ "/" +:+ Name file) at 1.
        rewrite !length_append in *. cbn [String.length] in *. lia.
Qed.

(** Away from the root no entry name contains the remote path: for an
    absolute request whose clean form is not the root, on a tree with plain
    names, every entry of the archive is made from a remote path that its
    name does not contain. *)
Theorem entries_hide_remote_path (srv : Server) (filePath : string) (n : Remote) :
  HasPrefix filePath "/" = true ->
  Clean filePath <> "/" ->
  srv (Clean filePath) = Ok n ->
  plain_tree n = true ->
  Forall (fun src => Contains (snd src) (fst src) = false)
         (node_sources n (Clean filePath) (Base (Clean filePath)))
  /\ map snd (node_sources n (Clean filePath) (Base (Clean filePath)))
     = path_entries srv filePath.
Proof.
  intros Habs Hroot Hstat Hplain.
  split; [|unfold path_entries; rewrite Hstat; apply node_sources_names].
  destruct (Clean_absolute_shape filePath Habs) as (cs & Hcs & Hclean).
  assert (Hne : cs <> []) by (intros ->; apply Hroot; rewrite Hclean; reflexivity).
  destruct (exists_last Hne) as (cs' & b & ->).
  rewrite Hclean, (Base_absolute cs' b Hcs).
  assert (Hb : plain_name b = true).
  { apply Forall_app in Hcs. destruct Hcs as [_ Hb]. inversion Hb; assumption. }
  destruct (plain_relative b Hb) as [Hbne Hbrel].
  apply node_sources_hidden; try assumption.
  pose proof (join_length_last cs' b) as Hlen.
  rewrite length_append. cbn [String.length]. lia.
Qed.

Lemma entries_hide_remote_path_example :
  Forall (fun src => Contains (snd src) (fst src) = false)
         (node_sources (dirB (readable [x64])) "/home/alice/dirB" "dirB")
  /\ node_sources (dirB (readable [x64])) "/home/alice/dirB" "dirB"
     = [("/home/alice/dirB", "dirB/");
        ("/home/alice/dirB/c.txt", "dirB/c.txt");
        ("/home/alice/dirB/d.txt", "dirB/d.txt")].
Proof.
  split; [|vm_compute; reflexivity].
  exact (proj1 (entries_hide_remote_path (home_server (readable [x64]))
                  "/home/alice/dirB/" (dirB (readable [x64]))
                  eq_refl ltac:(vm_compute; discriminate) eq_refl eq_refl)).
Defined.

(** ** File operations on a validated session *)

Section ValidSession.

(** A call made at the clock readings [now] and [now'] with the id of a
    stored session that has not expired and whose SFTP client [c] is
    open; [w'] is the world once the session has been looked up. *)
Variables (now now' : Time) (sessionID : string) (w w' : World) (s : Session) (c : nat).
Hypothesis session_valid : GetSession now now' sessionID w = (Ok s, w').
Hypothesis client_open : SFTPClient s = Some c.

Lemma session_remote : remote w' = remote w.
Proof. exact (GetSession_remote _ _ _ _ _ _ session_valid). Qed.

(** C10: an empty directory argument makes [ListFiles] act exactly as if
    the session's home directory had been passed, and the one remote listing
    call it issues is [ReadDir] of the cleaned home directory. *)
Theorem ListFiles_empty_path_lists_home
    (sortSlice : (FileInfo -> FileInfo -> bool) -> list FileInfo -> list FileInfo)
    (showHidden : bool) (filter : string) :
  ListFiles sortSlice now now' sessionID "" showHidden filter w
    = ListFiles sortSlice now now' sessionID (HomeDir s) showHidden filter w
  /\ snd (ListFiles sortSlice now now' sessionID "" showHidden filter w)
     = [RemoteReadDir (Clean (HomeDir s))]
  /\ fst (fst (ListFiles sortSlice now now' sessionID "" showHidden filter w))
     = Returns
         match ReadDir (remote w c) (Clean (HomeDir s)) with
         | Err e => Err (Wrapf "failed to read directory" e)
         | Ok fileInfos =>
             Ok (sortSlice files_less
                   (list_entries showHidden filter (Clean (HomeDir s)) fileInfos))
         end.
Proof.
  unfold ListFiles. rewrite session_valid, client_open, session_remote.
  rewrite bool_decide_eq_true_2 by reflexivity.
  split.
  - destruct (bool_decide (HomeDir s = "")) eqn:Hh; [|reflexivity].
    apply bool_decide_eq_true_1 in Hh. rewrite Hh. reflexivity.
  - destruct (ReadDir (remote w c) (Clean (HomeDir s))); split; reflexivity.
Qed.


(** [DownloadMultiple] on a validated session is the loop over the
    requested paths followed by the deferred [Close]. *)
Lemma DownloadMultiple_run (filePaths : list string) (snk : nat -> bool) :
  DownloadMultiple now now' sessionID filePaths snk w =
    (Returns None, w',
     events (zip_Close (download_loop (remote w c) filePaths (NewWriter snk)))).
Proof.
  unfold DownloadMultiple. rewrite session_valid, client_open, session_remote. reflexivity.
Qed.

(** C4: with a validated session, [DownloadMultiple] returns nil and its log
    is the processing of the requested paths, which contains no writer
    [Close] and one [Stat] per requested path in order, followed by exactly
    one [Close] as the last event.  With no requested path the log is that
    [Close] alone; when every path fails at [Stat] no entry is created and
    the [Close] still follows; over a sink that accepts every write the
    [Close] succeeds, so that the archive, even with zero entries, carries
    its trailer. *)
Theorem DownloadMultiple_finalizes_once (filePaths : list string) (snk : nat -> bool) :
  exists (body : list Event) (ok : bool),
    DownloadMultiple now now' sessionID filePaths snk w
      = (Returns None, w', body ++ [ZipClose ok])
    /\ zip_closes body = []
    /\ zip_closes (body ++ [ZipClose ok]) = [ok]
    /\ stat_calls body = map Clean filePaths
    /\ (filePaths = [] -> body = [])
    /\ (Forall (fun p => exists e, remote w c (Clean p) = Err e) filePaths ->
        body = map (fun p => RemoteStat (Clean p)) filePaths /\ entry_names body = [])
    /\ ((forall k, snk k = true) -> ok = true).
Proof.
  rewrite DownloadMultiple_run.
  destruct (download_loop_log (remote w c) filePaths (NewWriter snk))
    as (Hs & d & He & Hst & Hcl & _ & _).
  cbn [NewWriter events sink app] in *.
  exists d, (snk (ops (download_loop (remote w c) filePaths (NewWriter snk)))).
  unfold zip_Close. cbn [events]. rewrite Hs, He.
  split; [reflexivity|]. split; [exact Hcl|].
  split; [rewrite zip_closes_app, Hcl; reflexivity|].
  split; [exact Hst|]. split; [|split].
  - intros ->. cbn in He. symmetry. exact He.
  - intros Hfail.
    pose proof (download_loop_all_fail _ _ Hfail (NewWriter snk)) as Hall.
    rewrite Hall in He. cbn [NewWriter events app] in He. subst d.
    split; [reflexivity|].
    clear. induction filePaths as [|p rest IH]; [reflexivity | exact IH].
  - intros Hok. apply Hok.
Qed.

(** C5, as the code has it: over a sink that accepts every write,
    [DownloadMultiple] returns nil, stats every requested path in order, and
    the entries of the archive are, path by path and entry by entry, what
    [path_entries] lists: nothing for a path that cannot be statted, a file
    that cannot be opened or a directory that cannot be listed, and for
    everything else its entry, also for a file whose copy fails after its
    entry was created.  What one path or entry contributes does not depend
    on the failures of the others. *)
Theorem DownloadMultiple_skips_only_failures (filePaths : list string) (snk : nat -> bool) :
  (forall k, snk k = true) ->
  fst (fst (DownloadMultiple now now' sessionID filePaths snk w)) = Returns None
  /\ stat_calls (snd (DownloadMultiple now now' sessionID filePaths snk w))
     = map Clean filePaths
  /\ entry_names (snd (DownloadMultiple now now' sessionID filePaths snk w))
     = flat_map (path_entries (remote w c)) filePaths.
Proof.
  intros Hok. rewrite DownloadMultiple_run.
  destruct (download_loop_log (remote w c) filePaths (NewWriter snk))
    as (Hs & d & He & Hst & Hcl & Hn & _).
  cbn [NewWriter events sink app fst snd] in *.
  unfold zip_Close. cbn [events]. rewrite He.
  split; [reflexivity|].
  split; [rewrite stat_calls_app, Hst, app_nil_r; reflexivity|].
  rewrite entry_names_app, Hn by exact Hok. apply app_nil_r.
Qed.


End ValidSession.

(** ** The operations on sample servers *)

Lemma ListFiles_empty_path_lists_home_witness :
  let w := world_alice 5 (home_server unopenable) in
  ListFiles insertion_sort 60%Z 61%Z id_alice "" false "" w
    = ListFiles insertion_sort 60%Z 61%Z id_alice "/home/alice" false "" w
  /\ snd (ListFiles insertion_sort 60%Z 61%Z id_alice "" false "" w)
     = [RemoteReadDir "/home/alice"]
  /\ (exists files,
        fst (fst (ListFiles insertion_sort 60%Z 61%Z id_alice "" false "" w))
          = Returns (Ok files)
        /\ map fi_Path files =
             ["/home/alice/dirB"; "/home/alice/big.unknown";
              "/home/alice/fileA.txt"; "/home/alice/script.py"]).
Proof.
  intros w.
  destruct (ListFiles_empty_path_lists_home 60%Z 61%Z id_alice
              w (snd (GetSession 60%Z 61%Z id_alice w))
              (UpdateAccess 61%Z session_alice) 1%nat
              ltac:(vm_compute; reflexivity) eq_refl insertion_sort false "")
    as (Heq & Hlog & Hres).
  split; [exact Heq|]. split; [exact Hlog|].
  eexists. split; [exact Hres|]. vm_compute. reflexivity.
Defined.



Lemma DownloadMultiple_finalizes_once_witness :
  let w := world_alice 5 (home_server unopenable) in
  let w' := snd (GetSession 60%Z 61%Z id_alice w) in
  DownloadMultiple 60%Z 61%Z id_alice [] always_ok w = (Returns None, w', [ZipClose true])
  /\ DownloadMultiple 60%Z 61%Z id_alice ["/lost"; "/home/alice/gone/"] always_ok w
     = (Returns None, w',
        [RemoteStat "/lost"; RemoteStat "/home/alice/gone"; ZipClose true]).
Proof.
  intros w w'.
  assert (Hget : GetSession 60%Z 61%Z id_alice w = (Ok (UpdateAccess 61%Z session_alice), w'))
    by (vm_compute; reflexivity).
  split.
  - destruct (DownloadMultiple_finalizes_once 60%Z 61%Z id_alice
                w w' (UpdateAccess 61%Z session_alice) 1%nat Hget eq_refl [] always_ok)
      as (body & ok & Heq & _ & _ & _ & Hnil & _ & Hok).
    rewrite Heq, (Hnil eq_refl), (Hok (fun _ => eq_refl)). reflexivity.
  - destruct (DownloadMultiple_finalizes_once 60%Z 61%Z id_alice
                w w' (UpdateAccess 61%Z session_alice) 1%nat Hget eq_refl
                ["/lost"; "/home/alice/gone/"] always_ok)
      as (body & ok & Heq & _ & _ & _ & _ & Hfail & Hok).
    rewrite Heq, (Hok (fun _ => eq_refl)).
    destruct Hfail as [-> _]; [|reflexivity].
    repeat constructor; eexists; vm_compute; reflexivity.
Defined.

(** The archive of [fileA.txt] and [dirB/], where [dirB] holds [c.txt] and a
    [d.txt] that cannot be opened. *)
Lemma DownloadMultiple_skips_only_failures_witness :
  let w := world_alice 5 (home_server unopenable) in
  let paths := ["/home/alice/fileA.txt"; "/home/alice/dirB/"] in
  fst (fst (DownloadMultiple 60%Z 61%Z id_alice paths always_ok w)) = Returns None
  /\ stat_calls (snd (DownloadMultiple 60%Z 61%Z id_alice paths always_ok w))
     = ["/home/alice/fileA.txt"; "/home/alice/dirB"]
  /\ entry_names (snd (DownloadMultiple 60%Z 61%Z id_alice paths always_ok w))
     = ["fileA.txt"; "dirB/"; "dirB/c.txt"].
Proof.
  intros w paths.
  exact (DownloadMultiple_skips_only_failures 60%Z 61%Z id_alice
           w (snd (GetSession 60%Z 61%Z id_alice w))
           (UpdateAccess 61%Z session_alice) 1%nat
           ltac:(vm_compute; reflexivity) eq_refl paths always_ok (fun _ => eq_refl)).
Defined.

(** C5, the claim at a copy failure: [d.txt] opens, delivers one byte and
    then fails to read.  Its copy fails ([addFileToZip] returns an error),
    and yet the archive has an entry for [dirB/d.txt]. *)
Lemma DownloadMultiple_copy_failure_keeps_entry :
  let w := world_alice 5 (home_server (breaks_after [x64])) in
  let paths := ["/home/alice/fileA.txt"; "/home/alice/dirB/"] in
  (forall z, fst (addFileToZip (breaks_after [x64]) "/home/alice/dirB/d.txt"
                    "dirB/d.txt" (mkZipWriter always_ok (ops z) (events z)))
             = Some (Wrapf "failed to copy file /home/alice/dirB/d.txt to zip"
                           (Foreign "connection lost")))
  /\ entry_names (snd (DownloadMultiple 60%Z 61%Z id_alice paths always_ok w))
     = ["fileA.txt"; "dirB/"; "dirB/c.txt"; "dirB/d.txt"]
  /\ In (ZipCreate "dirB/d.txt" true)
        (snd (DownloadMultiple 60%Z 61%Z id_alice paths always_ok w)).
Proof.
  cbv zeta. split; [intros z; reflexivity|].
  split; [vm_compute; reflexivity|].
  vm_compute. tauto.
Qed.

(** C8, the code at the root: a request for [/] on a server whose root holds
    the file [x] creates the entries [//] and [//x]; the name of the second
    contains [/x], the absolute remote path of the file it was copied
    from. *)
Theorem DownloadMultiple_root_leaks_absolute_path :
  snd (DownloadMultiple 60%Z 61%Z id_alice ["/"] always_ok (world_alice 5 root_server))
    = [RemoteStat "/"; RemoteReadDir "/"; ZipCreate "//" true;
       RemoteOpen "/x"; ZipCreate "//x" true; RemoteRead "/x";
       ZipWrite "//x" [x78] true; RemoteClose "/x"; ZipClose true]
  /\ Base (Clean "/") = "/"
  /\ Join "/" "x" = "/x"
  /\ Contains "//x" "/x" = true.
Proof.
  split; [vm_compute; reflexivity|]. repeat split; reflexivity.
Qed.

(** Away from the root the same request names the entries under the base
    name: [/home/alice/dirB] becomes [dirB/], [dirB/c.txt]. *)
Lemma DownloadMultiple_names_under_base :
  entry_names (snd (DownloadMultiple 60%Z 61%Z id_alice ["/home/alice/dirB"] always_ok
                      (world_alice 5 (home_server (readable [x64])))))
    = ["dirB/"; "dirB/c.txt"; "dirB/d.txt"].
Proof. vm_compute. reflexivity. Qed.



(* ===================================================================== *)
(** * Part III: further properties of the code                            *)
(* ===================================================================== *)

(** ** The registry under the sweeper *)

Lemma visits_NoDup (order : list string) (w : World) :
  visits order w -> NoDup order.
Proof.
  unfold visits. intros H. rewrite H. apply NoDup_fst_map_to_list.
Qed.

Lemma visits_elem (order : list string) (w : World) (id : string) :
  visits order w -> (id ∈ order <-> is_Some (sessions w !! id)).
Proof.
  unfold visits. intros H. rewrite H, list_elem_of_fmap. split.
  - intros ([k s] & -> & Hin). apply elem_of_map_to_list in Hin. eauto.
  - intros [s Hs]. exists (id, s). split; [reflexivity|].
    apply elem_of_map_to_list. exact Hs.
Qed.

Lemma visits_length (order : list string) (w : World) :
  visits order w -> length order = size (sessions w).
Proof.
  unfold visits. intros H. rewrite H, length_fmap. apply length_map_to_list.
Qed.

Lemma close_and_delete_sessions (w : World) (id : string) :
  sessions (close_and_delete w id) = delete id (sessions w).
Proof.
  unfold close_and_delete. destruct (sessions w !! id) as [s|] eqn:Hs.
  - destruct (Session_Close (closeErr w) s (closed w)) as [[s' log] err]. reflexivity.
  - symmetry. apply delete_id. exact Hs.
Qed.

Lemma close_and_delete_frame (w : World) (id : string) :
  config (close_and_delete w id) = config w
  /\ closeErr (close_and_delete w id) = closeErr w
  /\ remote (close_and_delete w id) = remote w
  /\ closed (close_and_delete w id)
     = closed w ++ default [] (session_handles <$> sessions w !! id).
Proof.
  unfold close_and_delete. destruct (sessions w !! id) as [s|] eqn:Hs.
  - pose proof (Session_Close_log (closeErr w) s (closed w)) as Hlog.
    destruct (Session_Close (closeErr w) s (closed w)) as [[s' log] err].
    cbn in Hlog. subst log. repeat split; reflexivity.
  - cbn. rewrite app_nil_r. repeat split; reflexivity.
Qed.

Lemma sweep_lookup (ids : list string) :
  forall (w : World) (id : string),
    sessions (fold_left close_and_delete ids w) !! id
    = if decide (id ∈ ids) then None else sessions w !! id.
Proof.
  induction ids as [|a ids IH]; intros w id; cbn [fold_left].
  - rewrite decide_False by apply not_elem_of_nil. reflexivity.
  - rewrite IH, close_and_delete_sessions.
    destruct (decide (id ∈ ids)) as [Hin|Hnin].
    + rewrite decide_True by (right; exact Hin). reflexivity.
    + destruct (decide (id = a)) as [->|Hne].
      * rewrite decide_True by left. apply lookup_delete_eq.
      * rewrite decide_False by (intros H; apply elem_of_cons in H; tauto).
        apply lookup_delete_ne. congruence.
Qed.

Lemma sweep_frame (ids : list string) :
  forall w : World,
    NoDup ids ->
    config (fold_left close_and_delete ids w) = config w
    /\ closed (fold_left close_and_delete ids w)
       = closed w ++ flat_map (fun id => default [] (session_handles <$> sessions w !! id)) ids.
Proof.
  induction ids as [|a ids IH]; intros w Hnd; cbn [fold_left flat_map].
  - rewrite app_nil_r. split; reflexivity.
  - apply NoDup_cons in Hnd. destruct Hnd as [Ha Hnd].
    destruct (IH (close_and_delete w a) Hnd) as [Hcfg Hcl].
    destruct (close_and_delete_frame w a) as (Hc1 & _ & _ & Hc2).
    split; [congruence|].
    rewrite Hcl, Hc2, <- app_assoc. f_equal. f_equal.
    clear -Ha. induction ids as [|b ids IHb]; [reflexivity|].
    cbn [flat_map]. rewrite IHb by (intros H; apply Ha; right; exact H).
    rewrite close_and_delete_sessions, lookup_delete_ne; [reflexivity|].
    intros ->. apply Ha. left.
Qed.

Lemma sweep_size (ids : list string) :
  forall w : World,
    NoDup ids ->
    (forall id, id ∈ ids -> is_Some (sessions w !! id)) ->
    (size (sessions (fold_left close_and_delete ids w)) + length ids)%nat
    = size (sessions w).
Proof.
  induction ids as [|a ids IH]; intros w Hnd Hall; cbn [fold_left length].
  - lia.
  - apply NoDup_cons in Hnd. destruct Hnd as [Ha Hnd].
    rewrite Nat.add_succ_r, IH; [| exact Hnd |].
    + rewrite close_and_delete_sessions.
      pose proof (Hall a ltac:(left)) as Hs.
      rewrite (map_size_delete_Some _ _ Hs).
      pose proof (map_size_ne_0_lookup_2 (sessions w) a Hs). lia.
    + intros id Hid. rewrite close_and_delete_sessions, lookup_delete_ne.
      * apply Hall. right. exact Hid.
      * intros ->. contradiction.
Qed.

Lemma filter_expired_elem (clock : string -> Time) (w : World) (order : list string)
    (id : string) :
  id ∈ List.filter (is_expired_at clock w) order
  <-> id ∈ order /\ is_expired_at clock w id = true.
Proof. rewrite !list_elem_of_In. apply filter_In. Qed.

(** What is stored after a sweep. *)
Lemma CleanupExpiredSessions_lookup (clock : string -> Time) (order : list string)
    (w : World) (id : string) :
  visits order w ->
  sessions (snd (CleanupExpiredSessions clock order w)) !! id =
    match sessions w !! id with
    | Some s => if IsExpired (clock id) s (Timeout (config w)) then None else Some s
    | None => None
    end.
Proof.
  intros Hv. cbn [CleanupExpiredSessions snd]. rewrite sweep_lookup.
  destruct (decide (id ∈ List.filter (is_expired_at clock w) order)) as [Hin|Hnin].
  - apply filter_expired_elem in Hin. destruct Hin as [_ Hexp].
    unfold is_expired_at in Hexp. destruct (sessions w !! id); [|reflexivity].
    rewrite Hexp. reflexivity.
  - destruct (sessions w !! id) as [s|] eqn:Hs; [|reflexivity].
    destruct (IsExpired (clock id) s (Timeout (config w))) eqn:Hexp; [|reflexivity].
    exfalso. apply Hnin, filter_expired_elem. split.
    + apply (visits_elem _ _ _ Hv). eauto.
    + unfold is_expired_at. rewrite Hs. exact Hexp.
Qed.

Lemma CleanupExpiredSessions_config (clock : string -> Time) (order : list string)
    (w : World) :
  visits order w -> config (snd (CleanupExpiredSessions clock order w)) = config w.
Proof.
  intros Hv. cbn [CleanupExpiredSessions snd]. apply sweep_frame.
  apply NoDup_ListNoDup, List.NoDup_filter, NoDup_ListNoDup, (visits_NoDup _ _ Hv).
Qed.

(** X1: [CleanupExpiredSessions] removes exactly the sessions that are
    expired when the sweep looks at them and leaves every other record as it
    was; it returns the number of records removed; and it closes the
    connections of the removed sessions, each once, and no others. *)
Theorem CleanupExpiredSessions_sweeps (clock : string -> Time) (order : list string)
    (w : World) :
  visits order w ->
  let w' := snd (CleanupExpiredSessions clock order w) in
  (forall id,
     sessions w' !! id =
       match sessions w !! id with
       | Some s => if IsExpired (clock id) s (Timeout (config w)) then None else Some s
       | None => None
       end)
  /\ fst (CleanupExpiredSessions clock order w) = (session_count w - session_count w')%Z
  /\ closed w'
     = closed w ++ flat_map (fun id => default [] (session_handles <$> sessions w !! id))
                            (List.filter (is_expired_at clock w) order)
  /\ config w' = config w.
Proof.
  intros Hv. cbn [CleanupExpiredSessions fst snd].
  pose proof (visits_NoDup _ _ Hv) as Hnd.
  assert (Hnd' : NoDup (List.filter (is_expired_at clock w) order)).
  { apply NoDup_ListNoDup, List.NoDup_filter, NoDup_ListNoDup, Hnd. }
  destruct (sweep_frame _ w Hnd') as [Hcfg Hcl].
  split; [|split; [|split; assumption]].
  - intros id. exact (CleanupExpiredSessions_lookup clock order w id Hv).
  - pose proof (sweep_size _ w Hnd') as Hsize.
    unfold session_count. rewrite <- Hsize; [lia|].
    intros id Hid. apply filter_expired_elem in Hid.
    apply (visits_elem _ _ _ Hv), Hid.
Qed.

Lemma CleanupExpiredSessions_sweeps_witness :
  let order := (map_to_list (sessions world_two)).*1 in
  let w' := snd (CleanupExpiredSessions clock_40 order world_two) in
  sessions w' !! id_alice = None
  /\ sessions w' !! id_carol = Some session_carol
  /\ fst (CleanupExpiredSessions clock_40 order world_two) = 1%Z
  /\ closed w' = [SFTP 1; SSH 1].
Proof.
  intros order w'.
  destruct (CleanupExpiredSessions_sweeps clock_40 order world_two
              (Permutation_refl _)) as (Hlookup & Hcount & Hclosed & _).
  fold w' in Hlookup, Hcount, Hclosed.
  split; [rewrite Hlookup; vm_compute; reflexivity|].
  split; [rewrite Hlookup; vm_compute; reflexivity|].
  split; [rewrite Hcount; vm_compute; reflexivity|].
  rewrite Hclosed. vm_compute. reflexivity.
Defined.

(** X2: right after a sweep, no stored session is expired: a [GetSession]
    made at the instant of the sweep answers not-found or returns the
    session, never the expired error. *)
Theorem GetSession_after_sweep_never_expired (now now' : Time) (order : list string)
    (w : World) (sessionID : string) :
  visits order w ->
  let w' := snd (CleanupExpiredSessions (fun _ => now) order w) in
  fst (GetSession now now' sessionID w') <> Err ErrSessionExpired
  /\ (fst (GetSession now now' sessionID w') = Err ErrSessionNotFound
      <-> (sessions w !! sessionID = None \/ is_expired_at (fun _ => now) w sessionID = true)).
Proof.
  intros Hv w'.
  pose proof (CleanupExpiredSessions_lookup (fun _ => now) order w sessionID Hv) as Hlookup.
  pose proof (CleanupExpiredSessions_config (fun _ => now) order w Hv) as Hcfg.
  fold w' in Hlookup, Hcfg.
  unfold GetSession, is_expired_at. rewrite Hlookup, Hcfg.
  destruct (sessions w !! sessionID) as [s|] eqn:Hs.
  - destruct (IsExpired now s (Timeout (config w))) eqn:Hexp; cbn [fst].
    + split; [discriminate|]. split; [intros _; right; reflexivity | reflexivity].
    + rewrite Hexp. cbn [fst]. split; [discriminate|].
      split; [discriminate | intros [H|H]; discriminate].
  - cbn [fst]. split; [discriminate|]. split; [intros _; left; reflexivity | reflexivity].
Qed.

Lemma GetSession_after_sweep_never_expired_witness :
  let order := (map_to_list (sessions world_two)).*1 in
  let w' := snd (CleanupExpiredSessions (fun _ => (40 * Minute)%Z) order world_two) in
  fst (GetSession (40 * Minute)%Z (40 * Minute)%Z id_alice w') <> Err ErrSessionExpired
  /\ fst (GetSession (40 * Minute)%Z (40 * Minute)%Z id_alice w') = Err ErrSessionNotFound.
Proof.
  intros order w'.
  destruct (GetSession_after_sweep_never_expired (40 * Minute)%Z (40 * Minute)%Z order
              world_two id_alice (Permutation_refl _)) as (Hne & Hnf).
  split; [exact Hne|]. apply Hnf. right. vm_compute. reflexivity.
Defined.

(** ** Listing sessions and statistics *)




(** X4: the statistics are consistent: the number of active sessions is
    between zero and the total, the total is the size of the registry, and
    the two agree exactly when every stored session is active and
    unexpired. *)
Theorem GetStats_bounds (clock : string -> Time) (order : list string) (w : World) :
  visits order w ->
  (0 <= ActiveSessions (GetStats clock order w) <= TotalSessions (GetStats clock order w))%Z
  /\ TotalSessions (GetStats clock order w) = Z.of_nat (size (sessions w))
  /\ (ActiveSessions (GetStats clock order w) = TotalSessions (GetStats clock order w)
      <-> forall id s, sessions w !! id = Some s ->
                       IsExpired (clock id) s (Timeout (config w)) = false
                       /\ IsActive s = true).
Proof.
  intros Hv. unfold GetStats, session_count. cbn [ActiveSessions TotalSessions].
  rewrite <- (visits_length _ _ Hv).
  set (p := fun id : string =>
              match sessions w !! id with
              | Some session =>
                  negb (IsExpired (clock id) session (Timeout (config w))) && IsActive session
              | None => false
              end).
  pose proof (List.filter_length_le p order) as Hle.
  split; [lia|]. split; [reflexivity|].
  split.
  - intros Heq id s Hs.
    assert (Hlen : length (List.filter p order) = length order) by lia.
    assert (Hall : forall x, In x order -> p x = true).
    { clear -Hlen. induction order as [|a l IH]; [intros x []|].
      cbn [List.filter length] in Hlen.
      pose proof (List.filter_length_le p l) as Hle.
      destruct (p a) eqn:Ha; cbn [length] in Hlen; [|lia].
      intros x [<-|Hx]; [exact Ha | apply IH; [lia | exact Hx]]. }
    assert (Hin : In id order).
    { apply list_elem_of_In, (visits_elem _ _ _ Hv). eauto. }
    specialize (Hall id Hin). unfold p in Hall. rewrite Hs in Hall.
    apply andb_true_iff in Hall. destruct Hall as [H1 H2].
    apply negb_true_iff in H1. split; assumption.
  - intros Hall. f_equal.
    assert (Hp : forall x, In x order -> p x = true).
    { intros x Hx. apply list_elem_of_In, (visits_elem _ _ _ Hv) in Hx.
      destruct Hx as [s Hs]. unfold p. rewrite Hs.
      destruct (Hall x s Hs) as [-> ->]. reflexivity. }
    clear -Hp. induction order as [|a l IH]; [reflexivity|].
    cbn [List.filter]. rewrite (Hp a (or_introl eq_refl)). cbn [length].
    f_equal. apply IH. intros x Hx. apply Hp. right. exact Hx.
Qed.

Lemma GetStats_bounds_witness :
  let order := (map_to_list (sessions world_two)).*1 in
  GetStats clock_40 order world_two = mkSessionStats 1 2
  /\ (0 <= ActiveSessions (GetStats clock_40 order world_two)
      <= TotalSessions (GetStats clock_40 order world_two))%Z.
Proof.
  intros order. split; [vm_compute; reflexivity|].
  exact (proj1 (GetStats_bounds clock_40 order world_two (Permutation_refl _))).
Defined.

(** ** What the registry keeps *)

Lemma registry_ok_delete (w : World) (id : string) (log : list Handle) :
  registry_ok w ->
  registry_ok (with_sessions (delete id (sessions w)) (with_closed log w)).
Proof.
  intros Hok k s Hs. cbn [with_sessions sessions] in Hs.
  apply lookup_delete_Some in Hs. destruct Hs as [_ Hs]. exact (Hok k s Hs).
Qed.

Lemma registry_ok_sweep (ids : list string) :
  forall w, registry_ok w -> registry_ok (fold_left close_and_delete ids w).
Proof.
  induction ids as [|a ids IH]; intros w Hok; [exact Hok|].
  cbn [fold_left]. apply IH. intros k s Hs.
  rewrite close_and_delete_sessions in Hs.
  apply lookup_delete_Some in Hs. destruct Hs as [_ Hs]. exact (Hok k s Hs).
Qed.

(** X5: every stored session sits under its own id, is active and owns
    both of its clients; the empty registry is so, and [CreateSession],
    [GetSession], [DeleteSession] and [CleanupExpiredSessions] keep it so.
    Hence a session that [GetSession] returns carries the id asked for and
    an open SFTP client. *)
Theorem registry_ok_preserved (w : World) :
  registry_ok w ->
  (forall req env, registry_ok (snd (CreateSession req env w)))
  /\ (forall now now' id, registry_ok (snd (GetSession now now' id w)))
  /\ (forall id, registry_ok (snd (DeleteSession id w)))
  /\ (forall clock order, registry_ok (snd (CleanupExpiredSessions clock order w)))
  /\ (forall now now' id s w',
        GetSession now now' id w = (Ok s, w') ->
        ID s = id /\ IsActive s = true /\ is_Some (SFTPClient s)).
Proof.
  intros Hok. split; [|split; [|split; [|split]]].
  - intros req env. unfold CreateSession.
    destruct (create_check req w); [exact Hok|].
    unfold create_store. destruct (dial env); [|exact Hok].
    destruct (newClient env); [|exact Hok].
    destruct (generateSessionID (random env)) as [sid|]; [|exact Hok].
    intros k s Hs. cbn [snd with_sessions sessions] in Hs.
    apply lookup_insert_Some in Hs. destruct Hs as [[<- <-]|[_ Hs]].
    + cbn. repeat split; eauto.
    + exact (Hok k s Hs).
  - intros now now' id. unfold GetSession.
    destruct (sessions w !! id) as [s0|] eqn:Hs0; [|exact Hok].
    destruct (IsExpired now s0 (Timeout (config w))); [exact Hok|].
    intros k s Hs. cbn [snd with_sessions sessions] in Hs.
    apply lookup_insert_Some in Hs. destruct Hs as [[<- <-]|[_ Hs]].
    + exact (Hok id s0 Hs0).
    + exact (Hok k s Hs).
  - intros id. unfold DeleteSession.
    destruct (sessions w !! id) as [s0|]; [|exact Hok].
    destruct (Session_Close (closeErr w) s0 (closed w)) as [[s' log] err].
    apply registry_ok_delete. exact Hok.
  - intros clock order. apply registry_ok_sweep. exact Hok.
  - intros now now' id s w'. unfold GetSession.
    destruct (sessions w !! id) as [s0|] eqn:Hs0; [|discriminate].
    destruct (IsExpired now s0 (Timeout (config w))); [discriminate|].
    intros [= <- _]. destruct (Hok id s0 Hs0) as (H1 & H2 & _ & H4).
    repeat split; assumption.
Qed.

Lemma registry_ok_empty (maxSessions : Z) (srv : Server) :
  registry_ok (empty_world maxSessions srv).
Proof. intros id s Hs. cbn in Hs. rewrite lookup_empty in Hs. discriminate. Qed.

Lemma registry_ok_preserved_witness :
  registry_ok world_two
  /\ registry_ok (snd (DeleteSession id_alice world_two)).
Proof.
  assert (H0 : registry_ok (empty_world 5 no_server)) by apply registry_ok_empty.
  assert (H1 : registry_ok (world_alice 5 no_server))
    by exact (proj1 (registry_ok_preserved _ H0) alice env_alice).
  assert (H2 : registry_ok world_two)
    by exact (proj1 (registry_ok_preserved _ H1) carol env_carol).
  split; [exact H2|].
  exact (proj1 (proj2 (proj2 (registry_ok_preserved _ H2))) id_alice).
Defined.

(** ** Creating a session *)

(** X6: a session that [CreateSession] returned is found again under its
    id: as long as it has not been idle for longer than the timeout,
    [GetSession] with that id returns it, with nothing changed but the
    access time. *)
Theorem CreateSession_then_GetSession (req : LoginRequest) (env : CreateEnv)
    (w w' : World) (s : Session) (now now' : Time) :
  CreateSession req env w = (Ok s, w') ->
  (Since now (now_access env) <= Timeout (config w))%Z ->
  fst (GetSession now now' (ID s) w') = Ok (UpdateAccess now' s)
  /\ Username s = req_Username req /\ Host s = req_Host req /\ Port s = req_Port req
  /\ LastAccess s = now_access env.
Proof.
  unfold CreateSession, create_store. intros Hc Hidle.
  destruct (create_check req w); [discriminate|].
  destruct (dial env); [|discriminate].
  destruct (newClient env); [|discriminate].
  destruct (generateSessionID (random env)) as [sid|]; [|discriminate].
  injection Hc as <- <-. cbn [ID].
  unfold GetSession. cbn [with_sessions sessions config]. rewrite lookup_insert_eq.
  unfold IsExpired. cbn [LastAccess].
  destruct (Z.ltb_spec (Timeout (config w)) (Since now (now_access env))); [lia|].
  repeat split; reflexivity.
Qed.

Lemma CreateSession_then_GetSession_witness :
  fst (GetSession (10 * Minute)%Z (10 * Minute)%Z id_alice (world_alice 5 no_server))
  = Ok (UpdateAccess (10 * Minute)%Z session_alice).
Proof.
  exact (proj1 (CreateSession_then_GetSession alice env_alice (empty_world 5 no_server)
                  (world_alice 5 no_server) session_alice
                  (10 * Minute)%Z (10 * Minute)%Z eq_refl
                  ltac:(vm_compute; discriminate))).
Defined.

(** X7: [CreateSession] leaks no connection and touches the registry only
    on success.  When it returns an error the registry is unchanged and
    every connection the call obtained has been closed, the last obtained
    first; when it returns a session nothing has been closed and the
    session owns exactly the connections obtained. *)
Theorem CreateSession_no_leak (req : LoginRequest) (env : CreateEnv) (w : World) :
  match fst (CreateSession req env w) with
  | Err _ =>
      sessions (snd (CreateSession req env w)) = sessions w
      /\ closed (snd (CreateSession req env w))
         = closed w ++ rev (connections_made req env w)
  | Ok s =>
      closed (snd (CreateSession req env w)) = closed w
      /\ session_handles s = rev (connections_made req env w)
      /\ sessions (snd (CreateSession req env w)) = <[ID s := s]> (sessions w)
  end.
Proof.
  unfold CreateSession, connections_made, create_store.
  destruct (create_check req w); cbn [fst snd].
  - rewrite app_nil_r. split; reflexivity.
  - destruct (dial env) as [ssh|]; cbn [fst snd].
    + destruct (newClient env) as [sftp|]; cbn [fst snd].
      * destruct (generateSessionID (random env)) as [sid|]; cbn [fst snd].
        -- repeat split; reflexivity.
        -- split; reflexivity.
      * split; reflexivity.
    + rewrite app_nil_r. split; reflexivity.
Qed.

(** ** Closing a session *)

(** X8: [Session.Close] is safe to repeat: the first call closes each
    client the session owns once, marks it inactive and forgets both
    clients; a second call on the closed session closes nothing and returns
    nil. *)
Theorem Session_Close_idempotent (ce : Handle -> option error) (s : Session)
    (log : list Handle) :
  let '(s1, log1, _) := Session_Close ce s log in
  log1 = log ++ session_handles s
  /\ IsActive s1 = false /\ SSHClient s1 = None /\ SFTPClient s1 = None
  /\ Session_Close ce s1 log1 = (s1, log1, None).
Proof.
  unfold Session_Close, session_handles.
  destruct (SFTPClient s), (SSHClient s); cbn;
    rewrite <- ?app_assoc, ?app_nil_r; repeat split; reflexivity.
Qed.

(** ** Session ids *)

Lemma hex_pair_decodes (b : byte) :
  byte_of_hex (hexdigit (N.shiftr (Byte.to_N b) 4)) (hexdigit (N.land (Byte.to_N b) 15))
  = Some b.
Proof. destruct b; reflexivity. Qed.

Lemma hex_pair_is_hex (b : byte) :
  is_hex (hexdigit (N.shiftr (Byte.to_N b) 4)) = true
  /\ is_hex (hexdigit (N.land (Byte.to_N b) 15)) = true.
Proof. destruct b; split; reflexivity. Qed.

Lemma EncodeToString_length (src : list byte) :
  String.length (EncodeToString src) = (2 * length src)%nat.
Proof.
  induction src as [|b src IH]; [reflexivity|].
  cbn [EncodeToString String.length length]. rewrite IH. lia.
Qed.

Lemma EncodeToString_hex (src : list byte) :
  all_chars is_hex (EncodeToString src) = true.
Proof.
  induction src as [|b src IH]; [reflexivity|].
  cbn [EncodeToString all_chars].
  destruct (hex_pair_is_hex b) as [-> ->]. exact IH.
Qed.

Lemma EncodeToString_inj (a b : list byte) :
  EncodeToString a = EncodeToString b -> a = b.
Proof.
  revert b. induction a as [|x a IH]; intros [|y b] H; try discriminate; [reflexivity|].
  cbn [EncodeToString] in H. injection H as Hhi Hlo Hrest.
  pose proof (hex_pair_decodes x) as Hx. pose proof (hex_pair_decodes y) as Hy.
  rewrite Hhi, Hlo in Hx. rewrite Hx in Hy. injection Hy as ->.
  f_equal. apply IH. exact Hrest.
Qed.

(** X9: the id made from sixteen random bytes is a string of thirty-two
    lowercase hexadecimal digits, and different bytes give different ids:
    two calls collide only if the random source repeats itself. *)
Theorem generateSessionID_format (bytes : list byte) :
  length bytes = 16%nat ->
  exists id,
    generateSessionID (Ok bytes) = Ok id
    /\ String.length id = 32%nat
    /\ all_chars is_hex id = true
    /\ (forall bytes', generateSessionID (Ok bytes') = Ok id -> bytes' = bytes).
Proof.
  intros Hlen. exists (EncodeToString bytes). cbn [generateSessionID].
  split; [reflexivity|].
  split; [rewrite EncodeToString_length, Hlen; reflexivity|].
  split; [apply EncodeToString_hex|].
  intros bytes' [= H]. apply EncodeToString_inj. exact H.
Qed.

Lemma generateSessionID_format_witness :
  generateSessionID (Ok (repeat x0a 16)) = Ok "0a0a0a0a0a0a0a0a0a0a0a0a0a0a0a0a"
  /\ String.length id_alice = 32%nat.
Proof.
  destruct (generateSessionID_format (repeat x0a 16) eq_refl)
    as (id & Hid & Hlen & _ & _).
  split; [reflexivity|].
  cbn [generateSessionID] in Hid. injection Hid as <-. exact Hlen.
Defined.

(** ** Request validation *)

(** X10: [LoginRequest.Validate] accepts a request exactly when the host,
    the user name and the password are not empty and the port lies between
    1 and 65535; a request that fails several checks is reported for the
    first one, in the order host, port, user name, password. *)
Theorem LoginRequest_Validate_accepts (r : LoginRequest) :
  (LoginRequest_Validate r = None <->
     req_Host r <> "" /\ (1 <= req_Port r <= 65535)%Z
     /\ req_Username r <> "" /\ req_Password r <> "")
  /\ (req_Host r = "" -> LoginRequest_Validate r = Some ErrInvalidHost)
  /\ (req_Host r <> "" -> ~ (1 <= req_Port r <= 65535)%Z ->
      LoginRequest_Validate r = Some ErrInvalidPort)
  /\ (req_Host r <> "" -> (1 <= req_Port r <= 65535)%Z -> req_Username r = "" ->
      LoginRequest_Validate r = Some ErrInvalidUsername).
Proof.
  unfold LoginRequest_Validate.
  destruct (decide (req_Host r = "")) as [Hh|Hh].
  { split; [split; [discriminate | tauto]|]. repeat split; tauto. }
  destruct (Z.leb_spec (req_Port r) 0) as [Hp0|Hp0]; cbn [orb].
  { split; [split; [discriminate | lia]|]. repeat split; try tauto; intros; lia. }
  destruct (Z.ltb_spec 65535 (req_Port r)) as [Hp1|Hp1].
  { split; [split; [discriminate | lia]|]. repeat split; try tauto; intros; lia. }
  destruct (decide (req_Username r = "")) as [Hu|Hu].
  { split; [split; [discriminate | tauto]|]. repeat split; try tauto; intros; lia. }
  destruct (decide (req_Password r = "")) as [Hw|Hw].
  { split; [split; [discriminate | tauto]|]. repeat split; try tauto; intros; lia. }
  split; [split; [intros _; repeat split; try assumption; lia | reflexivity]|].
  repeat split; try tauto; intros; lia.
Qed.

(** X11: [FileListRequest.Validate] never fails, yields a request with a
    path and a view that are not empty and a page and a limit of at least
    one, leaves a request that already is so unchanged, and so has no
    further effect when applied twice. *)
Theorem FileListRequest_Validate_normalises (r : FileListRequest) :
  let r' := fst (FileListRequest_Validate r) in
  snd (FileListRequest_Validate r) = None
  /\ flr_Path r' <> "" /\ flr_View r' <> ""
  /\ (1 <= flr_Page r')%Z /\ (1 <= flr_Limit r')%Z
  /\ (flr_Path r <> "" -> flr_View r <> "" -> (1 <= flr_Page r)%Z -> (1 <= flr_Limit r)%Z ->
      r' = r)
  /\ FileListRequest_Validate r' = (r', None).
Proof.
  destruct r as [path view hidden filter page limit].
  unfold FileListRequest_Validate. cbn [fst snd flr_Path flr_View flr_Page flr_Limit
                                       flr_ShowHidden flr_Filter].
  destruct (bool_decide (path = "")) eqn:Hp;
    destruct (bool_decide (view = "")) eqn:Hv;
    destruct (Z.ltb_spec page 1) as [Hpg|Hpg];
    destruct (Z.ltb_spec limit 1) as [Hl|Hl];
    try apply bool_decide_eq_true in Hp; try apply bool_decide_eq_false in Hp;
    try apply bool_decide_eq_true in Hv; try apply bool_decide_eq_false in Hv;
    rewrite ?(bool_decide_eq_false_2 _ Hp), ?(bool_decide_eq_false_2 _ Hv);
    cbn [bool_decide];
    repeat match goal with
           | |- context [Z.ltb ?a ?b] => destruct (Z.ltb_spec a b); try lia
           end;
    repeat split; try discriminate; try lia; try assumption; try reflexivity;
    intros; try contradiction; try lia.
Qed.

(** ** Filters *)





(** ** The order of a listing *)















(** ** Listings *)



Lemma listing_calls_app (l1 l2 : list Event) :
  listing_calls (l1 ++ l2) = listing_calls l1 ++ listing_calls l2.
Proof. apply omap_app. Qed.

(** One turn of the loop of [GetMultipleFiles] over a sink that accepts
    every write. *)
Lemma get_one_log (srv : Server) (filePath : string) (z : ZipWriter) :
  (forall k, sink z k = true) ->
  sink (get_one srv filePath z) = sink z
  /\ exists d,
       events (get_one srv filePath z) = events z ++ RemoteStat filePath :: d
       /\ stat_calls d = [] /\ zip_closes d = [] /\ listing_calls d = []
       /\ entry_names d = match srv filePath with
                          | Ok (RFile _ (Ok _)) => [Base filePath]
                          | _ => []
                          end.
Proof.
  intros Hok. unfold get_one, Open, zip_Create, io_Copy, emit. cbn [sink ops events].
  destruct (srv filePath) as [[info [[data rerr] | e] | info listing] | e];
    cbn [IsDir sink ops events fst snd].
  - rewrite Hok. cbn [negb].
    destruct data as [|b data]; cbn [sink ops events fst snd].
    + split; [reflexivity|]. eexists.
      split; [rewrite <- !app_assoc; reflexivity|]. repeat split; reflexivity.
    + rewrite Hok. split; [reflexivity|]. eexists.
      split; [rewrite <- !app_assoc; reflexivity|]. repeat split; reflexivity.
  - split; [reflexivity|]. eexists.
    split; [rewrite <- !app_assoc; reflexivity|]. repeat split; reflexivity.
  - split; [reflexivity|]. exists []. repeat split; reflexivity.
  - split; [reflexivity|]. exists []. repeat split; reflexivity.
Qed.

Lemma get_loop_log (srv : Server) (filePaths : list string) :
  forall z : ZipWriter,
    (forall k, sink z k = true) ->
    sink (fold_left (fun z filePath => get_one srv filePath z) filePaths z) = sink z
    /\ exists d,
         events (fold_left (fun z filePath => get_one srv filePath z) filePaths z)
           = events z ++ d
         /\ stat_calls d = filePaths /\ zip_closes d = [] /\ listing_calls d = []
         /\ entry_names d
            = omap (fun p => match srv p with
                             | Ok (RFile _ (Ok _)) => Some (Base p)
                             | _ => None
                             end) filePaths.
Proof.
  induction filePaths as [|p rest IH]; intros z Hok; cbn [fold_left omap].
  - split; [reflexivity|]. exists []. rewrite app_nil_r. repeat split; reflexivity.
  - destruct (get_one_log srv p z Hok) as (Hs1 & d1 & He1 & Hst1 & Hcl1 & Hls1 & Hn1).
    destruct (IH (get_one srv p z)) as (Hs2 & d2 & He2 & Hst2 & Hcl2 & Hls2 & Hn2).
    { intros k. rewrite Hs1. apply Hok. }
    split; [congruence|].
    exists (RemoteStat p :: d1 ++ d2).
    split; [rewrite He2, He1, <- !app_assoc; reflexivity|].
    change (RemoteStat p :: d1 ++ d2) with ([RemoteStat p] ++ d1 ++ d2).
    split; [rewrite !stat_calls_app, Hst1, Hst2; reflexivity|].
    split; [rewrite !zip_closes_app, Hcl1, Hcl2; reflexivity|].
    split; [rewrite !listing_calls_app, Hls1, Hls2; reflexivity|].
    rewrite !entry_names_app, Hn1, Hn2. cbn [omap list_omap].
    destruct (srv p) as [[info [file | e] | info listing] | e]; reflexivity.
Qed.
(** ** Further file operations on a validated session *)

Section ValidSessionFiles.

Variables (now now' : Time) (sessionID : string) (w w' : World) (s : Session) (c : nat).
Hypothesis session_valid : GetSession now now' sessionID w = (Ok s, w').
Hypothesis client_open : SFTPClient s = Some c.

Lemma GetFile_reader (filePath : string) :
  match fst (fst (GetFile now now' sessionID filePath w)) with
  | Returns (Ok _) => Some (Base filePath)
  | _ => None
  end
  = match remote w c filePath with
    | Ok (RFile _ (Ok _)) => Some (Base filePath)
    | _ => None
    end.
Proof.
  unfold GetFile, Open.
  rewrite session_valid, client_open, (GetSession_remote _ _ _ _ _ _ session_valid).
  destruct (remote w c filePath) as [[info [file | e] | info listing] | e]; reflexivity.
Qed.


(** X15: [GetMultipleFiles] looks at every requested path once, in order,
    never lists a directory, and builds a flat archive: one entry, named by
    the last element of the path, for exactly those paths for which
    [GetFile] hands out a reader; the writer is closed once, at the end, and
    the call returns nil. *)
Theorem GetMultipleFiles_flat_archive (filePaths : list string) :
  exists body,
    GetMultipleFiles now now' sessionID filePaths w
      = (Returns None, w', body ++ [ZipClose true])
    /\ stat_calls body = filePaths
    /\ zip_closes body = []
    /\ listing_calls body = []
    /\ entry_names body
       = omap (fun p => match fst (fst (GetFile now now' sessionID p w)) with
                        | Returns (Ok _) => Some (Base p)
                        | _ => None
                        end) filePaths.
Proof.
  destruct (get_loop_log (remote w c) filePaths (NewWriter (fun _ => true)))
    as (Hs & d & He & Hst & Hcl & Hls & Hn); [reflexivity|].
  exists d. split.
  { unfold GetMultipleFiles.
    rewrite session_valid, client_open, (GetSession_remote _ _ _ _ _ _ session_valid).
    unfold zip_Close. cbn [events]. rewrite He, Hs. reflexivity. }
  split; [exact Hst|]. split; [exact Hcl|]. split; [exact Hls|].
  rewrite Hn. clear - session_valid client_open. induction filePaths as [|p rest IH]; [reflexivity|].
  cbn [omap list_omap]. rewrite GetFile_reader, IH. reflexivity.
Qed.

End ValidSessionFiles.


Lemma GetMultipleFiles_flat_archive_witness :
  let w := world_alice 5 (home_server unopenable) in
  exists log,
    GetMultipleFiles 60%Z 61%Z id_alice
      ["/home/alice/fileA.txt"; "/home/alice/dirB"; "/lost"; "/home/alice/dirB/../script.py"] w
      = (Returns None, snd (GetSession 60%Z 61%Z id_alice w), log)
    /\ entry_names log = ["fileA.txt"].
Proof.
  intros w.
  destruct (GetMultipleFiles_flat_archive 60%Z 61%Z id_alice
              w (snd (GetSession 60%Z 61%Z id_alice w))
              (UpdateAccess 61%Z session_alice) 1%nat
              ltac:(vm_compute; reflexivity) eq_refl
              ["/home/alice/fileA.txt"; "/home/alice/dirB"; "/lost";
               "/home/alice/dirB/../script.py"])
    as (body & Heq & _ & _ & _ & Hn).
  eexists. split; [exact Heq|].
  rewrite entry_names_app, Hn. vm_compute. reflexivity.
Defined.
(** ** Breadcrumbs *)

Lemma join_first_char (cs : list string) :
  cs <> [] -> Forall (fun x => plain_name x = true) cs ->
  exists ch rest, join_slash cs = String ch rest /\ Ascii.eqb ch slash = false.
Proof.
  intros Hne Hall. destruct cs as [|c cs]; [contradiction|].
  inversion Hall as [|? ? Hc _]; subst.
  apply plain_name_spec in Hc. destruct Hc as (Hc & _ & _ & Hs).
  destruct c as [|ch z]; [contradiction|].
  cbn [has_slash] in Hs. apply orb_false_iff in Hs. destruct Hs as [Hch _].
  destruct cs as [|c' cs].
  - exists ch, z. split; [reflexivity | exact Hch].
  - exists ch, (z +:+ "/" +:+ join_slash (c' :: cs)). split; [reflexivity | exact Hch].
Qed.

Lemma Clean_relative_plain (cs : list string) :
  cs <> [] -> Forall (fun x => plain_name x = true) cs ->
  Clean (join_slash cs) = join_slash cs.
Proof.
  intros Hne Hall. destruct (join_first_char cs Hne Hall) as (ch & rest & Hj & Hch).
  unfold Clean. destruct (join_slash cs) as [|a p] eqn:Hj'; [discriminate|].
  injection Hj as -> ->. rewrite Hch. rewrite <- Hj'.
  rewrite split_join by (try exact Hne; apply plain_no_slash; exact Hall).
  rewrite (fold_clean_plain false _ Hall). cbn [app].
  destruct cs; [contradiction | reflexivity].
Qed.

Lemma Join_relative_plain (pre : list string) (part : string) :
  Forall (fun x => plain_name x = true) pre -> plain_name part = true ->
  Join (join_slash pre) part = join_slash (pre ++ [part]).
Proof.
  intros Hpre Hpart.
  assert (Hn : part <> "") by (apply plain_name_spec in Hpart; tauto).
  assert (Hall : Forall (fun x => plain_name x = true) (pre ++ [part])).
  { apply Forall_app. split; [exact Hpre | constructor; [exact Hpart | constructor]]. }
  unfold Join. rewrite (bool_decide_eq_false_2 _ Hn).
  destruct pre as [|c pre].
  - cbn [join_slash app]. rewrite bool_decide_eq_true_2 by reflexivity.
    apply (Clean_relative_plain [part]); [discriminate | exact Hall].
  - destruct (join_first_char (c :: pre)) as (ch & rest & Hj & _);
      [discriminate | exact Hpre |].
    rewrite bool_decide_eq_false_2 by (rewrite Hj; discriminate).
    rewrite <- join_snoc by discriminate.
    apply Clean_relative_plain; [discriminate | exact Hall].
Qed.

Lemma TrimLeft_relative (s : string) :
  HasPrefix s "/" = false -> TrimLeft (in_cutset "/") s = s.
Proof.
  destruct s as [|ch rest]; [reflexivity|]. rewrite HasPrefix_cons. intros Hch.
  apply bool_decide_eq_false_1 in Hch. cbn [TrimLeft in_cutset existsb list_ascii_of_string].
  destruct (Ascii.eqb_spec ch "/"); [contradiction | reflexivity].
Qed.

Lemma TrimRight_no_slash (e : string) :
  has_slash e = false -> TrimRight (in_cutset "/") e = e.
Proof.
  induction e as [|ch e IH]; [reflexivity|]. cbn [has_slash]. intros Hs.
  apply orb_false_iff in Hs. destruct Hs as [Hch Hs]. cbn [TrimRight].
  rewrite (IH Hs). destruct e; [|reflexivity].
  cbn [in_cutset existsb list_ascii_of_string]. unfold slash in Hch. rewrite Hch. reflexivity.
Qed.

Lemma TrimRight_append (cut : ascii -> bool) (a b : string) :
  b <> "" -> TrimRight cut b = b -> TrimRight cut (a +:+ b) = a +:+ b.
Proof.
  intros Hne Hb. induction a as [|ch a IH]; [exact Hb|].
  change (String ch a +:+ b) with (String ch (a +:+ b)). cbn [TrimRight]. rewrite IH.
  destruct (a +:+ b) eqn:Hab; [|reflexivity].
  destruct a; [contradiction | discriminate].
Qed.

Lemma Trim_clean_absolute (cs : list string) :
  Forall (fun x => plain_name x = true) cs ->
  Trim ("/" +:+ join_slash cs) "/" = join_slash cs.
Proof.
  intros Hall. unfold Trim.
  change ("/" +:+ join_slash cs) with (String "/" (join_slash cs)).
  change (TrimLeft (in_cutset "/") (String "/" (join_slash cs)))
    with (TrimLeft (in_cutset "/") (join_slash cs)).
  destruct cs as [|c cs _] using rev_ind; [reflexivity|].
  assert (Hne : c :: cs <> []) by discriminate.
  rewrite TrimLeft_relative.
  2:{ destruct (join_first_char (cs ++ [c])) as (ch & rest & -> & Hch);
        [destruct cs; discriminate | exact Hall |].
      rewrite HasPrefix_cons. apply bool_decide_eq_false_2. intros ->. discriminate. }
  apply Forall_app in Hall. destruct Hall as [_ Hc].
  inversion Hc as [|? ? Hplain _]; subst.
  apply plain_name_spec in Hplain. destruct Hplain as (Hc0 & _ & _ & Hs).
  destruct cs as [|c' cs].
  - apply TrimRight_no_slash. exact Hs.
  - rewrite join_snoc by discriminate. rewrite <- append_assoc.
    apply TrimRight_append; [exact Hc0 | apply TrimRight_no_slash; exact Hs].
Qed.

Lemma breadcrumb_parts_plain (rest : list string) :
  Forall (fun x => plain_name x = true) rest ->
  forall pre,
    Forall (fun x => plain_name x = true) pre ->
    length (breadcrumb_parts rest (join_slash pre)) = length rest
    /\ forall k part,
         rest !! k = Some part ->
         breadcrumb_parts rest (join_slash pre) !! k
         = Some (mkBreadcrumb part ("/" +:+ join_slash (pre ++ take (S k) rest))).
Proof.
  induction 1 as [|r rest Hr Hrest IH]; intros pre Hpre.
  - split; [reflexivity | intros k part Hk; discriminate].
  - cbn [breadcrumb_parts].
    rewrite bool_decide_eq_false_2 by (apply plain_name_spec in Hr; tauto).
    rewrite (Join_relative_plain pre r Hpre Hr).
    destruct (IH (pre ++ [r])) as [Hlen Hk].
    { apply Forall_app. split; [exact Hpre | constructor; [exact Hr | constructor]]. }
    split; [cbn [length]; rewrite Hlen; reflexivity|].
    intros [|k] part Hpart; cbn in Hpart.
    + injection Hpart as <-. reflexivity.
    + refine (eq_trans (Hk k part Hpart) _).
      cbn [firstn]. rewrite <- app_assoc. reflexivity.
Qed.

(** X16: for a clean absolute path [/c1/.../cn], [GetBreadcrumbs] returns
    the [Home] crumb for the root followed by one crumb per element, in
    order: the crumb of the [k]-th element bears its name and the path
    [/c1/.../ck], so the last crumb points to the path itself. *)
Theorem GetBreadcrumbs_clean_path (cs : list string) :
  Forall (fun x => plain_name x = true) cs ->
  let crumbs := GetBreadcrumbs ("/" +:+ join_slash cs) in
  length crumbs = S (length cs)
  /\ crumbs !! 0%nat = Some (mkBreadcrumb "Home" "/")
  /\ (forall k part,
        cs !! k = Some part ->
        crumbs !! S k
        = Some (mkBreadcrumb part ("/" +:+ join_slash (take (S k) cs))))
  /\ (cs <> [] -> bc_Path <$> last crumbs = Some ("/" +:+ join_slash cs)).
Proof.
  intros Hall crumbs. subst crumbs. unfold GetBreadcrumbs.
  destruct cs as [|c cs].
  { cbn. split; [reflexivity|]. split; [reflexivity|].
    split; [intros k part Hk; discriminate | intros H; contradiction]. }
  destruct (join_first_char (c :: cs)) as (ch & rest & Hj & _); [discriminate | exact Hall |].
  rewrite bool_decide_eq_false_2 by discriminate.
  rewrite bool_decide_eq_false_2.
  2:{ rewrite Hj. discriminate. }
  cbn [orb]. rewrite (Trim_clean_absolute _ Hall).
  rewrite split_join by (try discriminate; apply plain_no_slash; exact Hall).
  destruct (breadcrumb_parts_plain (c :: cs) Hall [] ltac:(constructor)) as [Hlen Hk].
  change (join_slash []) with "" in *.
  split; [cbn [length] in *; rewrite Hlen; reflexivity|].
  split; [reflexivity|].
  split; [intros k part Hpart; exact (Hk k part Hpart)|].
  intros _. rewrite last_lookup. cbn [length pred].
  destruct (lookup_lt_is_Some_2 (c :: cs) (pred (length (c :: cs)))) as [part Hpart];
    [cbn [length]; lia|].
  rewrite Hlen. cbn [length pred] in *.
  change ((mkBreadcrumb "Home" "/" :: breadcrumb_parts (c :: cs) "") !! S (length cs))
    with (breadcrumb_parts (c :: cs) "" !! length cs).
  rewrite (Hk _ _ Hpart). cbn [fmap option_fmap option_map bc_Path app].
  rewrite firstn_all2 by (cbn [length]; lia). reflexivity.
Qed.

Lemma GetBreadcrumbs_clean_path_witness :
  GetBreadcrumbs "/home/alice/docs"
  = [mkBreadcrumb "Home" "/"; mkBreadcrumb "home" "/home";
     mkBreadcrumb "alice" "/home/alice"; mkBreadcrumb "docs" "/home/alice/docs"]
  /\ length (GetBreadcrumbs "/home/alice/docs") = 4%nat.
Proof.
  split; [reflexivity|].
  exact (proj1 (GetBreadcrumbs_clean_path ["home"; "alice"; "docs"]
                  ltac:(repeat constructor))).
Defined.

(** ** Deleting *)

Lemma GetSession_client (now now' : Time) (sessionID : string) (w w' : World) (s : Session) :
  GetSession now now' sessionID w = (Ok s, w') ->
  exists s0, sessions w !! sessionID = Some s0 /\ SFTPClient s0 = SFTPClient s
             /\ sessions w' !! sessionID = Some s.
Proof.
  unfold GetSession. destruct (sessions w !! sessionID) as [s0|] eqn:Hs; [|discriminate].
  destruct (IsExpired now s0 (Timeout (config w))); [discriminate|].
  intros [= <- <-]. exists s0. split; [reflexivity|]. split; [reflexivity|].
  cbn. apply lookup_insert_eq.
Qed.

Lemma GetSession_failure (now now' : Time) (sessionID : string) (w w' : World) (e : error) :
  GetSession now now' sessionID w = (Err e, w') -> w' = w.
Proof.
  unfold GetSession. destruct (sessions w !! sessionID) as [s0|]; [|congruence].
  destruct (IsExpired now s0 (Timeout (config w))); congruence.
Qed.

(** What one [DeleteFile] call does: at most one removal call, for its own
    path, and one whenever it returns nil; it panics only on a session
    without SFTP client; the client of the session stays as it was. *)
Lemma DeleteFile_calls {R : Type} (ops : RemoteOps R) (now now' : Time)
    (sessionID filePath : string) (w : World) (r : R) :
  let '(out, w', _, calls) := DeleteFile ops now now' sessionID filePath w r in
  (removal_calls calls = [] \/ removal_calls calls = [filePath])
  /\ (out = Returns None -> removal_calls calls = [filePath])
  /\ (out = Panics ->
      exists s, sessions w !! sessionID = Some s /\ SFTPClient s = None)
  /\ (SFTPClient <$> sessions w' !! sessionID) = (SFTPClient <$> sessions w !! sessionID).
Proof.
  unfold DeleteFile.
  destruct (GetSession now now' sessionID w) as [[s|e] w'] eqn:Hget.
  - destruct (GetSession_client _ _ _ _ _ _ Hget) as (s0 & Hs0 & Hc & Hs).
    assert (Hkeep : (SFTPClient <$> sessions w' !! sessionID)
                    = (SFTPClient <$> sessions w !! sessionID)).
    { rewrite Hs, Hs0. cbn. rewrite Hc. reflexivity. }
    destruct (SFTPClient s) as [c|] eqn:Hcl.
    + destruct (rs_Stat ops c filePath r) as [[stat|e] r1].
      * destruct (IsDir stat).
        { destruct (rs_RemoveDirectory ops c filePath r1) as [err r2].
          split; [right; reflexivity|]. split; [reflexivity|].
          split; [discriminate | exact Hkeep]. }
        { destruct (rs_Remove ops c filePath r1) as [err r2].
          split; [right; reflexivity|]. split; [reflexivity|].
          split; [discriminate | exact Hkeep]. }
      * split; [left; reflexivity|]. split; [discriminate|].
        split; [discriminate | exact Hkeep].
    + split; [left; reflexivity|]. split; [discriminate|].
      split; [|exact Hkeep]. intros _. exists s0. split; [exact Hs0 | congruence].
  - apply GetSession_failure in Hget. subst w'.
    split; [left; reflexivity|]. split; [discriminate|].
    split; [discriminate | reflexivity].
Qed.

Lemma removal_calls_app (l1 l2 : list Call) :
  removal_calls (l1 ++ l2) = removal_calls l1 ++ removal_calls l2.
Proof. apply omap_app. Qed.

Lemma delete_loop_accounts {R : Type} (ops : RemoteOps R) (clock : nat -> Time * Time)
    (sessionID : string) (filePaths : list string) :
  forall (i : nat) (deleted failed : list string) (w : World) (r : R) (log : list Call),
    let '(out, _, _, log') :=
      delete_loop ops clock i sessionID filePaths deleted failed w r log in
    match out with
    | Returns (deleted', failed') =>
        exists d f calls,
          deleted' = deleted ++ d /\ failed' = failed ++ f /\ log' = log ++ calls
          /\ d ++ f ≡ₚ filePaths
          /\ d `sublist_of` filePaths /\ f `sublist_of` filePaths
          /\ d `sublist_of` removal_calls calls
          /\ removal_calls calls `sublist_of` filePaths
    | Panics =>
        filePaths <> []
        /\ exists s, sessions w !! sessionID = Some s /\ SFTPClient s = None
    end.
Proof.
  induction filePaths as [|p rest IH]; intros i deleted failed w r log.
  - cbn [delete_loop]. exists [], [], []. rewrite !app_nil_r.
    repeat split; try reflexivity; constructor.
  - cbn [delete_loop].
    pose proof (DeleteFile_calls ops (fst (clock i)) (snd (clock i)) sessionID p w r) as Hone.
    destruct (DeleteFile ops (fst (clock i)) (snd (clock i)) sessionID p w r)
      as [[[out w1] r1] calls1].
    destruct Hone as (Hrc & Hnil & Hpanic & Hkeep).
    destruct out as [[e|]|].
    + specialize (IH (S i) deleted (failed ++ [p]) w1 r1 (log ++ calls1)).
      destruct (delete_loop ops clock (S i) sessionID rest deleted (failed ++ [p])
                            w1 r1 (log ++ calls1)) as [[[out2 w2] r2] log2].
      destruct out2 as [[deleted' failed']|].
      * destruct IH as (d & f & calls & -> & -> & -> & Hperm & Hd & Hf & Hdr & Hrp).
        exists d, (p :: f), (calls1 ++ calls).
        split; [reflexivity|]. split; [rewrite <- app_assoc; reflexivity|].
        split; [rewrite <- app_assoc; reflexivity|].
        split; [rewrite <- Permutation_middle; constructor; exact Hperm|].
        split; [apply sublist_cons; exact Hd|].
        split; [apply sublist_skip; exact Hf|].
        rewrite removal_calls_app.
        split; [apply sublist_inserts_l; exact Hdr|].
        destruct Hrc as [-> | ->]; [apply sublist_cons | apply sublist_skip]; exact Hrp.
      * destruct IH as (_ & s & Hs & Hc). split; [discriminate|].
        rewrite Hs in Hkeep. cbn in Hkeep.
        destruct (sessions w !! sessionID) as [s0|]; [|discriminate].
        exists s0. split; [reflexivity|]. cbn in Hkeep. congruence.
    + specialize (IH (S i) (deleted ++ [p]) failed w1 r1 (log ++ calls1)).
      destruct (delete_loop ops clock (S i) sessionID rest (deleted ++ [p]) failed
                            w1 r1 (log ++ calls1)) as [[[out2 w2] r2] log2].
      destruct out2 as [[deleted' failed']|].
      * destruct IH as (d & f & calls & -> & -> & -> & Hperm & Hd & Hf & Hdr & Hrp).
        exists (p :: d), f, (calls1 ++ calls).
        split; [rewrite <- app_assoc; reflexivity|]. split; [reflexivity|].
        split; [rewrite <- app_assoc; reflexivity|].
        split; [cbn [app]; constructor; exact Hperm|].
        split; [apply sublist_skip; exact Hd|].
        split; [apply sublist_cons; exact Hf|].
        rewrite removal_calls_app, (Hnil eq_refl).
        split; apply sublist_skip; assumption.
      * destruct IH as (_ & s & Hs & Hc). split; [discriminate|].
        rewrite Hs in Hkeep. cbn in Hkeep.
        destruct (sessions w !! sessionID) as [s0|]; [|discriminate].
        exists s0. split; [reflexivity|]. cbn in Hkeep. congruence.
    + split; [discriminate|]. apply Hpanic. reflexivity.
Qed.

Lemma delete_loop_no_session {R : Type} (ops : RemoteOps R) (clock : nat -> Time * Time)
    (sessionID : string) (w : World) (r : R) (filePaths : list string) :
  sessions w !! sessionID = None ->
  forall (i : nat) (deleted failed : list string) (log : list Call),
    delete_loop ops clock i sessionID filePaths deleted failed w r log
    = (Returns (deleted, failed ++ filePaths), w, r, log).
Proof.
  intros Hnone. induction filePaths as [|p rest IH]; intros i deleted failed log.
  - rewrite app_nil_r. reflexivity.
  - cbn [delete_loop]. unfold DeleteFile, GetSession. rewrite Hnone.
    rewrite IH, app_nil_r, <- app_assoc. reflexivity.
Qed.

(** X17: [DeleteMultipleFiles] accounts for every requested path exactly
    once: the deleted and the failed paths are each in request order and
    together make up the request; every path reported as deleted had its
    removal call, and there is at most one removal call per requested path.
    With an unknown session id every path is reported as failed and no
    remote call is made.  The call panics only when the stored session has
    no SFTP client. *)
Theorem DeleteMultipleFiles_accounts {R : Type} (ops : RemoteOps R)
    (clock : nat -> Time * Time) (sessionID : string) (filePaths : list string)
    (w : World) (r : R) :
  match DeleteMultipleFiles ops clock sessionID filePaths w r with
  | (Returns (deleted, failed), _, _, log) =>
      deleted ++ failed ≡ₚ filePaths
      /\ deleted `sublist_of` filePaths /\ failed `sublist_of` filePaths
      /\ deleted `sublist_of` removal_calls log
      /\ removal_calls log `sublist_of` filePaths
  | (Panics, _, _, _) =>
      filePaths <> []
      /\ exists s, sessions w !! sessionID = Some s /\ SFTPClient s = None
  end
  /\ (sessions w !! sessionID = None ->
      DeleteMultipleFiles ops clock sessionID filePaths w r
      = (Returns ([], filePaths), w, r, [])).
Proof.
  unfold DeleteMultipleFiles. split.
  - pose proof (delete_loop_accounts ops clock sessionID filePaths 0 [] [] w r []) as H.
    destruct (delete_loop ops clock 0 sessionID filePaths [] [] w r [])
      as [[[out w'] r'] log'].
    destruct out as [[deleted failed]|]; [|exact H].
    destruct H as (d & f & calls & -> & -> & -> & H). exact H.
  - intros Hnone. apply (delete_loop_no_session ops clock sessionID w r filePaths Hnone).
Qed.

(** A request that names a file, a directory that is not empty, an empty
    directory and the file once more. *)
Lemma DeleteMultipleFiles_example :
  let run :=
    DeleteMultipleFiles memory_server (fun _ => (60%Z, 61%Z)) id_alice
      ["/home/alice/fileA.txt"; "/home/alice/dirB"; "/home/alice/empty";
       "/home/alice/fileA.txt"]
      (world_alice 5 no_server) memory_files in
  fst (fst (fst run))
  = Returns (["/home/alice/fileA.txt"; "/home/alice/empty"],
             ["/home/alice/dirB"; "/home/alice/fileA.txt"])
  /\ removal_calls (snd run)
     = ["/home/alice/fileA.txt"; "/home/alice/dirB"; "/home/alice/empty"].
Proof. vm_compute. split; reflexivity. Qed.
(** ** Uploading *)

Section ValidSessionChanges.

Context {R : Type} (ops : RemoteOps R).
Variables (now now' : Time) (sessionID : string) (w w' : World) (s : Session) (c : nat).
Hypothesis session_valid : GetSession now now' sessionID w = (Ok s, w').
Hypothesis client_open : SFTPClient s = Some c.

(** X18: [UploadFile] on a validated session.  Without [overwrite], a
    destination that [Stat] finds is left alone: the call answers
    ["file already exists"] and issues no call that changes anything; when
    that [Stat] fails, for whatever reason, the file is created.  The file
    is closed only if it was created, and nothing is ever removed, so a
    failed copy leaves the created file behind.  The call returns nil only
    when the source was read to its end without error, and then the calls
    were: the [Stat] (without [overwrite]), the [Create], one write of the
    whole content unless it is empty, and the [Close]. *)
Theorem UploadFile_guards (destPath : string) (src : list byte * option error)
    (overwrite : bool) (r : R) :
  exists out r' log,
    UploadFile ops now now' sessionID destPath src overwrite w r = (Returns out, w', r', log)
    /\ (overwrite = false ->
        forall n r1, rs_Stat ops c destPath r = (Ok n, r1) ->
        out = Some (Errorf "file already exists") /\ log = [CallStat destPath] /\ r' = r1)
    /\ (overwrite = false ->
        forall e r1, rs_Stat ops c destPath r = (Err e, r1) ->
        CallCreate destPath ∈ log)
    /\ (CallClose destPath ∈ log -> CallCreate destPath ∈ log)
    /\ removal_calls log = []
    /\ (out = None ->
        snd src = None
        /\ log = (if overwrite then [] else [CallStat destPath])
                 ++ [CallCreate destPath]
                 ++ match fst src with
                    | [] => []
                    | data => [CallWrite destPath data]
                    end
                 ++ [CallClose destPath]).
Proof.
  unfold UploadFile, upload_Copy. rewrite session_valid, client_open.
  destruct src as [data rerr]. cbn [fst snd].
  destruct overwrite;
    [|destruct (rs_Stat ops c destPath r) as [[n|e] r1] eqn:Hstat];
    try (destruct (rs_Create ops c destPath _) as [[e'|] r2] eqn:Hcreate);
    try (destruct data as [|b data]);
    try (destruct (rs_Write ops c destPath _ _) as [[e''|] r3] eqn:Hwrite);
    try (destruct (rs_Close ops c destPath _) as [cerr r4] eqn:Hclose);
    try destruct rerr;
    eexists _, _, _; (split; [reflexivity|]);
    (split; [intros Ho; try discriminate Ho; intros ? ? Heq; inversion Heq; subst; auto|]);
    (split; [intros Ho; try discriminate Ho; intros ? ? Heq; inversion Heq; subst; simpl; rewrite !elem_of_cons; tauto|]);
    (split; [simpl; rewrite !elem_of_cons, ?elem_of_nil;
             intuition (try discriminate; auto)|]);
    (split; [reflexivity|]);
    intros Hnil; inversion Hnil; split; reflexivity.
Qed.

End ValidSessionChanges.
Lemma UploadFile_guards_witness :
  let w := world_alice 5 no_server in
  exists r' log,
    UploadFile memory_server 60%Z 61%Z id_alice "/home/alice/fileA.txt"
               ([x6e; x65; x77], None) false w memory_files
    = (Returns (Some (Errorf "file already exists")),
       snd (GetSession 60%Z 61%Z id_alice w), r', log)
    /\ log = [CallStat "/home/alice/fileA.txt"].
Proof.
  intros w.
  destruct (UploadFile_guards memory_server 60%Z 61%Z id_alice
              w (snd (GetSession 60%Z 61%Z id_alice w))
              (UpdateAccess 61%Z session_alice) 1%nat
              ltac:(vm_compute; reflexivity) eq_refl
              "/home/alice/fileA.txt" ([x6e; x65; x77], None) false memory_files)
    as (out & r' & log & Heq & Hguard & _).
  destruct (Hguard eq_refl fileA memory_files ltac:(vm_compute; reflexivity))
    as (-> & -> & ->).
  eexists _, _. split; [exact Heq | reflexivity].
Defined.

(** ** Operations without a valid session *)

Section NoSession.

Context {R : Type} (ops : RemoteOps R).
Variables (now now' : Time) (sessionID : string) (w : World) (e : error).
Hypothesis session_refused : fst (GetSession now now' sessionID w) = Err e.

Lemma refused_lookup : GetSession now now' sessionID w = (Err e, w).
Proof.
  destruct (GetSession now now' sessionID w) as [res w0] eqn:Hget.
  cbn in session_refused. subst res.
  rewrite (GetSession_failure _ _ _ _ _ _ Hget). reflexivity.
Qed.

(** X19: no file operation reaches the remote side without a valid
    session.  When the session lookup fails, which it does only for an
    unknown id or an expired session, every operation returns that error
    ([DownloadMultiple] wraps it), issues no remote call, writes nothing to
    the archive, not even its trailer, and leaves the registry and the
    remote side as they were. *)
Theorem FileService_requires_session
    (sortSlice : (FileInfo -> FileInfo -> bool) -> list FileInfo -> list FileInfo)
    (path filter : string) (showHidden overwrite : bool) (maxSize : Z)
    (paths : list string) (snk : nat -> bool) (src : list byte * option error) (r : R) :
  (e = ErrSessionNotFound \/ e = ErrSessionExpired)
  /\ ListFiles sortSlice now now' sessionID path showHidden filter w
     = (Returns (Err e), w, [])
  /\ GetFile now now' sessionID path w = (Returns (Err e), w, [])
  /\ PreviewFile now now' sessionID path maxSize w = (Returns (Err e), w, [])
  /\ GetMultipleFiles now now' sessionID paths w = (Returns (Some e), w, [])
  /\ DownloadMultiple now now' sessionID paths snk w
     = (Returns (Some (Wrapf "session not found" e)), w, [])
  /\ DeleteFile ops now now' sessionID path w r = (Returns (Some e), w, r, [])
  /\ UploadFile ops now now' sessionID path src overwrite w r
     = (Returns (Some e), w, r, [])
  /\ CreateDirectory ops now now' sessionID path w r = (Returns (Some e), w, r, []).
Proof.
  split.
  { pose proof refused_lookup as H. unfold GetSession in H.
    destruct (sessions w !! sessionID) as [s|]; [|left; congruence].
    destruct (IsExpired now s (Timeout (config w))); [right; congruence | discriminate]. }
  unfold ListFiles, GetFile, PreviewFile, GetMultipleFiles, DownloadMultiple,
    DeleteFile, UploadFile, CreateDirectory.
  rewrite refused_lookup. repeat split; reflexivity.
Qed.

End NoSession.

Lemma FileService_requires_session_witness :
  let w := world_alice 5 (home_server unopenable) in
  DownloadMultiple (31 * Minute)%Z (31 * Minute)%Z id_alice ["/home/alice"] always_ok w
  = (Returns (Some (Wrapf "session not found" ErrSessionExpired)), w, [])
  /\ DeleteFile memory_server 60%Z 61%Z id_bob "/home/alice/fileA.txt" w memory_files
     = (Returns (Some ErrSessionNotFound), w, memory_files, []).
Proof.
  intros w. split.
  - exact (proj1 (proj2 (proj2 (proj2 (proj2 (proj2
             (FileService_requires_session memory_server (31 * Minute)%Z (31 * Minute)%Z
                id_alice w ErrSessionExpired ltac:(vm_compute; reflexivity)
                insertion_sort "" "" false false 0%Z ["/home/alice"] always_ok
                ([], None) memory_files))))))).
  - exact (proj1 (proj2 (proj2 (proj2 (proj2 (proj2 (proj2
             (FileService_requires_session memory_server 60%Z 61%Z
                id_bob w ErrSessionNotFound ltac:(vm_compute; reflexivity)
                insertion_sort "/home/alice/fileA.txt" "" false false 0%Z [] always_ok
                ([], None) memory_files)))))))).
Defined.

(** ** The language table and the code extensions *)




(** ** Sanitised file names *)

Lemma replace_fold_empty (l : list ascii) :
  fold_left (fun name char => replace_char char "_" name) l "" = "".
Proof. induction l as [|ch l IH]; [reflexivity | exact IH]. Qed.

Lemma replace_fold_cons (l : list ascii) :
  forall (c : ascii) (rest : string),
    fold_left (fun name char => replace_char char "_" name) l (String c rest)
    = String (fold_left (fun c' char => if Ascii.eqb c' char then "_"%char else c') l c)
             (fold_left (fun name char => replace_char char "_" name) l rest).
Proof.
  induction l as [|ch l IH]; intros c rest; [reflexivity|].
  cbn [fold_left replace_char]. apply IH.
Qed.

Lemma replaced_char_valid (c : ascii) :
  valid_char (fold_left (fun c' char => if Ascii.eqb c' char then "_"%char else c')
                        invalid_chars c) = true.
Proof. destruct c as [[] [] [] [] [] [] [] []]; reflexivity. Qed.

Lemma valid_char_kept (c : ascii) :
  valid_char c = true ->
  fold_left (fun c' char => if Ascii.eqb c' char then "_"%char else c') invalid_chars c = c.
Proof. destruct c as [[] [] [] [] [] [] [] []]; intros H; try reflexivity; discriminate H. Qed.

Lemma valid_char_no_slash (c : ascii) : valid_char c = true -> Ascii.eqb c slash = false.
Proof. destruct c as [[] [] [] [] [] [] [] []]; intros H; try reflexivity; discriminate H. Qed.

Lemma replaced_valid (s : string) :
  all_chars valid_char
    (fold_left (fun name char => replace_char char "_" name) invalid_chars s) = true.
Proof.
  induction s as [|c s IH]; [reflexivity|].
  rewrite replace_fold_cons. cbn [all_chars]. rewrite replaced_char_valid. exact IH.
Qed.

Lemma valid_kept (s : string) :
  all_chars valid_char s = true ->
  fold_left (fun name char => replace_char char "_" name) invalid_chars s = s.
Proof.
  induction s as [|c s IH]; [reflexivity|]. cbn [all_chars]. intros H.
  apply andb_true_iff in H. destruct H as [Hc Hs].
  rewrite replace_fold_cons, (valid_char_kept _ Hc), (IH Hs). reflexivity.
Qed.

Lemma valid_no_slash (s : string) : all_chars valid_char s = true -> has_slash s = false.
Proof.
  induction s as [|c s IH]; [reflexivity|]. cbn [all_chars has_slash]. intros H.
  apply andb_true_iff in H. destruct H as [Hc Hs].
  rewrite (valid_char_no_slash _ Hc), (IH Hs). reflexivity.
Qed.

Lemma TrimLeft_all (p cut : ascii -> bool) (s : string) :
  all_chars p s = true -> all_chars p (TrimLeft cut s) = true.
Proof.
  induction s as [|c s IH]; [reflexivity|]. intros H. cbn [TrimLeft].
  destruct (cut c); [|exact H].
  cbn [all_chars] in H. apply andb_true_iff in H. apply IH. tauto.
Qed.

Lemma TrimRight_all (p cut : ascii -> bool) (s : string) :
  all_chars p s = true -> all_chars p (TrimRight cut s) = true.
Proof.
  induction s as [|c s IH]; [reflexivity|]. cbn [all_chars]. intros H.
  apply andb_true_iff in H. destruct H as [Hc Hs]. cbn [TrimRight].
  specialize (IH Hs). destruct (TrimRight cut s) as [|k ks].
  - destruct (cut c); [reflexivity|]. cbn [all_chars]. rewrite Hc. reflexivity.
  - cbn [all_chars] in *. rewrite Hc. exact IH.
Qed.

Lemma TrimLeft_first (cut : ascii -> bool) (s : string) :
  match first_char (TrimLeft cut s) with
  | Some ch => cut ch = false
  | None => TrimLeft cut s = ""
  end.
Proof.
  induction s as [|c s IH]; [reflexivity|]. cbn [TrimLeft].
  destruct (cut c) eqn:Hc; [exact IH | exact Hc].
Qed.

Lemma TrimRight_first (cut : ascii -> bool) (c : ascii) (rest : string) :
  cut c = false -> first_char (TrimRight cut (String c rest)) = Some c.
Proof.
  intros Hc. cbn [TrimRight]. destruct (TrimRight cut rest); [rewrite Hc|]; reflexivity.
Qed.

Lemma TrimRight_last (cut : ascii -> bool) (s : string) :
  match last_char (TrimRight cut s) with
  | Some ch => cut ch = false
  | None => TrimRight cut s = ""
  end.
Proof.
  induction s as [|c s IH]; [reflexivity|]. cbn [TrimRight].
  destruct (TrimRight cut s) as [|k ks].
  - destruct (cut c) eqn:Hc; [reflexivity | exact Hc].
  - change (last_char (String c (String k ks))) with (last_char (String k ks)).
    destruct (last_char (String k ks)); [exact IH | discriminate IH].
Qed.

Lemma TrimRight_kept (cut : ascii -> bool) (s : string) :
  match last_char s with
  | Some ch => cut ch = false
  | None => True
  end ->
  TrimRight cut s = s.
Proof.
  induction s as [|c s IH]; [reflexivity|]. intros H. cbn [TrimRight].
  destruct s as [|k ks].
  - cbn in H |- *. rewrite H. reflexivity.
  - rewrite (IH H). reflexivity.
Qed.

Lemma TrimLeft_kept (cut : ascii -> bool) (s : string) :
  match first_char s with
  | Some ch => cut ch = false
  | None => True
  end ->
  TrimLeft cut s = s.
Proof. destruct s as [|c s]; [reflexivity|]. cbn. intros ->. reflexivity. Qed.

Lemma Trim_trimmed (s cutset : string) : trimmed cutset (Trim s cutset) = true.
Proof.
  unfold trimmed, Trim.
  pose proof (TrimLeft_first (in_cutset cutset) s) as Hl.
  pose proof (TrimRight_last (in_cutset cutset) (TrimLeft (in_cutset cutset) s)) as Hr.
  destruct (TrimLeft (in_cutset cutset) s) as [|c rest]; [reflexivity|].
  cbn [first_char] in Hl. rewrite (TrimRight_first _ c rest Hl), Hl in *. cbn [negb andb].
  destruct (last_char (TrimRight (in_cutset cutset) (String c rest))); [|reflexivity].
  rewrite Hr. reflexivity.
Qed.

Lemma Trim_kept (s cutset : string) : trimmed cutset s = true -> Trim s cutset = s.
Proof.
  unfold trimmed, Trim. intros H. apply andb_true_iff in H. destruct H as [Hf Hl].
  rewrite TrimLeft_kept.
  - apply TrimRight_kept. destruct (last_char s); [|exact I].
    apply negb_true_iff. exact Hl.
  - destruct (first_char s); [|exact I]. apply negb_true_iff. exact Hf.
Qed.

Lemma Trim_all (p : ascii -> bool) (s cutset : string) :
  all_chars p s = true -> all_chars p (Trim s cutset) = true.
Proof. intros H. unfold Trim. apply TrimRight_all, TrimLeft_all. exact H. Qed.

Lemma SanitizeFilename_kept (filename : string) :
  filename <> "" -> all_chars valid_char filename = true -> trimmed " ." filename = true ->
  SanitizeFilename filename = filename.
Proof.
  intros Hne Hvalid Htrim. unfold SanitizeFilename.
  rewrite (valid_kept _ Hvalid), (Trim_kept _ _ Htrim).
  rewrite bool_decide_eq_false_2 by exact Hne. reflexivity.
Qed.

Lemma SanitizeFilename_clean (filename : string) :
  SanitizeFilename filename <> ""
  /\ all_chars valid_char (SanitizeFilename filename) = true
  /\ trimmed " ." (SanitizeFilename filename) = true.
Proof.
  unfold SanitizeFilename.
  set (replaced := fold_left (fun name char => replace_char char "_" name)
                             invalid_chars filename).
  destruct (bool_decide (Trim replaced " ." = "")) eqn:He.
  - split; [discriminate|]. split; reflexivity.
  - apply bool_decide_eq_false_1 in He. split; [exact He|].
    split; [apply Trim_all, replaced_valid | apply Trim_trimmed].
Qed.

(** X21: [SanitizeFilename] always returns a usable single path element:
    a name that is not empty, holds none of the characters it replaces (in
    particular no slash and no backslash), neither begins nor ends with a
    blank or a dot, and so is neither [.] nor [..].  A name that already is
    so is returned unchanged, and sanitising twice is the same as sanitising
    once. *)
Theorem SanitizeFilename_safe (filename : string) :
  let name := SanitizeFilename filename in
  name <> ""
  /\ all_chars valid_char name = true
  /\ trimmed " ." name = true
  /\ plain_name name = true
  /\ (filename <> "" -> all_chars valid_char filename = true ->
      trimmed " ." filename = true -> name = filename)
  /\ SanitizeFilename name = name.
Proof.
  intros name. destruct (SanitizeFilename_clean filename) as (Hne & Hvalid & Htrim).
  fold name in Hne, Hvalid, Htrim.
  split; [exact Hne|]. split; [exact Hvalid|]. split; [exact Htrim|].
  split.
  { apply plain_name_spec. split; [exact Hne|].
    split; [intros Heq; rewrite Heq in Htrim; discriminate|].
    split; [intros Heq; rewrite Heq in Htrim; discriminate|].
    apply valid_no_slash. exact Hvalid. }
  split; [apply SanitizeFilename_kept|].
  apply SanitizeFilename_kept; assumption.
Qed.

Lemma SanitizeFilename_safe_witness :
  SanitizeFilename " ../etc/passwd. " = "_etc_passwd"
  /\ SanitizeFilename "notes.txt" = "notes.txt"
  /\ SanitizeFilename ".." = "unnamed_file".
Proof.
  split; [reflexivity|]. split; [|reflexivity].
  exact (proj1 (proj2 (proj2 (proj2 (proj2 (SanitizeFilename_safe "notes.txt")))))
           ltac:(discriminate) eq_refl eq_refl).
Defined.
(** ** Paths below a base directory *)

Lemma join_app (cs1 cs2 : list string) :
  cs1 <> [] -> cs2 <> [] ->
  join_slash (cs1 ++ cs2) = join_slash cs1 +:+ "/" +:+ join_slash cs2.
Proof.
  intros H1. induction cs2 as [|e cs2 IH] using rev_ind; intros H2; [contradiction|].
  destruct cs2 as [|c cs2].
  - apply join_snoc. exact H1.
  - rewrite app_assoc, join_snoc by (destruct cs1; discriminate).
    rewrite IH by discriminate. rewrite (join_snoc (c :: cs2)) by discriminate.
    rewrite !append_assoc. reflexivity.
Qed.

Lemma Clean_absolute_elems (es : list string) :
  es <> [] -> Forall (fun e => has_slash e = false) es ->
  Clean ("/" +:+ join_slash es)
  = "/" +:+ join_slash (fold_left (clean_elem true) es []).
Proof.
  intros Hne Hall. change ("/" +:+ join_slash es) with (String slash (join_slash es)).
  rewrite Clean_rooted, split_join by assumption. reflexivity.
Qed.

Lemma Clean_absolute_plain (cs : list string) :
  Forall (fun x => plain_name x = true) cs ->
  Clean ("/" +:+ join_slash cs) = "/" +:+ join_slash cs.
Proof.
  intros Hall. destruct cs as [|c cs]; [reflexivity|].
  rewrite Clean_absolute_elems by (try discriminate; apply plain_no_slash; exact Hall).
  rewrite (fold_clean_plain true _ Hall). reflexivity.
Qed.

Lemma prefix_append_cancel (a b c : string) :
  String.prefix (a +:+ b) (a +:+ c) = String.prefix b c.
Proof.
  induction a as [|ch a IH]; simpl; [reflexivity|].
  destruct (ascii_dec ch ch) as [_|Hne]; [exact IH | contradiction].
Qed.

Lemma has_slash_append (a b : string) :
  has_slash (a +:+ b) = has_slash a || has_slash b.
Proof.
  induction a as [|ch a IH]; [reflexivity|].
  change (has_slash (String ch a +:+ b)) with (Ascii.eqb ch slash || has_slash (a +:+ b)).
  cbn [has_slash]. rewrite IH, orb_assoc. reflexivity.
Qed.

Lemma join_last_extended (cs : list string) (b x : string) :
  join_slash (cs ++ [b +:+ x]) = join_slash (cs ++ [b]) +:+ x.
Proof.
  destruct cs as [|c cs]; [reflexivity|].
  rewrite !join_snoc by discriminate. rewrite !append_assoc. reflexivity.
Qed.

Lemma join_longer (cs : list string) (b : string) :
  b <> "" -> (String.length (join_slash cs) < String.length (join_slash (cs ++ [b])))%nat.
Proof.
  intros Hb. assert (0 < String.length b)%nat by (destruct b; [contradiction | cbn; lia]).
  destruct cs as [|c cs]; [cbn [app join_slash String.length]; lia|].
  rewrite join_snoc by discriminate. rewrite !length_append. lia.
Qed.

(** X22: [CleanPath] under a clean absolute base [/c1/.../cn].  A plain
    name is placed below the base, and a relative path that climbs to the
    parent is answered with the base itself.  But the test is made on
    strings, not on path elements: a relative path that climbs out and
    enters a sibling directory whose name begins with the name of the base
    directory is returned as it is, although it lies outside the base. *)
Theorem CleanPath_prefix_check (cs : list string) (b x y name : string) :
  Forall (fun e => plain_name e = true) (cs ++ [b]) ->
  plain_name (b +:+ x) = true -> x <> "" ->
  plain_name y = true -> plain_name name = true ->
  let base := "/" +:+ join_slash (cs ++ [b]) in
  CleanPath base name = base +:+ "/" +:+ name
  /\ CleanPath base ".." = base
  /\ CleanPath base ("../" +:+ (b +:+ x) +:+ "/" +:+ y)
     = "/" +:+ join_slash (cs ++ [b +:+ x; y])
  /\ HasPrefix ("/" +:+ join_slash (cs ++ [b +:+ x; y])) (base +:+ "/") = false.
Proof.
  intros Hbase Hbx Hx Hy Hname base.
  assert (Hcs : Forall (fun e => plain_name e = true) cs)
    by (apply Forall_app in Hbase; tauto).
  assert (Hb : plain_name b = true).
  { apply Forall_app in Hbase. destruct Hbase as [_ Hb]. inversion Hb; assumption. }
  assert (Hne : cs ++ [b] <> []) by (destruct cs; discriminate).
  assert (Hclean : Clean base = base) by (apply Clean_absolute_plain; exact Hbase).
  assert (Hb0 : base <> "") by discriminate.
  assert (Hsib : Forall (fun e => plain_name e = true) (cs ++ [b +:+ x; y])).
  { apply Forall_app. split; [exact Hcs|]. repeat constructor; assumption. }
  assert (Hout : "/" +:+ join_slash (cs ++ [b +:+ x; y])
                 = base +:+ (x +:+ "/" +:+ y)).
  { unfold base. change (cs ++ [b +:+ x; y]) with (cs ++ [b +:+ x] ++ [y]).
    rewrite app_assoc, join_snoc by (destruct cs; discriminate).
    rewrite join_last_extended.
    change ("/" +:+ ?a) with (String slash a). cbn [String.append].
    rewrite !append_assoc. reflexivity. }
  assert (Hchild : Clean (Join base name) = base +:+ "/" +:+ name).
  { unfold base. rewrite (Join_plain _ _ Hne Hbase Hname).
    rewrite Clean_absolute_plain
      by (apply Forall_app; split; [exact Hbase | repeat constructor; exact Hname]).
    rewrite join_snoc by exact Hne. reflexivity. }
  assert (Hup : clean_elem true (cs ++ [b]) ".." = cs).
  { unfold clean_elem. rewrite !bool_decide_eq_false_2 by discriminate.
    rewrite bool_decide_eq_true_2 by reflexivity. cbn [orb].
    rewrite last_snoc.
    rewrite bool_decide_eq_false_2 by (apply plain_name_spec in Hb; tauto).
    apply removelast_last. }
  assert (Hparent : Clean (Join base "..") = "/" +:+ join_slash cs).
  { unfold Join.
    rewrite (bool_decide_eq_false_2 _ Hb0), bool_decide_eq_false_2 by discriminate.
    change (base +:+ "/" +:+ "..") with ("/" +:+ (join_slash (cs ++ [b]) +:+ "/" +:+ "..")).
    rewrite <- (join_snoc (cs ++ [b]) ".." Hne).
    rewrite Clean_absolute_elems.
    2:{ destruct cs; discriminate. }
    2:{ apply Forall_app. split; [apply plain_no_slash; exact Hbase | repeat constructor]. }
    rewrite fold_left_app, (fold_clean_plain true _ Hbase). cbn [fold_left app].
    rewrite Hup. apply Clean_absolute_plain. exact Hcs. }
  assert (Hsibling : Clean (Join base ("../" +:+ (b +:+ x) +:+ "/" +:+ y))
                     = "/" +:+ join_slash (cs ++ [b +:+ x; y])).
  { unfold Join.
    rewrite (bool_decide_eq_false_2 _ Hb0), bool_decide_eq_false_2 by discriminate.
    change (base +:+ "/" +:+ "../" +:+ (b +:+ x) +:+ "/" +:+ y)
      with ("/" +:+ (join_slash (cs ++ [b]) +:+ "/" +:+ join_slash [".."; b +:+ x; y])).
    rewrite <- (join_app (cs ++ [b]) [".."; b +:+ x; y] Hne) by discriminate.
    rewrite Clean_absolute_elems.
    2:{ destruct cs; discriminate. }
    2:{ apply Forall_app. split; [apply plain_no_slash; exact Hbase|].
        constructor; [reflexivity|].
        apply plain_no_slash. repeat constructor; assumption. }
    rewrite fold_left_app, (fold_clean_plain true _ Hbase). cbn [fold_left app].
    rewrite Hup, (clean_elem_plain true _ _ Hbx), (clean_elem_plain true _ _ Hy).
    rewrite <- app_assoc. cbn [app]. apply Clean_absolute_plain. exact Hsib. }
  split.
  { unfold CleanPath.
    rewrite bool_decide_eq_false_2 by (apply plain_name_spec in Hname; tauto).
    rewrite !Hchild, Hclean. unfold HasPrefix. rewrite prefix_append. reflexivity. }
  split.
  { unfold CleanPath. rewrite bool_decide_eq_false_2 by discriminate.
    rewrite !Hparent, Hclean. unfold HasPrefix.
    destruct (String.prefix base ("/" +:+ join_slash cs)) eqn:Hp; [|reflexivity].
    apply prefix_length in Hp. unfold base in Hp.
    change ("/" +:+ ?a) with (String slash a) in Hp. cbn [String.length] in Hp.
    pose proof (join_longer cs b ltac:(apply plain_name_spec in Hb; tauto)). lia. }
  split.
  { unfold CleanPath. rewrite bool_decide_eq_false_2 by discriminate.
    rewrite !Hsibling, Hclean, Hout. unfold HasPrefix. rewrite prefix_append. reflexivity. }
  rewrite Hout. unfold HasPrefix. rewrite prefix_append_cancel.
  destruct x as [|ch x']; [contradiction|].
  apply plain_name_spec in Hbx. destruct Hbx as (_ & _ & _ & Hs).
  rewrite has_slash_append in Hs. apply orb_false_iff in Hs. destruct Hs as [_ Hs].
  cbn [has_slash] in Hs. apply orb_false_iff in Hs. destruct Hs as [Hch _].
  etransitivity; [exact (HasPrefix_cons ch (x' +:+ "/" +:+ y))|].
  apply bool_decide_eq_false_2. intros ->. discriminate Hch.
Qed.

Lemma CleanPath_prefix_check_witness :
  CleanPath "/home/alice" "notes.txt" = "/home/alice/notes.txt"
  /\ CleanPath "/home/alice" ".." = "/home/alice"
  /\ CleanPath "/home/alice" "../alice2/secret" = "/home/alice2/secret".
Proof.
  destruct (CleanPath_prefix_check ["home"] "alice" "2" "secret" "notes.txt"
              ltac:(repeat constructor) eq_refl ltac:(discriminate) eq_refl eq_refl)
    as (H1 & H2 & H3 & _).
  split; [exact H1|]. split; [exact H2 | exact H3].
Defined.
(** ** The legacy file filter *)




(** ** Login history *)

Section FindFirst.

Context {A K : Type} (key : A -> K) (p : A -> bool) (k : K).
Hypothesis p_key : forall x, p x = true <-> key x = k.

Lemma find_first_Some (entries before after : list A) (found : A) :
  find_first p entries = Some (before, found, after) ->
  entries = before ++ found :: after /\ p found = true
  /\ Forall (fun x => p x = false) before.
Proof.
  revert before. induction entries as [|x rest IH]; intros before; [discriminate|].
  cbn [find_first]. destruct (p x) eqn:Hx.
  - intros [= <- <- <-]. split; [reflexivity|]. split; [exact Hx | constructor].
  - destruct (find_first p rest) as [[[b f] a]|]; [|discriminate].
    intros [= <- <- <-]. destruct (IH b eq_refl) as (-> & Hf & Hb).
    split; [reflexivity|]. split; [exact Hf|]. constructor; assumption.
Qed.

Lemma find_first_None (entries : list A) :
  find_first p entries = None -> Forall (fun x => p x = false) entries.
Proof.
  induction entries as [|x rest IH]; [constructor|]. cbn [find_first].
  destruct (p x) eqn:Hx; [discriminate|].
  destruct (find_first p rest) as [[[b f] a]|]; [discriminate|].
  intros _. constructor; [exact Hx | apply IH; reflexivity].
Qed.

Lemma filter_all_kept (f : A -> bool) (l : list A) :
  Forall (fun x => f x = true) l -> List.filter f l = l.
Proof.
  induction 1 as [|x l Hx _ IH]; [reflexivity|].
  cbn [List.filter]. rewrite Hx, IH. reflexivity.
Qed.

Lemma filter_sublist (f : A -> bool) (l : list A) : List.filter f l `sublist_of` l.
Proof.
  induction l as [|x l IH]; [constructor|]. cbn [List.filter].
  destruct (f x); [apply sublist_skip | apply sublist_cons]; exact IH.
Qed.

(** Where keys are not repeated, dropping the first entry with the key [k]
    drops every entry with that key. *)
Lemma find_first_removes (entries : list A) :
  NoDup (map key entries) ->
  match find_first p entries with
  | Some (before, _, after) => before ++ after
  | None => entries
  end
  = List.filter (fun x => negb (p x)) entries.
Proof.
  intros Hnd. destruct (find_first p entries) as [[[before found] after]|] eqn:Hfind.
  - destruct (find_first_Some _ _ _ _ Hfind) as (-> & Hf & Hb).
    rewrite List.filter_app. cbn [List.filter]. rewrite Hf. cbn [negb].
    rewrite map_app in Hnd. apply NoDup_app in Hnd. destruct Hnd as (_ & _ & Hnd).
    cbn [map] in Hnd. apply NoDup_cons in Hnd. destruct Hnd as [Hout _].
    rewrite !filter_all_kept; [reflexivity | |].
    + apply Forall_forall. intros x Hx.
      destruct (p x) eqn:Hpx; [|reflexivity]. exfalso. apply Hout.
      apply p_key in Hpx, Hf. rewrite Hf, <- Hpx.
      apply list_elem_of_In, in_map, list_elem_of_In. exact Hx.
    + eapply Forall_impl; [exact Hb|]. intros x Hx. cbn in Hx. rewrite Hx. reflexivity.
  - symmetry. apply filter_all_kept.
    eapply Forall_impl; [apply find_first_None; exact Hfind|].
    intros x Hx. cbn in Hx. rewrite Hx. reflexivity.
Qed.

Lemma sublist_map (l1 l2 : list A) :
  l1 `sublist_of` l2 -> map key l1 `sublist_of` map key l2.
Proof.
  induction 1; cbn [map]; [constructor | apply sublist_skip | apply sublist_cons];
    assumption.
Qed.

Lemma filtered_keys_NoDup (f : A -> bool) (l : list A) :
  NoDup (map key l) -> NoDup (map key (List.filter f l)).
Proof.
  intros Hnd. eapply sublist_NoDup; [exact Hnd|].
  apply sublist_map, filter_sublist.
Qed.

Lemma key_filtered_out (l : list A) :
  k ∉ map key (List.filter (fun x => negb (p x)) l).
Proof.
  intros Hin. apply list_elem_of_In, in_map_iff in Hin. destruct Hin as (x & Hk & Hx).
  apply filter_In in Hx. destruct Hx as [_ Hx]. apply p_key in Hk.
  rewrite Hk in Hx. discriminate.
Qed.

(** The new entry in front of the others, cut to [n] entries. *)
Lemma front_cut_NoDup (n : nat) (x : A) (l : list A) :
  key x = k -> NoDup (map key l) ->
  NoDup (map key (take n (x :: List.filter (fun y => negb (p y)) l))).
Proof.
  intros Hx Hnd. eapply sublist_NoDup; [|apply sublist_map, sublist_take].
  cbn [map]. apply NoDup_cons. split.
  - rewrite Hx. apply key_filtered_out.
  - apply filtered_keys_NoDup. exact Hnd.
Qed.

End FindFirst.

Lemma same_login_key (host : string) (port : Z) (username : string) (entry : LoginHistory) :
  same_login host port username entry = true <-> login_key entry = (host, port, username).
Proof.
  unfold same_login, login_key. rewrite !andb_true_iff, !bool_decide_eq_true, Z.eqb_eq.
  split; [intros [[-> ->] ->]; reflexivity | intros [= -> -> ->]; tauto].
Qed.

Lemma same_legacy_login_key (host : string) (port : Z) (username : string)
    (login : LegacyLogin) :
  same_legacy_login host port username login = true
  <-> legacy_key login = (host, port, username).
Proof.
  unfold same_legacy_login, legacy_key.
  rewrite !andb_true_iff, !bool_decide_eq_true, Z.eqb_eq.
  split; [intros [[-> ->] ->]; reflexivity | intros [= -> -> ->]; tauto].
Qed.

Lemma saveHistory_history (writeErr : option error) (l : LoginHistoryService) :
  history (snd (saveHistory writeErr l)) = history l
  /\ history_config (snd (saveHistory writeErr l)) = history_config l.
Proof.
  unfold saveHistory. destruct (bool_decide (HistoryFile (history_config l) = ""));
    split; reflexivity.
Qed.

(** X24: [AddLogin] keeps the history in shape.  With history saving on, a
    limit that is not negative, and a history without repeated logins that
    is within the limit, the call returns, and the new history is the login
    just made, stamped with the current time and its outcome, followed by
    the other logins in their old order, cut to the limit; it again has no
    repeated login and is within the limit. *)
Theorem AddLogin_keeps_history (now : Time) (writeErr : option error) (host : string)
    (port : Z) (username : string) (success : bool) (l : LoginHistoryService) :
  SaveHistory (history_config l) = true ->
  (0 <= MaxHistory (history_config l))%Z ->
  NoDup (map login_key (history l)) ->
  (Z.of_nat (length (history l)) <= MaxHistory (history_config l))%Z ->
  exists l',
    AddLogin now writeErr host port username success l = Returns l'
    /\ history l'
       = take (Z.to_nat (MaxHistory (history_config l)))
              (mkLoginHistory host port username now success
               :: List.filter (fun e => negb (same_login host port username e)) (history l))
    /\ NoDup (map login_key (history l'))
    /\ (Z.of_nat (length (history l')) <= MaxHistory (history_config l'))%Z
    /\ history_config l' = history_config l.
Proof.
  intros Hsave Hmax Hnd Hlen.
  set (new := mkLoginHistory host port username now success).
  set (others := List.filter (fun e => negb (same_login host port username e)) (history l)).
  assert (Hshape : exists l',
            AddLogin now writeErr host port username success l = Returns l'
            /\ history l' = take (Z.to_nat (MaxHistory (history_config l))) (new :: others)
            /\ history_config l' = history_config l).
  { unfold AddLogin. rewrite Hsave. cbn [negb].
    pose proof (find_first_removes login_key _ _ (same_login_key host port username)
                  (history l) Hnd) as Hrm.
    destruct (find_first (same_login host port username) (history l))
      as [[[before found] after]|] eqn:Hfind.
    - destruct (find_first_Some _ _ _ _ _ Hfind) as (Hl & Hf & _).
      apply same_login_key in Hf. injection Hf as Hh Hp Hu.
      eexists. split; [reflexivity|].
      rewrite (proj1 (saveHistory_history _ _)), (proj2 (saveHistory_history _ _)).
      split; [|reflexivity]. cbn [history with_history].
      rewrite Hh, Hp, Hu, Hrm. fold new others.
      rewrite take_ge; [reflexivity|].
      assert (length (history l) = S (length (before ++ after)))
        by (rewrite Hl, !length_app; cbn [length]; lia).
      unfold others. rewrite <- Hrm. cbn [length]. lia.
    - fold others in Hrm. rewrite Hrm. fold new.
      destruct (Z.ltb_spec (MaxHistory (history_config l))
                           (Z.of_nat (length (new :: others)))) as [Hcut | Hfit].
      + rewrite (proj2 (Z.ltb_ge _ _) Hmax). eexists. split; [reflexivity|].
        rewrite (proj1 (saveHistory_history _ _)), (proj2 (saveHistory_history _ _)).
        split; reflexivity.
      + eexists. split; [reflexivity|].
        rewrite (proj1 (saveHistory_history _ _)), (proj2 (saveHistory_history _ _)).
        split; [|reflexivity]. cbn [history with_history].
        rewrite take_ge; [reflexivity | lia]. }
  destruct Hshape as (l' & Hrun & Hhist & Hcfg). exists l'.
  split; [exact Hrun|]. split; [exact Hhist|].
  split.
  { rewrite Hhist.
    apply (front_cut_NoDup login_key _ _ (same_login_key host port username));
      [reflexivity | exact Hnd]. }
  split; [|exact Hcfg].
  rewrite Hcfg, Hhist, length_take. lia.
Qed.

Lemma AddLogin_keeps_history_witness :
  exists l',
    AddLogin 20%Z None "files.example.org" 22 "carol" true sample_history = Returns l'
    /\ map lh_Username (history l') = ["carol"; "alice"; "bob"].
Proof.
  destruct (AddLogin_keeps_history 20%Z None "files.example.org" 22 "carol" true
              sample_history eq_refl ltac:(vm_compute; discriminate)
              ltac:(vm_compute; repeat constructor; rewrite ?elem_of_cons, ?elem_of_nil;
                    intuition discriminate)
              ltac:(vm_compute; discriminate))
    as (l' & Hrun & Hhist & _).
  exists l'. split; [exact Hrun|]. rewrite Hhist. reflexivity.
Defined.

(** X25: [AddLogin] panics in exactly one situation: history saving is on,
    the configured limit is negative, and the login is not in the history
    yet. *)
Theorem AddLogin_panics_iff (now : Time) (writeErr : option error) (host : string)
    (port : Z) (username : string) (success : bool) (l : LoginHistoryService) :
  AddLogin now writeErr host port username success l = Panics
  <-> SaveHistory (history_config l) = true
      /\ (MaxHistory (history_config l) < 0)%Z
      /\ Forall (fun e => login_key e <> (host, port, username)) (history l).
Proof.
  unfold AddLogin. destruct (SaveHistory (history_config l)); cbn [negb].
  2:{ split; [discriminate | intros [? _]; discriminate]. }
  destruct (find_first (same_login host port username) (history l))
    as [[[before found] after]|] eqn:Hfind.
  - split; [discriminate|]. intros (_ & _ & Hall).
    destruct (find_first_Some _ _ _ _ _ Hfind) as (Hl & Hf & _).
    apply same_login_key in Hf. rewrite Hl in Hall.
    apply Forall_app in Hall. destruct Hall as [_ Hall].
    inversion Hall; contradiction.
  - assert (Hnone : Forall (fun e => login_key e <> (host, port, username)) (history l)).
    { eapply Forall_impl; [apply find_first_None; exact Hfind|].
      intros e He Hk. apply same_login_key in Hk. cbn in He. congruence. }
    destruct (Z.ltb_spec (MaxHistory (history_config l))
                         (Z.of_nat (length (mkLoginHistory host port username now success
                                             :: history l)))) as [Hcut | Hfit].
    + destruct (Z.ltb_spec (MaxHistory (history_config l)) 0) as [Hneg | Hpos].
      * split; [intros _; split; [reflexivity | split; assumption] | reflexivity].
      * split; [discriminate | intros (_ & Hneg & _); lia].
    + split; [discriminate | intros (_ & Hneg & _); lia].
Qed.
(** X26: on a history without repeated logins, [RemoveEntry] removes the
    login: the entries for other logins stay, in their order, none for the
    removed login is left, and the history still has no repeated login.
    When the login is not in the history nothing changes and the history
    file is not written. *)
Theorem RemoveEntry_removes (writeErr : option error) (host : string) (port : Z)
    (username : string) (l : LoginHistoryService) :
  NoDup (map login_key (history l)) ->
  let l' := RemoveEntry writeErr host port username l in
  history l' = List.filter (fun e => negb (same_login host port username e)) (history l)
  /\ Forall (fun e => login_key e <> (host, port, username)) (history l')
  /\ NoDup (map login_key (history l'))
  /\ (Forall (fun e => login_key e <> (host, port, username)) (history l) -> l' = l).
Proof.
  intros Hnd l'.
  assert (Hhist : history l'
                  = List.filter (fun e => negb (same_login host port username e))
                                (history l)).
  { subst l'. unfold RemoveEntry.
    pose proof (find_first_removes login_key _ _ (same_login_key host port username)
                  (history l) Hnd) as Hrm.
    destruct (find_first (same_login host port username) (history l))
      as [[[before found] after]|]; [|exact Hrm].
    rewrite (proj1 (saveHistory_history _ _)). exact Hrm. }
  split; [exact Hhist|]. split.
  { rewrite Hhist. apply Forall_forall. intros e He Hk.
    apply list_elem_of_In, filter_In in He. destruct He as [_ He].
    apply same_login_key in Hk. rewrite Hk in He. discriminate. }
  split; [rewrite Hhist; apply filtered_keys_NoDup; exact Hnd|].
  intros Hnone. subst l'. unfold RemoveEntry.
  destruct (find_first (same_login host port username) (history l))
    as [[[before found] after]|] eqn:Hfind; [|reflexivity].
  destruct (find_first_Some _ _ _ _ _ Hfind) as (Hl & Hf & _).
  apply same_login_key in Hf. rewrite Hl in Hnone.
  apply Forall_app in Hnone. destruct Hnone as [_ Hnone].
  inversion Hnone; contradiction.
Qed.

Lemma RemoveEntry_removes_witness :
  map lh_Username (history (RemoveEntry None "files.example.org" 22 "bob" sample_history))
  = ["alice"; "alice"].
Proof.
  destruct (RemoveEntry_removes None "files.example.org" 22 "bob" sample_history
              ltac:(vm_compute; repeat constructor; rewrite ?elem_of_cons, ?elem_of_nil;
                    intuition discriminate))
    as (Hhist & _).
  rewrite Hhist. reflexivity.
Defined.

(** X27: the legacy [addLoginHistory] never keeps more than five logins
    and puts the login just made first; on a list without repeated logins
    the result is that login followed by the other logins in their old
    order, cut to five, and again has no repeated login. *)
Theorem addLoginHistory_keeps_five (now : Time) (host : string) (port : Z)
    (username : string) (lastLogins : list LegacyLogin) :
  let result := addLoginHistory now host port username lastLogins in
  (length result <= 5)%nat
  /\ head result = Some (mkLegacyLogin host port username now)
  /\ (NoDup (map legacy_key lastLogins) ->
      result = take 5 (mkLegacyLogin host port username now
                       :: List.filter
                            (fun e => negb (same_legacy_login host port username e))
                            lastLogins)
      /\ NoDup (map legacy_key result)).
Proof.
  intros result. subst result. unfold addLoginHistory.
  set (new := mkLegacyLogin host port username now).
  set (removed := match find_first (same_legacy_login host port username) lastLogins with
                  | Some (before, _, after) => before ++ after
                  | None => lastLogins
                  end).
  assert (Hcut : (if (5 <? length (new :: removed))%nat
                  then take 5 (new :: removed) else new :: removed)
                 = take 5 (new :: removed)).
  { destruct (Nat.ltb_spec 5 (length (new :: removed))); [reflexivity|].
    symmetry. apply take_ge. assumption. }
  rewrite Hcut. split; [rewrite length_take; lia|]. split; [reflexivity|].
  intros Hnd. subst removed.
  rewrite (find_first_removes legacy_key _ _ (same_legacy_login_key host port username)
             lastLogins Hnd).
  split; [reflexivity|].
  apply (front_cut_NoDup legacy_key _ _ (same_legacy_login_key host port username));
    [reflexivity | exact Hnd].
Qed.

(** ** The two archive builders *)

(** X28: [DownloadMultiple] and [GetMultipleFiles] build the same archive
    when no directory is involved: for requested paths that are clean and
    do not name a directory, both create the same entries, in the same
    order (over a response that accepts every write). *)
Theorem DownloadMultiple_agrees_with_GetMultipleFiles (now now' : Time)
    (sessionID : string) (w w' : World) (s : Session) (c : nat)
    (filePaths : list string) :
  GetSession now now' sessionID w = (Ok s, w') ->
  SFTPClient s = Some c ->
  Forall (fun p => Clean p = p /\ forall n, remote w c p = Ok n -> IsDir n = false)
         filePaths ->
  entry_names (snd (DownloadMultiple now now' sessionID filePaths (fun _ => true) w))
  = entry_names (snd (GetMultipleFiles now now' sessionID filePaths w)).
Proof.
  intros Hget Hclient Hfiles.
  rewrite (DownloadMultiple_run _ _ _ _ _ _ _ Hget Hclient).
  unfold GetMultipleFiles.
  rewrite Hget, Hclient, (GetSession_remote _ _ _ _ _ _ Hget). cbn [snd].
  destruct (download_loop_log (remote w c) filePaths (NewWriter (fun _ => true)))
    as (_ & d1 & He1 & _ & _ & Hn1 & _).
  destruct (get_loop_log (remote w c) filePaths (NewWriter (fun _ => true)))
    as (_ & d2 & He2 & _ & _ & _ & Hn2); [reflexivity|].
  unfold zip_Close. cbn [events]. rewrite He1, He2, !entry_names_app.
  cbn [events NewWriter entry_names omap list_omap app]. rewrite !app_nil_r.
  rewrite Hn1 by reflexivity. rewrite Hn2. clear He1 He2 Hn1 Hn2 d1 d2.
  induction Hfiles as [|p rest [Hclean Hfile] _ IH]; [reflexivity|].
  cbn [flat_map omap list_omap]. rewrite IH. unfold path_entries. rewrite Hclean.
  destruct (remote w c p) as [[info [file | e] | info listing] | e]; try reflexivity.
  specialize (Hfile _ eq_refl). discriminate Hfile.
Qed.

Lemma DownloadMultiple_agrees_with_GetMultipleFiles_witness :
  let w := world_alice 5 (home_server unopenable) in
  entry_names (snd (DownloadMultiple 60%Z 61%Z id_alice
                      ["/home/alice/fileA.txt"; "/lost"; "/home/alice/script.py"]
                      (fun _ => true) w))
  = ["fileA.txt"; "script.py"]
  /\ entry_names (snd (GetMultipleFiles 60%Z 61%Z id_alice
                         ["/home/alice/fileA.txt"; "/lost"; "/home/alice/script.py"] w))
     = ["fileA.txt"; "script.py"].
Proof.
  intros w.
  pose proof (DownloadMultiple_agrees_with_GetMultipleFiles 60%Z 61%Z id_alice
                w (snd (GetSession 60%Z 61%Z id_alice w))
                (UpdateAccess 61%Z session_alice) 1%nat
                ["/home/alice/fileA.txt"; "/lost"; "/home/alice/script.py"]
                ltac:(vm_compute; reflexivity) eq_refl
                ltac:(repeat (apply List.Forall_cons;
                                [split; [vm_compute; reflexivity|];
                                 intros n Hn; vm_compute in Hn;
                                 first [discriminate Hn | injection Hn as <-; reflexivity]|]);
                      apply List.Forall_nil)) as H.
  split; [rewrite H|]; vm_compute; reflexivity.
Defined.

(** ** The life of a session *)

Lemma Sub_monotone (t t' u : Time) : (t <= t')%Z -> (Sub t u <= Sub t' u)%Z.
Proof.
  intros H. unfold Sub, minDuration, maxDuration.
  repeat match goal with
         | |- context [(?a <? ?b)%Z] => destruct (Z.ltb_spec a b)
         end; lia.
Qed.

Lemma Sub_within (t u : Time) (timeout : Duration) :
  (minDuration <= timeout)%Z -> (t - u <= timeout)%Z -> (Sub t u <= timeout)%Z.
Proof.
  intros Hmin H. unfold Sub, minDuration, maxDuration in *.
  repeat match goal with
         | |- context [(?a <? ?b)%Z] => destruct (Z.ltb_spec a b)
         end; lia.
Qed.

Lemma GetSession_each_alive (calls : list (Time * Time)) :
  forall (sessionID : string) (w : World) (s : Session),
    sessions w !! sessionID = Some s ->
    (minDuration <= Timeout (config w))%Z ->
    within_timeout (Timeout (config w)) (LastAccess s) calls ->
    fst (GetSession_each calls sessionID w)
    = map (fun call => Ok (UpdateAccess (snd call) s)) calls
    /\ sessions (snd (GetSession_each calls sessionID w)) !! sessionID
       = Some match last calls with
              | Some call => UpdateAccess (snd call) s
              | None => s
              end.
Proof.
  induction calls as [|[now now'] rest IH]; intros sessionID w s Hs Hmin Hin.
  - split; [reflexivity | exact Hs].
  - destruct Hin as [Hgap Hrest]. cbn [GetSession_each].
    assert (Hget : GetSession now now' sessionID w
                   = (Ok (UpdateAccess now' s),
                      with_sessions (<[sessionID := UpdateAccess now' s]> (sessions w)) w)).
    { unfold GetSession, IsExpired, Since. rewrite Hs.
      pose proof (Sub_within now (LastAccess s) _ Hmin Hgap).
      destruct (Z.ltb_spec (Timeout (config w)) (Sub now (LastAccess s))); [lia|].
      reflexivity. }
    rewrite Hget.
    specialize (IH sessionID
                   (with_sessions (<[sessionID := UpdateAccess now' s]> (sessions w)) w)
                   (UpdateAccess now' s)).
    destruct (GetSession_each rest sessionID
                (with_sessions (<[sessionID := UpdateAccess now' s]> (sessions w)) w))
      as [rs w2].
    destruct IH as [Hrs Hw2]; [apply lookup_insert_eq | exact Hmin | exact Hrest |].
    cbn [fst snd] in *. split.
    + cbn [map snd]. rewrite Hrs. reflexivity.
    + rewrite Hw2. destruct rest as [|call rest']; [reflexivity|].
      change (last ((now, now') :: call :: rest')) with (last (call :: rest')).
      destruct (last (call :: rest')) eqn:Hl; [reflexivity|].
      apply last_None in Hl. discriminate Hl.
Qed.

(** X29: the timeout of a session is a sliding one.  As long as every
    [GetSession] call comes at most [Timeout] after the access before it,
    every call succeeds, however long ago the session was created, and the
    stored session is the original one with the time of the last call as
    its last access.  A call that finds the session expired does not
    refresh it: every later call finds it expired as well. *)
Theorem GetSession_sliding_timeout (calls : list (Time * Time)) (sessionID : string)
    (w : World) (s : Session) :
  sessions w !! sessionID = Some s ->
  (minDuration <= Timeout (config w))%Z ->
  (within_timeout (Timeout (config w)) (LastAccess s) calls ->
   fst (GetSession_each calls sessionID w)
   = map (fun call => Ok (UpdateAccess (snd call) s)) calls
   /\ sessions (snd (GetSession_each calls sessionID w)) !! sessionID
      = Some match last calls with
             | Some call => UpdateAccess (snd call) s
             | None => s
             end)
  /\ (forall now1 now1' now2 now2',
        fst (GetSession now1 now1' sessionID w) = Err ErrSessionExpired ->
        (now1 <= now2)%Z ->
        GetSession now2 now2' sessionID (snd (GetSession now1 now1' sessionID w))
        = (Err ErrSessionExpired, w)).
Proof.
  intros Hs Hmin. split; [apply GetSession_each_alive; assumption|].
  intros now1 now1' now2 now2'. unfold GetSession, IsExpired, Since. rewrite Hs.
  destruct (Z.ltb_spec (Timeout (config w)) (Sub now1 (LastAccess s))) as [Hexp|Hlive];
    [|discriminate].
  intros _ Hlater. cbn [snd]. rewrite Hs.
  pose proof (Sub_monotone now1 now2 (LastAccess s) Hlater).
  destruct (Z.ltb_spec (Timeout (config w)) (Sub now2 (LastAccess s))); [reflexivity | lia].
Qed.

Lemma GetSession_sliding_timeout_witness :
  let w := world_alice 5 no_server in
  fst (GetSession_each [((25 * Minute)%Z, (25 * Minute)%Z); ((50 * Minute)%Z, (50 * Minute)%Z);
                        ((75 * Minute)%Z, (75 * Minute)%Z)] id_alice w)
  = [Ok (UpdateAccess (25 * Minute)%Z session_alice);
     Ok (UpdateAccess (50 * Minute)%Z session_alice);
     Ok (UpdateAccess (75 * Minute)%Z session_alice)].
Proof.
  intros w.
  exact (proj1 (proj1 (GetSession_sliding_timeout
                         [((25 * Minute)%Z, (25 * Minute)%Z); ((50 * Minute)%Z, (50 * Minute)%Z);
                          ((75 * Minute)%Z, (75 * Minute)%Z)] id_alice w session_alice
                         ltac:(vm_compute; reflexivity) ltac:(vm_compute; discriminate))
                      ltac:(vm_compute; repeat split; discriminate))).
Defined.
(** ** The rate limiter *)


Lemma in_window_now (now : Time) : in_window now now = true.
Proof.
  unfold in_window, Sub, minDuration, maxDuration. rewrite Z.sub_diag. reflexivity.
Qed.


Lemma filter_length_le {A : Type} (f : A -> bool) (l : list A) :
  (length (List.filter f l) <= length l)%nat.
Proof.
  induction l as [|x l IH]; [reflexivity|]. cbn [List.filter].
  destruct (f x); cbn [length]; lia.
Qed.





